(** * RTL-SDR spectrum wallpaper: sweep reader, normaliser and renderer

    A shallow embedding of [rtl_spectrum_wallpaper.py]:
    - [Float]: Python's [float] (IEEE 754 binary64, round to nearest even),
      a finite value held as [m * 2^k] units of [2^-1074]; its operations
      are proved equal to those of [Stdlib.Floats.SpecFloat];
    - [PyStr]: the [str] methods the reader uses ([strip], [split(',')]) and
      the builtin [float(str)];
    - [read_spectrum_data], [normalize_db_values],
      [spectrum_color_gradient] and [create_spectrum_image].

    Python exceptions are values of an error monad; a [try]/[except] is a
    match on it. *)

From Stdlib Require Import ZArith List String Ascii Bool Lia.
From Stdlib Require Import Floats.SpecFloat.
Import ListNotations.

#[local] Open Scope Z_scope.

(** ** Exceptions *)

Inductive exn : Type :=
| ValueError
| IndexError
| ZeroDivisionError
| OverflowError
| OSError.

Inductive result (A : Type) : Type :=
| Ok (a : A)
| Raise (e : exn).

Arguments Ok {A} a.
Arguments Raise {A} e.

Definition bind {A B : Type} (r : result A) (k : A -> result B) : result B :=
  match r with
  | Ok a => k a
  | Raise e => Raise e
  end.

Notation "x <- c ;; k" := (bind c (fun x => k))
  (at level 61, c at next level, right associativity).
Notation "' p <- c ;; k" := (bind c (fun x => let 'p := x in k))
  (at level 61, p pattern, c at next level, right associativity).

Fixpoint mapM {A B : Type} (f : A -> result B) (l : list A) : result (list B) :=
  match l with
  | [] => Ok []
  | a :: l' => b <- f a ;; bs <- mapM f l' ;; Ok (b :: bs)
  end.

(** ** Python floats *)

Module Float.

(** A finite binary64 is [m * 2^k] units of [2^-1074], with [m < 2^53] and
    [k <= 2045]; the smallest positive float is one unit. *)
Definition ulp_exp : Z := 1074.
Definition unit_scale : Z := 2 ^ ulp_exp.
Definition max_shift : Z := 2045.
Definition overflow_mag : Z := 2 ^ 2098.

Inductive float : Type :=
| NaN
| Inf (neg : bool)
| Fin (neg : bool) (m : N) (k : N).

(** Magnitude and signed value of a finite float, in units. *)
Definition mag (m k : N) : Z := Z.of_N m * 2 ^ Z.of_N k.

Definition sval (neg : bool) (m k : N) : Z :=
  if neg then - mag m k else mag m k.

(** Position on the extended line; the infinities sit at [+-2^2098]. *)
Definition ext (x : float) : Z :=
  match x with
  | NaN => 0
  | Inf neg => if neg then - overflow_mag else overflow_mag
  | Fin neg m k => sval neg m k
  end.

Definition is_nan (x : float) : bool :=
  match x with NaN => true | _ => false end.

Definition is_finite (x : float) : bool :=
  match x with Fin _ _ _ => true | _ => false end.

Definition is_zero (x : float) : bool :=
  match x with Fin _ 0%N _ => true | _ => false end.

(** The one representation every operation returns: a 53-bit mantissa
    unless the exponent is the lowest one. *)
Definition canonical (x : float) : bool :=
  match x with
  | Fin _ 0%N k => (k =? 0)%N
  | Fin _ m k =>
      (Z.of_N m <? 2 ^ 53) && (Z.of_N k <=? max_shift)
      && ((k =? 0)%N || (2 ^ 52 <=? Z.of_N m))
  | _ => true
  end.

(** *** Rounding to nearest, ties to even *)

(** Nearest integer to [n / d], for [0 <= n] and [0 < d]. *)
Definition rne_int (n d : Z) : Z :=
  let q := n / d in
  match 2 * (n mod d) ?= d with
  | Lt => q
  | Eq => if Z.even q then q else q + 1
  | Gt => q + 1
  end.

(** [floor (log2 (n / d))], for [0 < n] and [0 < d]. *)
Definition quot_exp (n d : Z) : Z :=
  let a := Z.log2 n in
  let b := Z.log2 d in
  if n * 2 ^ b <? d * 2 ^ a then a - b - 1 else a - b.

(** Nearest integer to [(n / d) * 2^t]. *)
Definition scaled_rne (n d t : Z) : Z :=
  if 0 <=? t then rne_int (n * 2 ^ t) d else rne_int n (d * 2 ^ (- t)).

(** The float of sign [neg] nearest to [(n / d) * 2^j] units: the
    quotient keeps 53 bits ([sh] low bits are dropped), a mantissa rounded
    up to [2^53] moves to the next exponent, and a result past the largest
    finite float is an infinity. *)
Definition round_scaled (neg : bool) (n d j : Z) : float :=
  if n =? 0 then Fin neg 0 0
  else
    let sh := Z.max 0 (quot_exp n d + j - 52) in
    let m := scaled_rne n d (j - sh) in
    if m =? 0 then Fin neg 0 0
    else
      let '(m, sh) := if m =? 2 ^ 53 then (2 ^ 52, sh + 1) else (m, sh) in
      if max_shift <? sh then Inf neg else Fin neg (Z.to_N m) (Z.to_N sh).

(** *** Rounding, stated on exact quotients

    The reference the proofs use: the same rounding written on the
    quotient [n / d] of two integers counted in units, with no
    exponent arithmetic. *)

(** Number of low bits a binary64 drops at the size of [q]. *)
Definition shift_of (q : Z) : Z := Z.max 0 (Z.log2 q - 52).

(** Nearest binary64 magnitude to [n / d], exponent unbounded above. *)
Definition rne (n d : Z) : Z :=
  let sh := shift_of (n / d) in
  rne_int n (d * 2 ^ sh) * 2 ^ sh.

(** [(n / d) * 2^j] as the quotient [num n j / den d j]. *)
Definition num (n j : Z) : Z := n * 2 ^ Z.max 0 j.
Definition den (d j : Z) : Z := d * 2 ^ Z.max 0 (- j).
Definition signed (neg : bool) (z : Z) : Z := if neg then - z else z.

(** Extended value of the float nearest to [z / d] units, [0 < d]. *)
Definition rnd (z d : Z) : Z :=
  if z <? 0 then - Z.min (rne (- z) d) overflow_mag
  else Z.min (rne z d) overflow_mag.

(** A float that is finite and below the overflow threshold. *)
Definition proper (x : float) : bool :=
  is_finite x && (Z.abs (ext x) <? overflow_mag).

(** What an operation on finite operands returns: never a NaN, the
    rounded exact result, and a float below the threshold when finite. *)
Definition rounds_to (r : float) (z d : Z) : Prop :=
  ext r = rnd z d /\ is_nan r = false
  /\ (is_finite r = true -> proper r = true).

(** [x] lies between [lo] and [hi], all three below the threshold. *)
Definition btw (lo hi x : float) : Prop :=
  proper lo = true /\ proper hi = true /\ proper x = true
  /\ ext lo <= ext x <= ext hi.

(** *** Arithmetic *)

Definition fneg (x : float) : float :=
  match x with
  | NaN => NaN
  | Inf s => Inf (negb s)
  | Fin s m k => Fin (negb s) m k
  end.

Definition fadd (x y : float) : float :=
  match x, y with
  | NaN, _ | _, NaN => NaN
  | Inf sx, Inf sy => if Bool.eqb sx sy then x else NaN
  | Inf _, _ => x
  | _, Inf _ => y
  | Fin sx mx kx, Fin sy my ky =>
      let k := N.min kx ky in
      let z := sval sx mx (kx - k) + sval sy my (ky - k) in
      if z =? 0 then Fin (sx && sy) 0 0
      else round_scaled (z <? 0) (Z.abs z) 1 (Z.of_N k)
  end.

Definition fsub (x y : float) : float := fadd x (fneg y).

Definition fmul (x y : float) : float :=
  match x, y with
  | NaN, _ | _, NaN => NaN
  | Inf sx, Inf sy => Inf (xorb sx sy)
  | Inf sx, Fin sy my _ | Fin sy my _, Inf sx =>
      if (my =? 0)%N then NaN else Inf (xorb sx sy)
  | Fin sx mx kx, Fin sy my ky =>
      round_scaled (xorb sx sy) (Z.of_N mx * Z.of_N my) 1
        (Z.of_N kx + Z.of_N ky - ulp_exp)
  end.

(** [x / y]: Python raises on a zero divisor instead of returning an
    infinity or a NaN. *)
Definition fdiv (x y : float) : result float :=
  match x, y with
  | _, Fin _ 0%N _ => Raise ZeroDivisionError
  | NaN, _ | _, NaN => Ok NaN
  | Inf _, Inf _ => Ok NaN
  | Inf sx, Fin sy _ _ => Ok (Inf (xorb sx sy))
  | Fin sx _ _, Inf sy => Ok (Fin (xorb sx sy) 0 0)
  | Fin sx mx kx, Fin sy my ky =>
      Ok (round_scaled (xorb sx sy) (Z.of_N mx) (Z.of_N my)
            (Z.of_N kx - Z.of_N ky + ulp_exp))
  end.

(** *** Comparison *)

Definition flt (x y : float) : bool :=
  negb (is_nan x) && negb (is_nan y) && (ext x <? ext y).

Definition fle (x y : float) : bool :=
  negb (is_nan x) && negb (is_nan y) && (ext x <=? ext y).

Definition feq (x y : float) : bool :=
  negb (is_nan x) && negb (is_nan y) && (ext x =? ext y).

Definition fgt (x y : float) : bool := flt y x.

(** *** Conversions *)

(** [float(z)] for an [int] that fits; exact below [2^53]. *)
Definition of_Z (z : Z) : float :=
  round_scaled (z <? 0) (Z.abs z) 1 ulp_exp.

(** An [int] operand of a float operation; too large an [int] raises. *)
Definition of_int (z : Z) : result float :=
  match of_Z z with
  | Inf _ => Raise OverflowError
  | x => Ok x
  end.

(** [int(x)]: truncation toward zero. *)
Definition to_int (x : float) : result Z :=
  match x with
  | NaN => Raise ValueError
  | Inf _ => Raise OverflowError
  | Fin s m k =>
      let t := Z.shiftr (Z.shiftl (Z.of_N m) (Z.of_N k)) ulp_exp in
      Ok (if s then - t else t)
  end.

(** [a / b] on two [int]s: the exact quotient rounded once. *)
Definition int_truediv (a b : Z) : result float :=
  if b =? 0 then Raise ZeroDivisionError
  else
    match round_scaled (xorb (a <? 0) (b <? 0)) (Z.abs a) (Z.abs b) ulp_exp with
    | Inf _ => Raise OverflowError
    | x => Ok x
    end.

(** The float a decimal literal [n / d] denotes. *)
Definition dec (n d : Z) : float := round_scaled false n d ulp_exp.

(** The float [m * 2^e], given as in [SpecFloat]. *)
Definition of_SF (x : spec_float) : float :=
  match x with
  | S754_nan => NaN
  | S754_infinity s => Inf s
  | S754_zero s => Fin s 0 0
  | S754_finite s m e => Fin s (Npos m) (Z.to_N (e + ulp_exp))
  end.

Definition to_SF (x : float) : spec_float :=
  match x with
  | NaN => S754_nan
  | Inf s => S754_infinity s
  | Fin s 0%N _ => S754_zero s
  | Fin s (Npos m) k => S754_finite s m (Z.of_N k - ulp_exp)
  end.

(** *** The rounding digits of [SpecFloat] *)

(** Where [n / d] sits between two consecutive integers. *)
Definition loc_of (n d : Z) : location :=
  if n mod d =? 0 then loc_Exact else loc_Inexact (2 * (n mod d) ?= d).

(** The record holds the integer part of [n / d] and where the rest sits. *)
Definition locates (mrs : shr_record) (n d : Z) : Prop :=
  shr_m mrs = n / d /\ mrs = shr_record_of_loc (n / d) (loc_of n d).

(** *** Agreement with the binary64 instance of [SpecFloat] on samples *)

Definition sf_eqb (a b : spec_float) : bool :=
  match a, b with
  | S754_nan, S754_nan => true
  | S754_zero s1, S754_zero s2 => Bool.eqb s1 s2
  | S754_infinity s1, S754_infinity s2 => Bool.eqb s1 s2
  | S754_finite s1 m1 e1, S754_finite s2 m2 e2 =>
      Bool.eqb s1 s2 && Pos.eqb m1 m2 && Z.eqb e1 e2
  | _, _ => false
  end.

(** The operations on two binary64 values, against [SpecFloat]'s. *)
Definition agrees_with_SpecFloat (x y : spec_float) : bool :=
  let a := of_SF x in
  let b := of_SF y in
  sf_eqb (to_SF a) x
  && sf_eqb (to_SF (fadd a b)) (SFadd 53 1024 x y)
  && sf_eqb (to_SF (fsub a b)) (SFsub 53 1024 x y)
  && sf_eqb (to_SF (fmul a b)) (SFmul 53 1024 x y)
  && match fdiv a b with
     | Ok q => sf_eqb (to_SF q) (SFdiv 53 1024 x y)
     | Raise _ => is_zero b
     end
  && Bool.eqb (flt a b) (SFltb x y)
  && Bool.eqb (fle a b) (SFleb x y)
  && Bool.eqb (feq a b) (SFeqb x y).

Definition binary64_samples : list (spec_float * spec_float) :=
  [ (S754_finite false 5404319552844595 (-54), S754_finite false 7205759403792794 (-55));
    (S754_finite false 7205759403792794 (-53), S754_finite false 5404319552844595 (-53));
    (S754_finite true 4925812092436480 (-46), S754_finite true 5629499534213120 (-46));
    (S754_finite false 9007199254740991 0, S754_finite false 4503599627370497 (-52));
    (S754_finite false 9007199254740991 971, S754_finite false 9007199254740991 971);
    (S754_finite false 9007199254740991 971, S754_finite true 9007199254740991 971);
    (S754_finite false 6341068275337658 968, S754_finite false 4503599627370496 (-51));
    (S754_finite false 1 (-1074), S754_finite false 4503599627370496 (-53));
    (S754_finite true 3 (-1074), S754_finite false 4503599627370495 (-1074));
    (S754_finite false 4503599627370495 (-1074), S754_finite false 4503599627370496 (-1074));
    (S754_finite false 6004799503160661 (-54), S754_finite false 8444249301319680 (-48));
    (S754_finite false 4503599627370497 (-52), S754_finite false 4503599627370499 (-52));
    (S754_finite false 5404319552844595 (-54), S754_zero true);
    (S754_zero false, S754_finite true 4925812092436480 (-46));
    (S754_zero true, S754_zero false);
    (S754_infinity false, S754_infinity true);
    (S754_infinity true, S754_finite false 4503599627370496 (-52));
    (S754_finite false 4503599627370496 (-52), S754_infinity false);
    (S754_zero false, S754_infinity false);
    (S754_nan, S754_finite false 4503599627370496 (-52)) ].

Definition zero : float := Fin false 0 0.
Definition one : float := of_Z 1.

End Float.

(** ** Python strings

    A [str] is the list of its characters; a character is a code point
    below 256. *)

Module PyStr.

#[local] Open Scope N_scope.

(** [str.isspace] on one character. *)
Definition is_space (c : ascii) : bool :=
  let n := N_of_ascii c in
  ((9 <=? n) && (n <=? 13)) || ((28 <=? n) && (n <=? 32))
  || (n =? 133) || (n =? 160).

(** The white space [float(str)] skips: it leaves out the four separator
    controls 28 to 31. *)
Definition is_float_space (c : ascii) : bool :=
  let n := N_of_ascii c in
  ((9 <=? n) && (n <=? 13)) || (n =? 32) || (n =? 133) || (n =? 160).

Definition is_digit (c : ascii) : bool :=
  let n := N_of_ascii c in (48 <=? n) && (n <=? 57).

Definition digit_value (c : ascii) : Z := Z.of_N (N_of_ascii c - 48).

Definition lower (c : ascii) : ascii :=
  let n := N_of_ascii c in
  if (65 <=? n) && (n <=? 90) then ascii_of_N (n + 32) else c.

#[local] Close Scope N_scope.

Fixpoint lstrip_by (sp : ascii -> bool) (s : string) : string :=
  match s with
  | EmptyString => EmptyString
  | String c s' => if sp c then lstrip_by sp s' else s
  end.

Fixpoint rstrip_by (sp : ascii -> bool) (s : string) : string :=
  match s with
  | EmptyString => EmptyString
  | String c s' =>
      match rstrip_by sp s' with
      | EmptyString => if sp c then EmptyString else String c EmptyString
      | r => String c r
      end
  end.

(** [s.strip()] *)
Definition strip (s : string) : string :=
  rstrip_by is_space (lstrip_by is_space s).

(** [s.split(sep)] for a one-character separator. *)
Fixpoint split (sep : ascii) (s : string) : list string :=
  match s with
  | EmptyString => [EmptyString]
  | String c s' =>
      if Ascii.eqb c sep then EmptyString :: split sep s'
      else
        match split sep s' with
        | f :: fs => String c f :: fs
        | [] => [String c EmptyString]
        end
  end.

(** *** [float(str)] *)

(** Underscores may separate digits: each one stands between two digits,
    and is dropped. *)
Fixpoint drop_underscores (prev : ascii) (s : string) : option string :=
  match s with
  | EmptyString => if Ascii.eqb prev "_" then None else Some EmptyString
  | String c s' =>
      if Ascii.eqb c "_" then
        if is_digit prev then drop_underscores c s' else None
      else if Ascii.eqb prev "_" && negb (is_digit c) then None
      else option_map (String c) (drop_underscores c s')
  end.

Definition take_sign (s : string) : bool * string :=
  match s with
  | String "-" s' => (true, s')
  | String "+" s' => (false, s')
  | _ => (false, s)
  end.

(** The longest prefix of digits, and what follows it. *)
Fixpoint span_digits (s : string) : string * string :=
  match s with
  | String c s' =>
      if is_digit c then
        let '(ds, rest) := span_digits s' in (String c ds, rest)
      else (EmptyString, s)
  | EmptyString => (EmptyString, EmptyString)
  end.

Fixpoint digits_value (acc : Z) (s : string) : Z :=
  match s with
  | EmptyString => acc
  | String c s' => digits_value (10 * acc + digit_value c) s'
  end.

(** A decimal numeral [digits [. digits] [e [sign] digits]] with at least
    one digit before the exponent, as the pair [(m, e)] of the number
    [m * 10^e]. *)
Definition parse_decimal (s : string) : option (Z * Z) :=
  let '(ip, r1) := span_digits s in
  let '(fp, r2) :=
    match r1 with
    | String "." r => span_digits r
    | _ => (EmptyString, r1)
    end in
  if (String.length ip + String.length fp =? 0)%nat then None
  else
    let m := digits_value 0 (ip ++ fp) in
    let scale := - Z.of_nat (String.length fp) in
    match r2 with
    | EmptyString => Some (m, scale)
    | String c r3 =>
        if Ascii.eqb (lower c) "e" then
          let '(eneg, r4) := take_sign r3 in
          let '(ed, r5) := span_digits r4 in
          match ed, r5 with
          | String _ _, EmptyString =>
              let e := digits_value 0 ed in
              Some (m, (if eneg then - e else e) + scale)
          | _, _ => None
          end
        else None
    end.

(** The float nearest to [m * 10^e]. *)
Definition decimal_to_float (neg : bool) (m e : Z) : Float.float :=
  if 0 <=? e then Float.round_scaled neg (m * 10 ^ e) 1 Float.ulp_exp
  else Float.round_scaled neg m (10 ^ (- e)) Float.ulp_exp.

Definition lower_string (s : string) : string :=
  string_of_list_ascii (List.map lower (list_ascii_of_string s)).

(** [float(s)]: [ValueError] unless [s] is, between white space, a signed
    decimal numeral or one of [inf], [infinity], [nan] in any case. *)
Definition py_float (s : string) : result Float.float :=
  match drop_underscores "000" s with
  | None => Raise ValueError
  | Some u =>
      let t := rstrip_by is_float_space (lstrip_by is_float_space u) in
      let '(neg, body) := take_sign t in
      match parse_decimal body with
      | Some (m, e) => Ok (decimal_to_float neg m e)
      | None =>
          let w := lower_string body in
          if String.eqb w "inf" || String.eqb w "infinity" then Ok (Float.Inf neg)
          else if String.eqb w "nan" then Ok Float.NaN
          else Raise ValueError
      end
  end.

End PyStr.

(** ** The program *)

Import Float PyStr.

(** *** Configuration *)

Definition color : Type := (Z * Z * Z)%type.

Definition SCREEN_WIDTH : Z := 1920.
Definition SCREEN_HEIGHT : Z := 1080.
Definition BG_COLOR : color := (10, 10, 20).
Definition SPECTRUM_COLOR : color := (0, 255, 100).
Definition TEXT_COLOR : color := (100, 255, 200).
Definition GRID_COLOR : color := (30, 30, 50).

(** The five intensity characters: space, light, medium and dark shade,
    full block (the last four as UTF-8). *)
Definition ASCII_CHARS : list string :=
  [" "; "░"; "▒"; "▓"; "█"]%string.

Definition BARS_STYLE : bool := true.

(** *** Builtins on lists *)

(** [min(l)] and [max(l)] on a list starting with [x]: the first item
    stays unless a later one compares below (above) it. *)
Definition py_min (x : float) (rest : list float) : float :=
  fold_left (fun cur item => if flt item cur then item else cur) rest x.

Definition py_max (x : float) (rest : list float) : float :=
  fold_left (fun cur item => if fgt item cur then item else cur) rest x.

(** [l[i]], negative [i] counting from the end. *)
Definition py_index {A : Type} (l : list A) (i : Z) : result A :=
  let n := Z.of_nat (List.length l) in
  let j := if i <? 0 then i + n else i in
  if (0 <=? j) && (j <? n) then
    match nth_error l (Z.to_nat j) with
    | Some a => Ok a
    | None => Raise IndexError
    end
  else Raise IndexError.

(** [range(start, stop, step)] for a positive [step]. *)
Definition py_range (start stop step : Z) : list Z :=
  List.map (fun i => start + step * Z.of_nat i)
    (seq 0 (Z.to_nat ((stop - start + step - 1) / step))).

(** [enumerate(l)] *)
Definition enumerate {A : Type} (l : list A) : list (Z * A) :=
  combine (List.map Z.of_nat (seq 0 (List.length l))) l.

(** *** Sweep reader *)

Record sweep : Type := Sweep {
  freq_low : float;
  freq_high : float;
  db_values : list float
}.

(** What the reader finds at [csv_path]: no file, a file that cannot be
    opened or decoded, or the lines [f.readlines()] returns, each with its
    line end. *)
Inductive csv_file : Type :=
| Missing
| Unreadable
| Lines (lines : list string).

Definition last_line (lines : list string) : option string :=
  match lines with
  | [] => None
  | l :: ls => Some (last ls l)
  end.

(** The body of the [try]. *)
Definition read_spectrum_data_try (f : csv_file) : result (option sweep) :=
  match f with
  | Missing => Ok None
  | Unreadable => Raise OSError
  | Lines lines =>
      match last_line lines with
      | None => Ok None
      | Some l =>
          let parts := split "," (strip l) in
          if (List.length parts <? 6)%nat then Ok None
          else
            p2 <- py_index parts 2 ;;
            freq_low <- py_float p2 ;;
            p3 <- py_index parts 3 ;;
            freq_high <- py_float p3 ;;
            db_values <- mapM py_float (skipn 6 parts) ;;
            Ok (Some (Sweep freq_low freq_high db_values))
      end
  end.

(** [except Exception]: report, and no data. *)
Definition read_spectrum_data (f : csv_file) : option sweep :=
  match read_spectrum_data_try f with
  | Ok r => r
  | Raise _ => None
  end.

(** *** Normalisation *)

Definition normalize_db_values (db_values : list float) : result (list float) :=
  match db_values with
  | [] => Ok []
  | d :: rest =>
      let min_db := py_min d rest in
      let max_db := py_max d rest in
      if feq max_db min_db then
        Ok (repeat (dec 5 10) (List.length db_values))
      else
        mapM (fun db => fdiv (fsub db min_db) (fsub max_db min_db)) db_values
  end.

(** *** Colour gradient *)

Definition spectrum_color_gradient (value : float) : result color :=
  if flt value (dec 3 10) then
    t <- fdiv value (dec 3 10) ;;
    intensity <- to_int (fmul t (of_Z 255)) ;;
    Ok (0, 0, intensity)
  else if flt value (dec 6 10) then
    t <- fdiv (fsub value (dec 3 10)) (dec 3 10) ;;
    g <- to_int (fmul t (of_Z 255)) ;;
    b <- to_int (fmul (fsub (of_Z 1) t) (of_Z 255)) ;;
    Ok (0, g, b)
  else if flt value (dec 8 10) then
    t <- fdiv (fsub value (dec 6 10)) (dec 2 10) ;;
    r <- to_int (fmul t (of_Z 255)) ;;
    Ok (r, 255, 0)
  else
    t <- fdiv (fsub value (dec 8 10)) (dec 2 10) ;;
    g <- to_int (fmul (fsub (of_Z 1) t) (of_Z 255)) ;;
    Ok (255, g, 0).

(** *** Renderer *)

Inductive font : Type :=
| TrueType (size : Z)
| DefaultFont.

(** A coordinate as it is passed to the drawing library. *)
Inductive num : Type :=
| I (z : Z)
| F (x : float).

(** Text drawn on the frame; the two formatted texts keep the floats that
    are printed with one decimal. *)
Inductive label : Type :=
| Plain (s : string)
| Title (low_mhz high_mhz : float)
| FreqLabel (mhz : float).

Inductive draw_op : Type :=
| Line (x0 y0 x1 y1 : Z) (fill : color) (width : Z)
| Rectangle (x0 y0 x1 y1 : num) (fill : color)
| Text (x y : num) (text : label) (fill : color) (f : font).

Record image : Type := Image {
  img_size : Z * Z;
  img_background : color;
  img_ops : list draw_op
}.

(** What a render reads besides its argument: whether the DejaVu font file
    loads, and the local time as [time.strftime] formats it. *)
Record environment : Type := Env {
  dejavu_font : bool;
  clock : string
}.

(** [try: truetype(path, size) except: load_default()] *)
Definition load_font (env : environment) (size : Z) : font :=
  if dejavu_font env then TrueType size else DefaultFont.

Definition margin_x : Z := 100.
Definition margin_y : Z := 100.
Definition plot_width : Z := SCREEN_WIDTH - 2 * margin_x.
Definition plot_height : Z := SCREEN_HEIGHT - 2 * margin_y.

Definition horizontal_grid_line (i : Z) : result draw_op :=
  q <- int_truediv (plot_height * i) 10 ;;
  t <- to_int q ;;
  let y := margin_y + t in
  Ok (Line margin_x y (SCREEN_WIDTH - margin_x) y GRID_COLOR 1).

Definition vertical_grid_line (i : Z) : result draw_op :=
  q <- int_truediv (plot_width * i) 10 ;;
  t <- to_int q ;;
  let x := margin_x + t in
  Ok (Line x margin_y x (SCREEN_HEIGHT - margin_y) GRID_COLOR 1).

(** A coordinate as the drawing library reads it: a double. *)
Definition num_float (n : num) : float :=
  match n with
  | I z => of_Z z
  | F x => x
  end.

(** [draw.rectangle(box, fill=...)]: the library reads the four
    coordinates as doubles and refuses, with a [ValueError], a box whose
    second corner lies left of the first or above it. *)
Definition draw_rectangle (x0 y0 x1 y1 : num) (fill : color)
    : result draw_op :=
  if flt (num_float x1) (num_float x0) then Raise ValueError
  else if flt (num_float y1) (num_float y0) then Raise ValueError
  else Ok (Rectangle x0 y0 x1 y1 fill).

(** The ASCII style's choice of character. *)
Definition char_index (value : float) : result Z :=
  to_int (fmul value (of_Z (Z.of_nat (List.length ASCII_CHARS) - 1))).

Definition draw_bar (bars_style : bool) (env : environment)
    (bar_width : float) (item : Z * float) : result (list draw_op) :=
  let '(i, value) := item in
  fi <- of_int i ;;
  let x := fadd (of_Z margin_x) (fmul fi bar_width) in
  let bar_height := fmul value (of_Z plot_height) in
  let y := fsub (of_Z (SCREEN_HEIGHT - margin_y)) bar_height in
  if bars_style then
    fill <- spectrum_color_gradient value ;;
    bar <- draw_rectangle (F x) (F y) (F (fsub (fadd x bar_width) (of_Z 1)))
             (I (SCREEN_HEIGHT - margin_y)) fill ;;
    Ok [bar]
  else
    ci <- char_index value ;;
    char <- py_index ASCII_CHARS ci ;;
    let f := load_font env 20 in
    num_chars <- to_int (fmul value (of_Z 30)) ;;
    Ok (List.map
          (fun j => Text (F x) (I (SCREEN_HEIGHT - margin_y - j * 20))
                      (Plain char) SPECTRUM_COLOR f)
          (py_range 0 num_chars 1)).

Definition frequency_label (small_font : font) (freq_low freq_high : float)
    (i : Z) : result draw_op :=
  low_mhz <- fdiv freq_low (dec 1000000 1) ;;
  span_mhz <- fdiv (fsub freq_high freq_low) (dec 1000000 1) ;;
  fi <- of_int i ;;
  step <- fdiv (fmul span_mhz fi) (of_Z 5) ;;
  let freq_mhz := fadd low_mhz step in
  q <- int_truediv (plot_width * i) 5 ;;
  t <- to_int q ;;
  let x := margin_x + t in
  Ok (Text (I (x - 30)) (I (SCREEN_HEIGHT - margin_y + 10))
        (FreqLabel freq_mhz) TEXT_COLOR small_font).

Definition blank : list draw_op -> image :=
  Image (SCREEN_WIDTH, SCREEN_HEIGHT) BG_COLOR.

Definition create_spectrum_image (bars_style : bool) (env : environment)
    (spectrum_data : option sweep) : result image :=
  match spectrum_data with
  | None =>
      let f := load_font env 40 in
      Ok (blank
            [Text (I (SCREEN_WIDTH / 2 - 200)) (I (SCREEN_HEIGHT / 2))
               (Plain "Waiting for RTL-SDR data...") TEXT_COLOR f])
  | Some data =>
      match db_values data with
      | [] => Ok (blank [])
      | _ :: _ =>
          normalized <- normalize_db_values (db_values data) ;;
          hlines <- mapM horizontal_grid_line (py_range 0 11 2) ;;
          vlines <- mapM vertical_grid_line (py_range 0 11 2) ;;
          bar_width <- int_truediv plot_width (Z.of_nat (List.length normalized)) ;;
          bars <- mapM (draw_bar bars_style env bar_width) (enumerate normalized) ;;
          let f := load_font env 24 in
          let small_font := load_font env 18 in
          low_mhz <- fdiv (freq_low data) (dec 1000000 1) ;;
          high_mhz <- fdiv (freq_high data) (dec 1000000 1) ;;
          let title := Text (I margin_x) (I 30) (Title low_mhz high_mhz) TEXT_COLOR f in
          labels <- mapM (frequency_label small_font (freq_low data) (freq_high data))
                      (py_range 0 6 1) ;;
          let timestamp :=
            Text (I (SCREEN_WIDTH - margin_x - 200)) (I 30) (Plain (clock env))
              TEXT_COLOR small_font in
          Ok (blank (hlines ++ vlines ++ List.concat bars
                       ++ [title] ++ labels ++ [timestamp]))
      end
  end.

(** ** The program's effects *)

(** *** Capture settings *)

Definition FREQ_START : string := "88M".
Definition FREQ_END : string := "108M".
Definition FREQ_STEP : string := "10k".
Definition GAIN : string := "40".
Definition INTEGRATION_TIME : string := "2s".
Definition UPDATE_INTERVAL : Z := 5.

(** [sep.join(l)] *)
Fixpoint join (sep : string) (l : list string) : string :=
  match l with
  | [] => EmptyString
  | [s] => s
  | s :: rest => (s ++ sep ++ join sep rest)%string
  end.

(** *** Events and effectful computations *)

(** A [subprocess.Popen] object. *)
Inductive process : Type :=
| Process (pid : Z).

(** What the program does to its surroundings, in the order it does it.
    An event is recorded when the call is made, whether or not the call
    then raises. [PrintedExn text e] is a line that ends with the text of
    the exception [e]. *)
Inductive event : Type :=
| Printed (text : string)
| PrintedExn (text : string) (e : exn)
| Removed (path : string)
| Spawned (cmd : list string)
| Terminated (p : process)
| Waited (p : process)
| Saved (img : image) (path format : string)
| Ran (cmd : list string)
| Slept (seconds : Z)
| Exited (status : Z).

(** A computation with effects: the events it caused, and its result or
    the exception that ended it. *)
Definition io (A : Type) : Type := (list event * result A)%type.

Definition io_ret {A : Type} (a : A) : io A := ([], Ok a).

Definition io_bind {A B : Type} (c : io A) (k : A -> io B) : io B :=
  match c with
  | (ev, Ok a) => let '(ev', r) := k a in (ev ++ ev', r)
  | (ev, Raise e) => (ev, Raise e)
  end.

Notation "x <~ c ;; k" := (io_bind c (fun x => k))
  (at level 61, c at next level, right associativity).

(** A call that leaves the event [ev] and ends as the world decides. *)
Definition call {A : Type} (ev : event) (outcome : result A) : io A :=
  ([ev], outcome).

(** A call that cannot raise. *)
Definition emit (ev : event) : io unit := ([ev], Ok tt).

(** A computation without events. *)
Definition pure_result {A : Type} (r : result A) : io A := ([], r).

(** A function that handles its own exceptions. *)
Definition handled {A : Type} (c : list event * A) : io A :=
  (fst c, Ok (snd c)).

(** *** Signal handler *)

(** [signal_handler], given the global [rtl_power_process]. *)
Definition signal_handler (rtl_power_process : option process) : list event :=
  [Printed (String "010" "[*] Shutting down gracefully...")]
  ++ match rtl_power_process with
     | Some p => [Terminated p; Waited p]
     | None => []
     end
  ++ [Exited 0].

(** *** Capture launcher *)

(** What [start_rtl_power] meets: whether the CSV file exists, how
    removing it ends, and how spawning the tool ends. *)
Record launch_world : Type := Launch {
  csv_exists : bool;
  remove_csv : result unit;
  popen : result process
}.

Definition rtl_power_cmd (csv_path : string) : list string :=
  [ "rtl_power";
    "-f"; FREQ_START ++ ":" ++ FREQ_END ++ ":" ++ FREQ_STEP;
    "-g"; GAIN;
    "-i"; INTEGRATION_TIME;
    "-e"; INTEGRATION_TIME;
    csv_path ]%string.

Definition start_rtl_power (w : launch_world) : io (process * string) :=
  let csv_path := "/tmp/rtl_spectrum.csv"%string in
  _ <~ (if csv_exists w then call (Removed csv_path) (remove_csv w)
        else io_ret tt) ;;
  let cmd := rtl_power_cmd csv_path in
  _ <~ emit (Printed ("[*] Starting rtl_power: " ++ join " " cmd)) ;;
  p <~ call (Spawned cmd) (popen w) ;;
  io_ret (p, csv_path).

(** *** Sweep reader, with the line it prints *)

Definition read_spectrum_data_io (f : csv_file) : list event * option sweep :=
  match read_spectrum_data_try f with
  | Ok r => ([], r)
  | Raise e => ([PrintedExn "[!] Error reading spectrum data: " e], None)
  end.

(** *** Wallpaper publisher *)

(** What [set_gnome_wallpaper] meets: [os.path.abspath], and how the two
    [gsettings] runs end ([check=True] raises on a non-zero exit). *)
Record desktop : Type := Desktop {
  abspath : string -> result string;
  run_picture_uri : result unit;
  run_picture_uri_dark : result unit
}.

Definition gsettings_set (key uri : string) : list string :=
  ["gsettings"; "set"; "org.gnome.desktop.background"; key; uri]%string.

(** The body of the [try]. *)
Definition set_gnome_wallpaper_try (d : desktop) (image_path : string)
    : io bool :=
  abs_path <~ pure_result (abspath d image_path) ;;
  let uri := ("file://" ++ abs_path)%string in
  _ <~ call (Ran (gsettings_set "picture-uri" uri)) (run_picture_uri d) ;;
  _ <~ call (Ran (gsettings_set "picture-uri-dark" uri))
         (run_picture_uri_dark d) ;;
  _ <~ emit (Printed ("[+] Wallpaper updated: " ++ image_path)) ;;
  io_ret true.

(** [except Exception]: report, and [False]. *)
Definition set_gnome_wallpaper (d : desktop) (image_path : string)
    : list event * bool :=
  match set_gnome_wallpaper_try d image_path with
  | (ev, Ok b) => (ev, b)
  | (ev, Raise e) => (ev ++ [PrintedExn "[!] Error setting wallpaper: " e], false)
  end.

(** *** Main loop *)

(** What one iteration of the loop meets: the CSV file, the fonts and the
    clock, how saving the frame ends, and the desktop. *)
Record tick_world : Type := Tick {
  tick_csv : csv_file;
  tick_env : environment;
  tick_save : result unit;
  tick_desktop : desktop
}.

(** The body of the loop's [try]. [WALLPAPER_PATH] is the path in the
    home directory the module computes when it is loaded. *)
Definition loop_try (WALLPAPER_PATH : string) (w : tick_world) : io unit :=
  spectrum_data <~ handled (read_spectrum_data_io (tick_csv w)) ;;
  img <~ pure_result (create_spectrum_image BARS_STYLE (tick_env w) spectrum_data) ;;
  _ <~ call (Saved img WALLPAPER_PATH "PNG") (tick_save w) ;;
  _ <~ handled (set_gnome_wallpaper (tick_desktop w) WALLPAPER_PATH) ;;
  emit (Slept UPDATE_INTERVAL).

(** One iteration: [except Exception] reports and sleeps. *)
Definition loop_iteration (WALLPAPER_PATH : string) (w : tick_world)
    : list event :=
  match loop_try WALLPAPER_PATH w with
  | (ev, Ok _) => ev
  | (ev, Raise e) =>
      ev ++ [PrintedExn "[!] Error in main loop: " e; Slept UPDATE_INTERVAL]
  end.

Definition banner (WALLPAPER_PATH : string) : list event :=
  let rule := string_of_list_ascii (repeat "="%char 60) in
  [ Printed rule;
    Printed "RTL-SDR SPECTRUM WALLPAPER";
    Printed rule;
    Printed ("[*] Frequency range: " ++ FREQ_START ++ " - " ++ FREQ_END);
    Printed ("[*] Wallpaper path: " ++ WALLPAPER_PATH);
    Printed "[*] Update interval: 5s";
    Printed "[*] Press Ctrl+C to stop";
    Printed rule ]%string.

(** A run of [main], watched for as many iterations as [ticks] has
    worlds, each holding what is at [csv_path] when that iteration reads
    it: the events, the global [rtl_power_process] at the end, and the
    exception that ended [main], if one did. *)
Record run : Type := Run {
  run_events : list event;
  rtl_power_process : option process;
  run_uncaught : option exn
}.

Definition main (WALLPAPER_PATH : string) (lw : launch_world)
    (ticks : list tick_world) : run :=
  match start_rtl_power lw with
  | (ev, Raise e) => Run (banner WALLPAPER_PATH ++ ev) None (Some e)
  | (ev, Ok (p, csv_path)) =>
      Run (banner WALLPAPER_PATH ++ ev
           ++ [Printed "[*] Waiting for initial spectrum data..."; Slept 5]
           ++ List.concat (List.map (loop_iteration WALLPAPER_PATH) ticks))
        (Some p) None
  end.

(** ** Vocabulary of the properties *)

(** Colour channels, the unit interval, and closeness at a segment
    boundary. *)
Definition channel (z : Z) : Prop := 0 <= z <= 255.

Definition in_unit (v : float) : bool := fle zero v && fle v one.

Definition color_close (c1 c2 : color) : Prop :=
  let '(r1, g1, b1) := c1 in
  let '(r2, g2, b2) := c2 in
  Z.abs (r1 - r2) <= 1 /\ Z.abs (g1 - g2) <= 1 /\ Z.abs (b1 - b2) <= 1.

Definition eps : float := dec 1 2048.

Definition near (b v : float) : bool :=
  fle (fsub b eps) v && fle v (fadd b eps).

Inductive stage : Type := DarkToBlue | BlueToGreen | GreenToYellow | YellowToRed.

Definition stage_of (v : float) : stage :=
  if flt v (dec 3 10) then DarkToBlue
  else if flt v (dec 6 10) then BlueToGreen
  else if flt v (dec 8 10) then GreenToYellow
  else YellowToRed.

Definition stage_shape (s : stage) (c : color) : Prop :=
  let '(r, g, b) := c in
  match s with
  | DarkToBlue => r = 0 /\ g = 0
  | BlueToGreen => r = 0
  | GreenToYellow => g = 255 /\ b = 0
  | YellowToRed => r = 255 /\ b = 0
  end.

(** The gradient as the specification words it: four segments, each a
    linear interpolation between two colours over a range of values given
    in tenths, taken on the exact value [x / unit_scale] of the float; a
    channel is the integer part of the interpolated value. *)
Definition lerp (c0 c1 lo hi x : Z) : Z :=
  (c0 * ((hi - lo) * unit_scale) + (c1 - c0) * (10 * x - lo * unit_scale))
  / ((hi - lo) * unit_scale).

Definition lerp_color (a b : color) (lo hi x : Z) : color :=
  let '(r0, g0, b0) := a in
  let '(r1, g1, b1) := b in
  (lerp r0 r1 lo hi x, lerp g0 g1 lo hi x, lerp b0 b1 lo hi x).

Definition DARK : color := (0, 0, 0).
Definition BLUE : color := (0, 0, 255).
Definition GREEN : color := (0, 255, 0).
Definition YELLOW : color := (255, 255, 0).
Definition RED : color := (255, 0, 0).

Definition linear_gradient (v : float) : color :=
  let x := ext v in
  if 10 * x <? 3 * unit_scale then lerp_color DARK BLUE 0 3 x
  else if 10 * x <? 6 * unit_scale then lerp_color BLUE GREEN 3 6 x
  else if 10 * x <? 8 * unit_scale then lerp_color GREEN YELLOW 6 8 x
  else lerp_color YELLOW RED 8 10 x.


(** What the normaliser owes one reading [db] in its result [r], given
    the least and the greatest reading. *)
Definition normalized (min_db max_db db r : float) : Prop :=
  in_unit r = true
  /\ (feq db max_db = true -> feq r one = true)
  /\ (feq db min_db = true -> feq r zero = true).

(** The fields the reader parses: those at index 2, 3 and from 6 on. *)
Definition required_field (i : nat) : Prop := i = 2%nat \/ i = 3%nat \/ (6 <= i)%nat.

(** Every character of [s] is white space. *)
Fixpoint all_space (s : string) : bool :=
  match s with
  | EmptyString => true
  | String c s' => is_space c && all_space s'
  end.

(** [v] is within [1/e] of [n/d]. *)
Definition close_to (v : float) (n d e : Z) : Prop :=
  is_finite v = true
  /\ Z.abs (ext v * d - n * unit_scale) * e <= d * unit_scale.

(** Kinds of drawing operations. *)
Definition is_line (op : draw_op) : bool :=
  match op with Line _ _ _ _ _ _ => true | _ => false end.

Definition is_horizontal (op : draw_op) : bool :=
  match op with Line _ y0 _ y1 _ _ => y0 =? y1 | _ => false end.

Definition is_vertical (op : draw_op) : bool :=
  match op with Line x0 _ x1 _ _ _ => x0 =? x1 | _ => false end.

(** The grid line at the fraction [i/n] of the plot height (width). *)
Definition horizontal_at (i n : Z) : draw_op :=
  let y := margin_y + plot_height * i / n in
  Line margin_x y (SCREEN_WIDTH - margin_x) y GRID_COLOR 1.

Definition vertical_at (i n : Z) : draw_op :=
  let x := margin_x + plot_width * i / n in
  Line x margin_y x (SCREEN_HEIGHT - margin_y) GRID_COLOR 1.

(** The sweep of the end-to-end scenario. *)
Definition scenario_sweep : sweep :=
  Sweep (of_Z 88000000) (of_Z 108000000)
    [of_Z (-70); of_Z (-60); of_Z (-50); of_Z (-80)].

(** ** Vocabulary of the further properties *)

Definition is_rectangle (op : draw_op) : bool :=
  match op with Rectangle _ _ _ _ _ => true | _ => false end.

Definition is_text (op : draw_op) : bool :=
  match op with Text _ _ _ _ _ => true | _ => false end.

Definition is_sleep (ev : event) : bool :=
  match ev with Slept _ => true | _ => false end.

Definition is_run (ev : event) : bool :=
  match ev with Ran _ => true | _ => false end.

Definition is_save (ev : event) : bool :=
  match ev with Saved _ _ _ => true | _ => false end.

(** The timestamp, as the renderer draws it. *)
Definition timestamp_text (env : environment) : draw_op :=
  Text (I (SCREEN_WIDTH - margin_x - 200)) (I 30) (Plain (clock env))
    TEXT_COLOR (load_font env 18).

(** Two values in order, both between [lo] and [hi]. *)
Definition ord (lo hi x y : float) : Prop :=
  btw lo hi x /\ btw lo hi y /\ ext x <= ext y.

Definition red (c : color) : Z := fst (fst c).
Definition green (c : color) : Z := snd (fst c).
Definition blue (c : color) : Z := snd c.

(** Where the renderer puts the bar of the reading number [i], of
    normalised value [v]: its left edge and its top. *)
Definition bar_x (bar_width : float) (i : Z) : float :=
  fadd (of_Z margin_x) (fmul (of_Z i) bar_width).

Definition bar_y (v : float) : float :=
  fsub (of_Z (SCREEN_HEIGHT - margin_y)) (fmul v (of_Z plot_height)).

(** The largest number of items a Python list holds. *)
Definition max_list_length : Z := 2 ^ 63.

(** The readings are finite and so is their spread. *)
Definition finite_readings (l : list float) : Prop :=
  match l with
  | [] => False
  | d :: rest =>
      Forall (fun x => proper x = true) (d :: rest)
      /\ proper (fsub (py_max d rest) (py_min d rest)) = true
      /\ Z.of_nat (List.length l) <= max_list_length
  end.

(** The float just below 0.25. *)
Definition below_quarter : float := Fin false (2 ^ 53 - 1) 1019.

(** The glyphs the ASCII style stacks for one reading: [n] copies of
    [ch], 20 pixels apart, from the bottom of the plot upwards. *)
Definition glyph_stack (env : environment) (x : float) (ch : string) (n : Z)
    : list draw_op :=
  List.map
    (fun j => Text (F x) (I (SCREEN_HEIGHT - margin_y - Z.of_nat j * 20))
                (Plain ch) SPECTRUM_COLOR (load_font env 20))
    (seq 0 (Z.to_nat n)).

(** The grid and the title, as the renderer draws them. *)
Definition grid : list draw_op :=
  List.map (fun i => horizontal_at i 5) [0; 1; 2; 3; 4; 5]
  ++ List.map (fun i => vertical_at i 5) [0; 1; 2; 3; 4; 5].

Definition title_text (env : environment) (low_mhz high_mhz : float) : draw_op :=
  Text (I margin_x) (I 30) (Title low_mhz high_mhz) TEXT_COLOR
    (load_font env 24).

(** The frame drawn while there is no data. *)
Definition waiting_frame (env : environment) : image :=
  blank [Text (I (SCREEN_WIDTH / 2 - 200)) (I (SCREEN_HEIGHT / 2))
           (Plain "Waiting for RTL-SDR data...") TEXT_COLOR (load_font env 40)].

(** A sweep of 1721 readings, one more than the plot has pixels across:
    -70 dB followed by 1720 readings of -50 dB. *)
Definition crowded_sweep : sweep :=
  Sweep (of_Z 88000000) (of_Z 108000000)
    (of_Z (-70) :: repeat (of_Z (-50)) 1720).

(** The event is one of the calls that publish a frame. *)
Definition is_publish (ev : event) : bool := is_save ev || is_run ev.

(** * Properties *)

(** ** Float arithmetic *)

Module FloatFacts.
Import Float.

(** On the samples, the operations return what [SpecFloat]'s binary64
    operations return. *)
Lemma float_agrees_with_SpecFloat :
  forallb (fun p => agrees_with_SpecFloat (fst p) (snd p)
                    && agrees_with_SpecFloat (snd p) (fst p))
    binary64_samples = true.
Proof. vm_compute. reflexivity. Qed.

Lemma rne_int_cases (n d : Z) :
  rne_int n d = n / d \/ rne_int n d = n / d + 1.
Proof.
  unfold rne_int. destruct (2 * (n mod d) ?= d); auto.
  destruct (Z.even (n / d)); auto.
Qed.

Lemma rne_int_exact (c d : Z) : 0 < d -> rne_int (c * d) d = c.
Proof.
  intros Hd. unfold rne_int.
  rewrite Z.mod_mul, Z.div_mul by lia.
  replace (2 * 0) with 0 by lia.
  destruct (Z.compare_spec 0 d); lia.
Qed.

Lemma rne_int_mono (n1 d1 n2 d2 : Z) :
  0 < d1 -> 0 < d2 -> n1 * d2 <= n2 * d1 ->
  rne_int n1 d1 <= rne_int n2 d2.
Proof.
  intros Hd1 Hd2 H.
  pose proof (Z.div_mod n1 d1 ltac:(lia)) as E1.
  pose proof (Z.div_mod n2 d2 ltac:(lia)) as E2.
  pose proof (Z.mod_pos_bound n1 d1 Hd1) as B1.
  pose proof (Z.mod_pos_bound n2 d2 Hd2) as B2.
  pose proof (rne_int_cases n1 d1) as C1.
  pose proof (rne_int_cases n2 d2) as C2.
  unfold rne_int in *.
  set (q1 := n1 / d1) in *. set (r1 := n1 mod d1) in *.
  set (q2 := n2 / d2) in *. set (r2 := n2 mod d2) in *.
  clearbody q1 q2 r1 r2.
  assert (Hq : q1 <= q2).
  { destruct (Z_le_gt_dec q1 q2) as [|G]; [assumption|exfalso].
    assert (q2 + 1 <= q1) by lia.
    assert (n2 * d1 < (q2 + 1) * d2 * d1) by nia.
    assert ((q2 + 1) * d2 * d1 <= q1 * d1 * d2) by nia.
    nia. }
  destruct (Z.eq_dec q1 q2) as [Eq|Nq]; [|lia].
  subst q2.
  assert (Hr : r1 * d2 <= r2 * d1) by nia.
  clear C1 C2.
  destruct (Z.compare_spec (2 * r1) d1), (Z.compare_spec (2 * r2) d2);
    try destruct (Z.even q1); try lia; exfalso; nia.
Qed.

Lemma rne_int_ratio (n1 d1 n2 d2 : Z) :
  0 < d1 -> 0 < d2 -> n1 * d2 = n2 * d1 -> rne_int n1 d1 = rne_int n2 d2.
Proof.
  intros. apply Z.le_antisymm; apply rne_int_mono; lia.
Qed.

Lemma rne_int_lower (n d c : Z) : 0 < d -> c * d <= n -> c <= rne_int n d.
Proof.
  intros Hd H. rewrite <- (rne_int_exact c d Hd).
  apply rne_int_mono; nia.
Qed.

Lemma rne_int_upper (n d c : Z) : 0 < d -> n <= c * d -> rne_int n d <= c.
Proof.
  intros Hd H. rewrite <- (rne_int_exact c d Hd).
  apply rne_int_mono; nia.
Qed.


(** Powers of two *)

Lemma pow2_pos (k : Z) : 0 <= k -> 0 < 2 ^ k.
Proof. intros. apply Z.pow_pos_nonneg; lia. Qed.

Lemma pow2_add (a b : Z) : 0 <= a -> 0 <= b -> 2 ^ (a + b) = 2 ^ a * 2 ^ b.
Proof. intros. apply Z.pow_add_r; lia. Qed.

Lemma pow2_le (a b : Z) : 0 <= a <= b -> 2 ^ a <= 2 ^ b.
Proof. intros. apply Z.pow_le_mono_r; lia. Qed.

Lemma pow2_split (a b : Z) : 0 <= a <= b -> 2 ^ b = 2 ^ a * 2 ^ (b - a).
Proof. intros. rewrite <- pow2_add by lia. f_equal. lia. Qed.

Lemma div_le_cross (n1 d1 n2 d2 : Z) :
  0 < d1 -> 0 < d2 -> n1 * d2 <= n2 * d1 -> n1 / d1 <= n2 / d2.
Proof.
  intros Hd1 Hd2 H.
  apply Z.div_le_lower_bound; [lia|].
  pose proof (Z.mul_div_le n1 d1 Hd1).
  assert (d2 * (n1 / d1) * d1 <= n2 * d1) by nia.
  nia.
Qed.

(** The shift at the size of a quotient *)

Lemma shift_of_nonneg (q : Z) : 0 <= shift_of q.
Proof. unfold shift_of. lia. Qed.

Lemma shift_of_upper (q : Z) : 0 <= q -> q < 2 ^ (53 + shift_of q).
Proof.
  intros Hq. unfold shift_of.
  destruct (Z.eq_dec q 0) as [->|Hn].
  - apply pow2_pos. simpl. lia.
  - pose proof (Z.log2_spec q ltac:(lia)) as [_ Hu].
    pose proof (Z.log2_nonneg q).
    eapply Z.lt_le_trans; [exact Hu|]. apply pow2_le. lia.
Qed.

Lemma shift_of_lower (q : Z) :
  0 <= q -> 0 < shift_of q -> 2 ^ (52 + shift_of q) <= q.
Proof.
  intros Hq. unfold shift_of. intros Hs.
  assert (0 < q) by (destruct (Z.eq_dec q 0) as [->|]; [simpl in Hs|]; lia).
  pose proof (Z.log2_spec q ltac:(lia)) as [Hl _].
  replace (52 + Z.max 0 (Z.log2 q - 52)) with (Z.log2 q) by lia. exact Hl.
Qed.

Lemma shift_of_unique (q s : Z) :
  0 <= q -> 0 <= s -> q < 2 ^ (53 + s) -> (s = 0 \/ 2 ^ (52 + s) <= q) ->
  shift_of q = s.
Proof.
  intros Hq Hs Hu Hl. unfold shift_of.
  destruct (Z.eq_dec q 0) as [->|Hn].
  - destruct Hl as [->|Hl]; [reflexivity|].
    pose proof (pow2_pos (52 + s)). lia.
  - assert (Z.log2 q < 53 + s) by (apply Z.log2_lt_pow2; lia).
    destruct Hl as [->|Hl]; [lia|].
    assert (52 + s <= Z.log2 q) by (apply Z.log2_le_pow2; lia).
    lia.
Qed.

Lemma shift_of_mono (q1 q2 : Z) : q1 <= q2 -> shift_of q1 <= shift_of q2.
Proof.
  intros H. unfold shift_of. pose proof (Z.log2_le_mono q1 q2 H). lia.
Qed.

(** Bounds on the rounded mantissa *)

Lemma mantissa_upper (n d : Z) :
  0 <= n -> 0 < d ->
  rne_int n (d * 2 ^ shift_of (n / d)) <= 2 ^ 53.
Proof.
  intros Hn Hd. set (sh := shift_of (n / d)).
  pose proof (shift_of_nonneg (n / d)) as Hs. fold sh in Hs.
  pose proof (pow2_pos sh Hs).
  apply rne_int_upper; [nia|].
  pose proof (shift_of_upper (n / d) ltac:(apply Z.div_pos; lia)) as Hu.
  fold sh in Hu. rewrite pow2_add in Hu by lia.
  pose proof (Z.div_mod n d ltac:(lia)). pose proof (Z.mod_pos_bound n d Hd).
  nia.
Qed.

Lemma mantissa_lower (n d : Z) :
  0 <= n -> 0 < d -> 0 < shift_of (n / d) ->
  2 ^ 52 <= rne_int n (d * 2 ^ shift_of (n / d)).
Proof.
  intros Hn Hd. set (sh := shift_of (n / d)). intros Hs.
  pose proof (pow2_pos sh ltac:(lia)).
  apply rne_int_lower; [nia|].
  pose proof (shift_of_lower (n / d) ltac:(apply Z.div_pos; lia) Hs) as Hl.
  fold sh in Hl. rewrite pow2_add in Hl by lia.
  pose proof (Z.mul_div_le n d Hd). nia.
Qed.

Lemma rne_nonneg (n d : Z) : 0 <= n -> 0 < d -> 0 <= rne n d.
Proof.
  intros Hn Hd. unfold rne.
  pose proof (shift_of_nonneg (n / d)) as Hs.
  pose proof (pow2_pos _ Hs).
  assert (0 <= rne_int n (d * 2 ^ shift_of (n / d))).
  { apply rne_int_lower; nia. }
  nia.
Qed.

Lemma rne_mono (n1 d1 n2 d2 : Z) :
  0 <= n1 -> 0 < d1 -> 0 < d2 -> n1 * d2 <= n2 * d1 ->
  rne n1 d1 <= rne n2 d2.
Proof.
  intros Hn1 Hd1 Hd2 H.
  assert (Hn2 : 0 <= n2) by nia.
  pose proof (div_le_cross _ _ _ _ Hd1 Hd2 H) as Hq.
  pose proof (shift_of_mono _ _ Hq) as Hs.
  pose proof (mantissa_upper n1 d1 Hn1 Hd1) as U1.
  pose proof (shift_of_nonneg (n1 / d1)) as S1.
  unfold rne.
  set (s1 := shift_of (n1 / d1)) in *. set (s2 := shift_of (n2 / d2)) in *.
  pose proof (pow2_pos s1 S1) as P1.
  destruct (Z.eq_dec s1 s2) as [E|NE].
  - rewrite <- E. apply Z.mul_le_mono_nonneg_r; [lia|].
    apply rne_int_mono; nia.
  - pose proof (mantissa_lower n2 d2 Hn2 Hd2 ltac:(fold s2; lia)) as L2.
    fold s2 in L2.
    assert (E : 2 ^ s2 = 2 ^ s1 * 2 ^ (s2 - s1)) by (apply pow2_split; lia).
    assert (2 <= 2 ^ (s2 - s1)).
    { change 2 with (2 ^ 1) at 1. apply pow2_le. lia. }
    assert (E53 : 2 ^ 53 = 2 ^ 52 * 2) by reflexivity.
    pose proof (pow2_pos 52 ltac:(lia)) as P52.
    set (m1 := rne_int n1 (d1 * 2 ^ s1)) in *.
    set (m2 := rne_int n2 (d2 * 2 ^ s2)) in *.
    rewrite E. rewrite E53 in U1.
    transitivity (2 ^ 52 * 2 * 2 ^ s1); [nia|].
    transitivity (2 ^ 52 * (2 ^ s1 * 2 ^ (s2 - s1))); nia.
Qed.

Lemma rne_ratio (n1 d1 n2 d2 : Z) :
  0 <= n1 -> 0 < d1 -> 0 < d2 -> n1 * d2 = n2 * d1 -> rne n1 d1 = rne n2 d2.
Proof.
  intros. assert (0 <= n2) by nia.
  apply Z.le_antisymm; apply rne_mono; lia.
Qed.

Lemma rne_zero (d : Z) : 0 < d -> rne 0 d = 0.
Proof.
  intros Hd. unfold rne. rewrite Z.div_0_l by lia. simpl.
  replace (d * 1) with d by lia.
  rewrite <- (Z.mul_0_l d) at 1. rewrite rne_int_exact by lia. reflexivity.
Qed.

Lemma rne_pos (n d : Z) : 0 < n -> 0 < d -> d <= n -> 1 <= rne n d.
Proof.
  intros Hn Hd H.
  replace 1 with (rne 1 1) by reflexivity.
  apply rne_mono; lia.
Qed.


(** [round_scaled] computes the reference rounding *)

Lemma quot_exp_spec (n d u v : Z) :
  0 < n -> 0 < d -> 0 <= u -> 0 <= v ->
  (u - v <= quot_exp n d -> d * 2 ^ u <= n * 2 ^ v)
  /\ (quot_exp n d + 1 <= u - v -> n * 2 ^ v < d * 2 ^ u).
Proof.
  intros Hn Hd Hu Hv. unfold quot_exp.
  pose proof (Z.log2_spec n Hn) as [Ln Un].
  pose proof (Z.log2_spec d Hd) as [Ld Ud].
  pose proof (Z.log2_nonneg n) as An. pose proof (Z.log2_nonneg d) as Ad.
  set (a := Z.log2 n) in *. set (b := Z.log2 d) in *.
  replace (Z.succ a) with (a + 1) in Un by lia.
  replace (Z.succ b) with (b + 1) in Ud by lia.
  pose proof (pow2_pos a An) as Pa. pose proof (pow2_pos b Ad) as Pb.
  pose proof (pow2_pos u Hu) as Pu. pose proof (pow2_pos v Hv) as Pv.
  destruct (Z.ltb_spec (n * 2 ^ b) (d * 2 ^ a)) as [T|T]; split; intros H.
  - (* d 2^u < 2^(b+1+u) <= 2^(a+v) <= n 2^v *)
    assert (2 ^ (b + 1 + u) <= 2 ^ (a + v)) by (apply pow2_le; lia).
    rewrite !pow2_add in * by lia. nia.
  - (* n 2^(b+v) < d 2^(a+v) <= d 2^(u+b) *)
    assert (2 ^ (a + v) <= 2 ^ (u + b)) by (apply pow2_le; lia).
    rewrite !pow2_add in * by lia.
    apply Z.mul_lt_mono_pos_r with (p := 2 ^ b); [lia|]. nia.
  - assert (2 ^ (u + b) <= 2 ^ (a + v)) by (apply pow2_le; lia).
    rewrite !pow2_add in * by lia.
    apply Z.mul_le_mono_pos_r with (p := 2 ^ b); [lia|]. nia.
  - assert (2 ^ (a + 1 + v) <= 2 ^ (u + b)) by (apply pow2_le; lia).
    rewrite !pow2_add in * by lia. nia.
Qed.

Lemma round_shift (n d j : Z) :
  0 < n -> 0 < d ->
  shift_of (num n j / den d j) = Z.max 0 (quot_exp n d + j - 52).
Proof.
  intros Hn Hd. unfold num, den.
  set (jp := Z.max 0 j). set (jm := Z.max 0 (- j)).
  set (sh := Z.max 0 (quot_exp n d + j - 52)).
  pose proof (pow2_pos jp ltac:(lia)) as Pp.
  pose proof (pow2_pos jm ltac:(lia)) as Pm.
  assert (HD : 0 < d * 2 ^ jm) by nia.
  apply shift_of_unique.
  - apply Z.div_pos; nia.
  - lia.
  - apply Z.div_lt_upper_bound; [exact HD|].
    destruct (quot_exp_spec n d (jm + (53 + sh)) jp Hn Hd) as [_ H]; try lia.
    rewrite pow2_add in H by lia. specialize (H ltac:(lia)). nia.
  - destruct (Z.eq_dec sh 0) as [E|NE]; [left; exact E|right].
    apply Z.div_le_lower_bound; [exact HD|].
    destruct (quot_exp_spec n d (jm + (52 + sh)) jp Hn Hd) as [H _]; try lia.
    rewrite pow2_add in H by lia. specialize (H ltac:(lia)). nia.
Qed.

Lemma round_mantissa (n d j sh : Z) :
  0 < d -> 0 <= sh ->
  scaled_rne n d (j - sh) = rne_int (num n j) (den d j * 2 ^ sh).
Proof.
  intros Hd Hs. unfold scaled_rne, num, den.
  set (jp := Z.max 0 j). set (jm := Z.max 0 (- j)).
  pose proof (pow2_pos jm ltac:(lia)) as Pm.
  pose proof (pow2_pos sh Hs) as Ps.
  destruct (Z.leb_spec 0 (j - sh)) as [T|T].
  - apply rne_int_ratio; [lia|nia|].
    assert (E : 2 ^ jp = 2 ^ (j - sh) * (2 ^ jm * 2 ^ sh)).
    { rewrite <- !pow2_add by lia. f_equal. lia. }
    rewrite E. ring.
  - pose proof (pow2_pos (- (j - sh)) ltac:(lia)).
    apply rne_int_ratio; [nia|nia|].
    assert (E : 2 ^ jm * 2 ^ sh = 2 ^ jp * 2 ^ (- (j - sh))).
    { rewrite <- !pow2_add by lia. f_equal. lia. }
    transitivity (n * d * (2 ^ jm * 2 ^ sh)); [ring|]. rewrite E. ring.
Qed.

Lemma mag_of_Z (m k : Z) : 0 <= m -> 0 <= k -> mag (Z.to_N m) (Z.to_N k) = m * 2 ^ k.
Proof. intros. unfold mag. rewrite !Z2N.id by lia. reflexivity. Qed.

Lemma overflow_mag_split : overflow_mag = 2 ^ 52 * 2 ^ 2046.
Proof. unfold overflow_mag. rewrite <- pow2_add by lia. reflexivity. Qed.

Lemma round_scaled_cases (neg : bool) (n d j : Z) :
  0 <= n -> 0 < d ->
  let r := rne (num n j) (den d j) in
  (round_scaled neg n d j = Inf neg /\ overflow_mag <= r)
  \/ (exists m k, round_scaled neg n d j = Fin neg m k
                  /\ mag m k = r /\ r < overflow_mag).
Proof.
  intros Hn Hd r. subst r.
  assert (HT : 0 < overflow_mag) by (apply pow2_pos; lia).
  pose proof (pow2_pos (Z.max 0 j) ltac:(lia)) as Pp.
  pose proof (pow2_pos (Z.max 0 (- j)) ltac:(lia)) as Pm.
  unfold round_scaled.
  destruct (Z.eqb_spec n 0) as [->|Hn0].
  - right. exists 0%N, 0%N. unfold num.
    rewrite Z.mul_0_l, rne_zero by (unfold den; nia). auto.
  - assert (Hn' : 0 < n) by lia.
    assert (HN : 0 <= num n j) by (unfold num; nia).
    assert (HD : 0 < den d j) by (unfold den; nia).
    pose proof (round_shift n d j Hn' Hd) as Esh.
    set (sh := Z.max 0 (quot_exp n d + j - 52)) in *.
    assert (Hsh : 0 <= sh) by (unfold sh; lia).
    rewrite (round_mantissa n d j sh Hd Hsh).
    pose proof (mantissa_upper _ _ HN HD) as MU.
    pose proof (mantissa_lower _ _ HN HD) as ML.
    unfold rne. rewrite Esh in *.
    set (m := rne_int (num n j) (den d j * 2 ^ sh)) in *.
    pose proof (pow2_pos sh Hsh) as Ps.
    assert (Hm : 0 <= m).
    { apply rne_int_lower; nia. }
    assert (E53 : 2 ^ 53 = 2 ^ 52 * 2) by reflexivity.
    pose proof (pow2_pos 52 ltac:(lia)) as P52.
    destruct (Z.eqb_spec m 0) as [->|Hm0].
    { right. exists 0%N, 0%N. rewrite Z.mul_0_l. auto. }
    assert (Hcase : forall m' sh', 0 < m' < 2 ^ 53 -> 0 <= sh' ->
              (0 < sh' -> 2 ^ 52 <= m') -> m' * 2 ^ sh' = m * 2 ^ sh ->
              let x := if max_shift <? sh' then Inf neg
                       else Fin neg (Z.to_N m') (Z.to_N sh') in
              (x = Inf neg /\ overflow_mag <= m * 2 ^ sh)
              \/ (exists m0 k0, x = Fin neg m0 k0
                    /\ mag m0 k0 = m * 2 ^ sh /\ m * 2 ^ sh < overflow_mag)).
    { intros m' sh' Hm' Hs' Hl <-. unfold max_shift.
      pose proof (pow2_pos sh' Hs') as Ps'.
      destruct (Z.ltb_spec 2045 sh') as [O|O]; cbv zeta.
      - left. split; [reflexivity|].
        rewrite overflow_mag_split.
        apply Z.mul_le_mono_nonneg;
          [apply Z.lt_le_incl, pow2_pos; lia | apply Hl; lia
          | apply Z.lt_le_incl, pow2_pos; lia | apply pow2_le; lia].
      - right. exists (Z.to_N m'), (Z.to_N sh').
        split; [reflexivity|]. split; [apply mag_of_Z; lia|].
        replace overflow_mag with (2 ^ 53 * 2 ^ 2045)
          by (unfold overflow_mag; rewrite <- pow2_add by lia; reflexivity).
        apply Z.le_lt_trans with (m := m' * 2 ^ 2045).
        + apply Z.mul_le_mono_nonneg_l; [lia|apply pow2_le; lia].
        + apply Z.mul_lt_mono_pos_r; [apply pow2_pos; lia|lia]. }
    destruct (Z.eqb_spec m (2 ^ 53)) as [E|NE].
    + apply Hcase; try lia.
      rewrite E, pow2_add by lia. change (2 ^ 1) with 2. lia.
    + apply Hcase; try lia.
Qed.

Lemma overflow_mag_pos : 0 < overflow_mag.
Proof. apply pow2_pos. lia. Qed.

Lemma rnd_mono (z1 d1 z2 d2 : Z) :
  0 < d1 -> 0 < d2 -> z1 * d2 <= z2 * d1 -> rnd z1 d1 <= rnd z2 d2.
Proof.
  intros Hd1 Hd2 H. unfold rnd. pose proof overflow_mag_pos.
  destruct (Z.ltb_spec z1 0), (Z.ltb_spec z2 0).
  - assert (rne (- z2) d2 <= rne (- z1) d1) by (apply rne_mono; nia). lia.
  - pose proof (rne_nonneg (- z1) d1 ltac:(lia) Hd1).
    pose proof (rne_nonneg z2 d2 ltac:(lia) Hd2). lia.
  - exfalso. nia.
  - assert (rne z1 d1 <= rne z2 d2) by (apply rne_mono; nia). lia.
Qed.

Lemma rnd_ratio (z1 d1 z2 d2 : Z) :
  0 < d1 -> 0 < d2 -> z1 * d2 = z2 * d1 -> rnd z1 d1 = rnd z2 d2.
Proof. intros. apply Z.le_antisymm; apply rnd_mono; lia. Qed.

Lemma rnd_zero (d : Z) : 0 < d -> rnd 0 d = 0.
Proof.
  intros. unfold rnd. simpl. rewrite rne_zero by lia.
  pose proof overflow_mag_pos. lia.
Qed.

Lemma rnd_range (z d : Z) : 0 < d -> - overflow_mag <= rnd z d <= overflow_mag.
Proof.
  intros Hd. unfold rnd. pose proof overflow_mag_pos.
  destruct (Z.ltb_spec z 0).
  - pose proof (rne_nonneg (- z) d ltac:(lia) Hd). lia.
  - pose proof (rne_nonneg z d ltac:(lia) Hd). lia.
Qed.

Lemma rnd_pos (z d : Z) : 0 < d -> d <= z -> 1 <= rnd z d.
Proof.
  intros Hd H. unfold rnd. pose proof overflow_mag_pos.
  destruct (Z.ltb_spec z 0); [lia|].
  pose proof (rne_pos z d ltac:(lia) Hd H). lia.
Qed.

Lemma rnd_opp (z d : Z) : 0 < d -> rnd (- z) d = - rnd z d.
Proof.
  intros Hd. unfold rnd.
  destruct (Z.ltb_spec z 0), (Z.ltb_spec (- z) 0); try lia.
  - rewrite Z.opp_involutive. lia.
  - assert (z = 0) by lia. subst. simpl. rewrite rne_zero by lia.
    pose proof overflow_mag_pos. lia.
Qed.

Lemma round_scaled_rnd (neg : bool) (n d j : Z) :
  0 <= n -> 0 < d ->
  ext (round_scaled neg n d j) = rnd (signed neg (num n j)) (den d j)
  /\ is_nan (round_scaled neg n d j) = false
  /\ (is_finite (round_scaled neg n d j) = true ->
      proper (round_scaled neg n d j) = true).
Proof.
  intros Hn Hd. pose proof overflow_mag_pos as HT.
  assert (HN : 0 <= num n j).
  { unfold num. pose proof (pow2_pos (Z.max 0 j) ltac:(lia)). nia. }
  assert (HD : 0 < den d j).
  { unfold den. pose proof (pow2_pos (Z.max 0 (- j)) ltac:(lia)). nia. }
  pose proof (rne_nonneg _ _ HN HD) as Hr.
  assert (Hs : forall r, 0 <= r -> r = rne (num n j) (den d j) ->
             signed neg (Z.min r overflow_mag)
             = rnd (signed neg (num n j)) (den d j)).
  { intros r Hr0 ->. unfold rnd, signed. destruct neg.
    - destruct (Z.ltb_spec (- num n j) 0).
      + rewrite Z.opp_involutive. reflexivity.
      + assert (E : num n j = 0) by lia. rewrite E in *. simpl.
        rewrite rne_zero in * by lia. lia.
    - destruct (Z.ltb_spec (num n j) 0); [lia|reflexivity]. }
  destruct (round_scaled_cases neg n d j Hn Hd) as [[E Ho]|(m & k & E & Em & Ho)];
    rewrite E.
  - split; [|split; [reflexivity|discriminate]].
    rewrite <- (Hs _ Hr eq_refl). rewrite Z.min_r by lia.
    destruct neg; reflexivity.
  - split; [|split; [reflexivity|]].
    + rewrite <- (Hs _ Hr eq_refl). rewrite Z.min_l by lia.
      simpl. unfold sval, signed. rewrite Em. reflexivity.
    + intros _. unfold proper. simpl. unfold sval. rewrite Em.
      apply Z.ltb_lt. destruct neg; lia.
Qed.

Lemma round_scaled_not_nan (neg : bool) (n d j : Z) :
  is_nan (round_scaled neg n d j) = false.
Proof.
  unfold round_scaled.
  destruct (n =? 0); [reflexivity|].
  destruct (scaled_rne _ _ _ =? 0); [reflexivity|].
  destruct (scaled_rne _ _ _ =? 2 ^ 53);
    match goal with |- context [if ?c then Inf _ else _] => destruct c end;
    reflexivity.
Qed.

Lemma mag_nonneg (m k : N) : 0 <= mag m k.
Proof.
  unfold mag. pose proof (pow2_pos (Z.of_N k) ltac:(lia)). nia.
Qed.

Lemma mag_zero_iff (m k : N) : mag m k = 0 <-> m = 0%N.
Proof.
  unfold mag. pose proof (pow2_pos (Z.of_N k) ltac:(lia)). split.
  - intros Hz. assert (Z.of_N m = 0) by nia. lia.
  - intros ->. reflexivity.
Qed.

Lemma unit_scale_pos : 0 < unit_scale.
Proof. apply pow2_pos. unfold ulp_exp. lia. Qed.

Lemma sval_signed (s : bool) (m k : N) : sval s m k = signed s (mag m k).
Proof. reflexivity. Qed.

Lemma signed_mul (s1 s2 : bool) (a b : Z) :
  signed (xorb s1 s2) (a * b) = signed s1 a * signed s2 b.
Proof. destruct s1, s2; simpl; ring. Qed.

Lemma signed_mul_l (s : bool) (a b : Z) : signed s (a * b) = signed s a * b.
Proof. destruct s; simpl; ring. Qed.

Lemma rounds_to_ratio (r : float) (z1 d1 z2 d2 : Z) :
  0 < d1 -> 0 < d2 -> z1 * d2 = z2 * d1 ->
  rounds_to r z1 d1 -> rounds_to r z2 d2.
Proof.
  intros H1 H2 E (Hr & Hn & Hp). split; [|auto].
  rewrite Hr. apply rnd_ratio; assumption.
Qed.

Lemma round_scaled_rounds (neg : bool) (n d j : Z) :
  0 <= n -> 0 < d ->
  rounds_to (round_scaled neg n d j) (signed neg (num n j)) (den d j).
Proof. intros. apply round_scaled_rnd; assumption. Qed.

Lemma den_pos (d j : Z) : 0 < d -> 0 < den d j.
Proof.
  intros. unfold den. pose proof (pow2_pos (Z.max 0 (- j)) ltac:(lia)). nia.
Qed.

Lemma num_den_pow (j a b : Z) :
  0 <= a -> 0 <= b -> j = a - b ->
  2 ^ Z.max 0 j * 2 ^ b = 2 ^ a * 2 ^ Z.max 0 (- j).
Proof.
  intros Ha Hb ->. rewrite <- !pow2_add by lia. f_equal. lia.
Qed.

Lemma fmul_rounds (sx sy : bool) (mx kx my ky : N) :
  rounds_to (fmul (Fin sx mx kx) (Fin sy my ky))
    (sval sx mx kx * sval sy my ky) unit_scale.
Proof.
  unfold fmul.
  set (j := Z.of_N kx + Z.of_N ky - ulp_exp).
  eapply rounds_to_ratio;
    [| | |apply round_scaled_rounds; [nia|lia]].
  - apply den_pos. lia.
  - apply unit_scale_pos.
  - rewrite !sval_signed, <- signed_mul. unfold mag, num, den, unit_scale.
    pose proof (num_den_pow j (Z.of_N kx + Z.of_N ky) ulp_exp
                  ltac:(lia) ltac:(unfold ulp_exp; lia) eq_refl) as E.
    rewrite pow2_add in E by lia.
    rewrite <- !signed_mul_l. f_equal.
    transitivity (Z.of_N mx * Z.of_N my * (2 ^ Z.max 0 j * 2 ^ ulp_exp)); [ring|].
    rewrite E. ring.
Qed.

Lemma fdiv_rounds (sx : bool) (mx kx my ky : N) :
  my <> 0%N ->
  exists r, fdiv (Fin sx mx kx) (Fin false my ky) = Ok r
    /\ rounds_to r (sval sx mx kx * unit_scale) (mag my ky).
Proof.
  intros Hy. unfold fdiv. destruct my as [|p]; [congruence|].
  eexists. split; [reflexivity|].
  set (my := N.pos p) in *.
  set (j := Z.of_N kx - Z.of_N ky + ulp_exp).
  assert (0 < mag my ky).
  { pose proof (mag_nonneg my ky). pose proof (mag_zero_iff my ky).
    assert (mag my ky <> 0) by tauto. lia. }
  eapply rounds_to_ratio;
    [| | |apply round_scaled_rounds; [lia|unfold my; lia]].
  - apply den_pos. unfold my. lia.
  - assumption.
  - rewrite xorb_false_r, sval_signed. unfold mag, num, den, unit_scale.
    pose proof (num_den_pow j (Z.of_N kx + ulp_exp) (Z.of_N ky)
                  ltac:(unfold ulp_exp; lia) ltac:(lia) ltac:(subst j; lia)) as E.
    rewrite pow2_add in E by (unfold ulp_exp; lia).
    rewrite <- !signed_mul_l. f_equal.
    transitivity (Z.of_N mx * Z.of_N my * (2 ^ Z.max 0 j * 2 ^ Z.of_N ky)); [ring|].
    rewrite E. ring.
Qed.

Lemma sval_shift (s : bool) (m k k0 : N) :
  (k0 <= k)%N -> sval s m (k - k0) * 2 ^ Z.of_N k0 = sval s m k.
Proof.
  intros H. rewrite !sval_signed, <- signed_mul_l. f_equal. unfold mag.
  rewrite (pow2_split (Z.of_N k0) (Z.of_N k)) by lia.
  replace (Z.of_N (k - k0)) with (Z.of_N k - Z.of_N k0) by lia. ring.
Qed.

Lemma fadd_rounds (sx sy : bool) (mx kx my ky : N) :
  rounds_to (fadd (Fin sx mx kx) (Fin sy my ky))
    (sval sx mx kx + sval sy my ky) 1.
Proof.
  unfold fadd.
  set (k := N.min kx ky).
  set (z := sval sx mx (kx - k) + sval sy my (ky - k)).
  assert (Ez : z * 2 ^ Z.of_N k = sval sx mx kx + sval sy my ky).
  { unfold z. rewrite Z.mul_add_distr_r, !sval_shift by (unfold k; lia).
    reflexivity. }
  pose proof (pow2_pos (Z.of_N k) ltac:(lia)) as Pk.
  destruct (Z.eqb_spec z 0) as [E0|N0].
  - rewrite <- Ez, E0, Z.mul_0_l. split; [|split].
    + rewrite rnd_zero by lia. destruct (sx && sy); reflexivity.
    + reflexivity.
    + intros _. destruct (sx && sy); reflexivity.
  - rewrite <- Ez.
    eapply rounds_to_ratio;
      [| | |apply round_scaled_rounds; [lia|lia]].
    + apply den_pos. lia.
    + lia.
    + unfold num, den. rewrite Z.max_r, Z.max_l by lia.
      change (2 ^ 0) with 1.
      assert (Es : signed (z <? 0) (Z.abs z * 2 ^ Z.of_N k) = z * 2 ^ Z.of_N k).
      { unfold signed. destruct (Z.ltb_spec z 0); nia. }
      rewrite Es. ring.
Qed.

Lemma fsub_rounds (sx sy : bool) (mx kx my ky : N) :
  rounds_to (fsub (Fin sx mx kx) (Fin sy my ky))
    (sval sx mx kx - sval sy my ky) 1.
Proof.
  unfold fsub, fneg.
  replace (sval sx mx kx - sval sy my ky)
    with (sval sx mx kx + sval (negb sy) my ky).
  - apply fadd_rounds.
  - unfold sval. destruct sy; simpl; lia.
Qed.

Lemma to_int_quot (s : bool) (m k : N) :
  to_int (Fin s m k) = Ok (Z.quot (sval s m k) unit_scale).
Proof.
  unfold to_int. f_equal.
  rewrite Z.shiftr_div_pow2, Z.shiftl_mul_pow2 by (unfold ulp_exp; lia).
  fold (mag m k). fold unit_scale.
  pose proof (mag_nonneg m k). pose proof unit_scale_pos.
  unfold sval. destruct s.
  - rewrite Z.quot_opp_l by lia. rewrite Z.quot_div_nonneg by lia. reflexivity.
  - rewrite Z.quot_div_nonneg by lia. reflexivity.
Qed.

Lemma quot_le_mono (a b c : Z) : 0 < c -> a <= b -> Z.quot a c <= Z.quot b c.
Proof. intros. apply Z.quot_le_mono; lia. Qed.

Lemma proper_inv (x : float) :
  proper x = true ->
  exists s m k, x = Fin s m k /\ - overflow_mag < sval s m k < overflow_mag.
Proof.
  unfold proper. destruct x as [|s|s m k]; try discriminate.
  intros H. cbn [is_finite andb ext] in H. apply Z.ltb_lt in H. exists s, m, k. split; [reflexivity|lia].
Qed.

Lemma proper_ext (x : float) :
  proper x = true -> - overflow_mag < ext x < overflow_mag.
Proof.
  intros H. destruct (proper_inv x H) as (s & m & k & -> & B). exact B.
Qed.

Lemma rounds_proper (r : float) (z d : Z) :
  rounds_to r z d -> - overflow_mag < ext r < overflow_mag -> proper r = true.
Proof.
  intros (_ & Hn & Hp) B. destruct r as [|s|s m k].
  - discriminate.
  - exfalso. cbn [ext] in B. destruct s; lia.
  - apply Hp. reflexivity.
Qed.

Lemma proper_between (lo hi x : float) :
  proper lo = true -> proper hi = true -> is_nan x = false ->
  ext lo <= ext x <= ext hi -> proper x = true.
Proof.
  intros Hl Hh Hn B.
  pose proof (proper_ext lo Hl). pose proof (proper_ext hi Hh).
  destruct x as [|s|s m k].
  - discriminate.
  - exfalso. cbn [ext] in B. destruct s; lia.
  - unfold proper. cbn [is_finite andb ext] in *. apply Z.ltb_lt. lia.
Qed.

(** Comparisons read as facts on extended values *)

Lemma fle_true (x y : float) :
  fle x y = true -> is_nan x = false /\ is_nan y = false /\ ext x <= ext y.
Proof.
  unfold fle. intros H. apply andb_prop in H as [H H3]. apply andb_prop in H as [H1 H2].
  apply negb_true_iff in H1, H2. apply Z.leb_le in H3. auto.
Qed.

Lemma flt_true (x y : float) :
  flt x y = true -> is_nan x = false /\ is_nan y = false /\ ext x < ext y.
Proof.
  unfold flt. intros H. apply andb_prop in H as [H H3]. apply andb_prop in H as [H1 H2].
  apply negb_true_iff in H1, H2. apply Z.ltb_lt in H3. auto.
Qed.

Lemma flt_false (x y : float) :
  flt x y = false -> is_nan x = false -> is_nan y = false -> ext y <= ext x.
Proof.
  unfold flt. intros H Hx Hy. rewrite Hx, Hy in H. cbn [negb andb] in H.
  apply Z.ltb_ge in H. exact H.
Qed.

Lemma feq_true (x y : float) :
  feq x y = true -> is_nan x = false /\ is_nan y = false /\ ext x = ext y.
Proof.
  unfold feq. intros H. apply andb_prop in H as [H H3]. apply andb_prop in H as [H1 H2].
  apply negb_true_iff in H1, H2. apply Z.eqb_eq in H3. auto.
Qed.

Lemma feq_false (x y : float) :
  feq x y = false -> is_nan x = false -> is_nan y = false -> ext x <> ext y.
Proof.
  unfold feq. intros H Hx Hy. rewrite Hx, Hy in H. cbn [negb andb] in H.
  apply Z.eqb_neq in H. exact H.
Qed.

(** Monotonicity of the operations on proper floats *)

Section Monotone.
Variables x y c : float.
Hypothesis Hx : proper x = true.
Hypothesis Hy : proper y = true.
Hypothesis Hc : proper c = true.
Hypothesis Hxy : ext x <= ext y.

Lemma fmul_mono_r : 0 <= ext c -> ext (fmul x c) <= ext (fmul y c).
Proof.
  intros H0.
  destruct (proper_inv x Hx) as (sx & mx & kx & -> & _).
  destruct (proper_inv y Hy) as (sy & my & ky & -> & _).
  destruct (proper_inv c Hc) as (sc & mc & kc & -> & _).
  destruct (fmul_rounds sx sc mx kx mc kc) as (-> & _).
  destruct (fmul_rounds sy sc my ky mc kc) as (-> & _).
  cbn [ext] in Hxy, H0. pose proof unit_scale_pos.
  apply rnd_mono; try lia.
  repeat apply Z.mul_le_mono_nonneg_r; lia.
Qed.

Lemma fsub_mono_l : ext (fsub x c) <= ext (fsub y c).
Proof.
  destruct (proper_inv x Hx) as (sx & mx & kx & -> & _).
  destruct (proper_inv y Hy) as (sy & my & ky & -> & _).
  destruct (proper_inv c Hc) as (sc & mc & kc & -> & _).
  destruct (fsub_rounds sx sc mx kx mc kc) as (-> & _).
  destruct (fsub_rounds sy sc my ky mc kc) as (-> & _).
  cbn [ext] in Hxy. apply rnd_mono; lia.
Qed.

Lemma fsub_anti_r : ext (fsub c y) <= ext (fsub c x).
Proof.
  destruct (proper_inv x Hx) as (sx & mx & kx & -> & _).
  destruct (proper_inv y Hy) as (sy & my & ky & -> & _).
  destruct (proper_inv c Hc) as (sc & mc & kc & -> & _).
  destruct (fsub_rounds sc sx mc kc mx kx) as (-> & _).
  destruct (fsub_rounds sc sy mc kc my ky) as (-> & _).
  cbn [ext] in Hxy. apply rnd_mono; lia.
Qed.

Lemma fadd_mono_l : ext (fadd x c) <= ext (fadd y c).
Proof.
  destruct (proper_inv x Hx) as (sx & mx & kx & -> & _).
  destruct (proper_inv y Hy) as (sy & my & ky & -> & _).
  destruct (proper_inv c Hc) as (sc & mc & kc & -> & _).
  destruct (fadd_rounds sx sc mx kx mc kc) as (-> & _).
  destruct (fadd_rounds sy sc my ky mc kc) as (-> & _).
  cbn [ext] in Hxy. apply rnd_mono; lia.
Qed.

Lemma fdiv_mono_l :
  0 < ext c ->
  exists rx ry, fdiv x c = Ok rx /\ fdiv y c = Ok ry /\ ext rx <= ext ry.
Proof.
  intros H0.
  destruct (proper_inv x Hx) as (sx & mx & kx & -> & _).
  destruct (proper_inv y Hy) as (sy & my & ky & -> & _).
  destruct (proper_inv c Hc) as (sc & mc & kc & -> & _).
  cbn [ext] in H0, Hxy. pose proof (mag_nonneg mc kc).
  destruct sc; [unfold sval in H0; lia|].
  assert (mc <> 0%N).
  { intros E. apply (mag_zero_iff mc kc) in E. unfold sval in H0. lia. }
  destruct (fdiv_rounds sx mx kx mc kc) as (rx & Ex & (Rx & _)); [assumption|].
  destruct (fdiv_rounds sy my ky mc kc) as (ry & Ey & (Ry & _)); [assumption|].
  exists rx, ry. split; [assumption|]. split; [assumption|].
  rewrite Rx, Ry. pose proof unit_scale_pos. unfold sval in H0.
  apply rnd_mono; try lia.
  repeat apply Z.mul_le_mono_nonneg_r; lia.
Qed.

Lemma to_int_mono :
  exists a b, to_int x = Ok a /\ to_int y = Ok b /\ a <= b.
Proof.
  destruct (proper_inv x Hx) as (sx & mx & kx & -> & _).
  destruct (proper_inv y Hy) as (sy & my & ky & -> & _).
  rewrite !to_int_quot. do 2 eexists. split; [reflexivity|]. split; [reflexivity|].
  apply quot_le_mono; [apply unit_scale_pos|exact Hxy].
Qed.
End Monotone.

(** Results of operations on proper floats are rounded values *)

Lemma fmul_proper_rounds (x c : float) :
  proper x = true -> proper c = true -> exists z d, rounds_to (fmul x c) z d.
Proof.
  intros Hx Hc.
  destruct (proper_inv x Hx) as (sx & mx & kx & -> & _).
  destruct (proper_inv c Hc) as (sc & mc & kc & -> & _).
  do 2 eexists. apply fmul_rounds.
Qed.

Lemma fsub_proper_rounds (x c : float) :
  proper x = true -> proper c = true -> exists z d, rounds_to (fsub x c) z d.
Proof.
  intros Hx Hc.
  destruct (proper_inv x Hx) as (sx & mx & kx & -> & _).
  destruct (proper_inv c Hc) as (sc & mc & kc & -> & _).
  do 2 eexists. apply fsub_rounds.
Qed.

Lemma fadd_proper_rounds (x c : float) :
  proper x = true -> proper c = true -> exists z d, rounds_to (fadd x c) z d.
Proof.
  intros Hx Hc.
  destruct (proper_inv x Hx) as (sx & mx & kx & -> & _).
  destruct (proper_inv c Hc) as (sc & mc & kc & -> & _).
  do 2 eexists. apply fadd_rounds.
Qed.

Lemma fdiv_proper_rounds (x c r : float) :
  proper x = true -> proper c = true -> 0 < ext c -> fdiv x c = Ok r ->
  exists z d, rounds_to r z d.
Proof.
  intros Hx Hc H0 E.
  destruct (proper_inv x Hx) as (sx & mx & kx & -> & _).
  destruct (proper_inv c Hc) as (sc & mc & kc & -> & _).
  cbn [ext] in H0. pose proof (mag_nonneg mc kc).
  destruct sc; [unfold sval in H0; lia|].
  assert (mc <> 0%N).
  { intros E0. apply (mag_zero_iff mc kc) in E0. unfold sval in H0. lia. }
  destruct (fdiv_rounds sx mx kx mc kc) as (r' & E' & R); [assumption|].
  rewrite E in E'. injection E' as <-. eauto.
Qed.

(** Interval steps: the operand moves between two floats, the result
    between the results at those two. *)

Lemma btw_fmul_r (lo hi x c lo' hi' : float) :
  btw lo hi x -> fmul lo c = lo' -> fmul hi c = hi' ->
  proper lo' = true -> proper hi' = true -> proper c = true -> 0 <= ext c ->
  btw lo' hi' (fmul x c).
Proof.
  intros (Hl & Hh & Hx & Bl & Bh) El Eh Hlo' Hhi' Hc H0.
  assert (Bx : ext lo' <= ext (fmul x c) <= ext hi').
  { subst lo' hi'. split; apply fmul_mono_r; assumption. }
  repeat split; try assumption; try apply Bx.
  destruct (fmul_proper_rounds x c Hx Hc) as (z & d & R).
  apply (rounds_proper _ _ _ R).
  pose proof (proper_ext _ Hlo'). pose proof (proper_ext _ Hhi'). lia.
Qed.

Lemma btw_fsub_r (lo hi x c lo' hi' : float) :
  btw lo hi x -> fsub lo c = lo' -> fsub hi c = hi' ->
  proper lo' = true -> proper hi' = true -> proper c = true ->
  btw lo' hi' (fsub x c).
Proof.
  intros (Hl & Hh & Hx & Bl & Bh) El Eh Hlo' Hhi' Hc.
  assert (Bx : ext lo' <= ext (fsub x c) <= ext hi').
  { subst lo' hi'. split; apply fsub_mono_l; assumption. }
  repeat split; try assumption; try apply Bx.
  destruct (fsub_proper_rounds x c Hx Hc) as (z & d & R).
  apply (rounds_proper _ _ _ R).
  pose proof (proper_ext _ Hlo'). pose proof (proper_ext _ Hhi'). lia.
Qed.

Lemma btw_fsub_l (lo hi x c lo' hi' : float) :
  btw lo hi x -> fsub c hi = lo' -> fsub c lo = hi' ->
  proper lo' = true -> proper hi' = true -> proper c = true ->
  btw lo' hi' (fsub c x).
Proof.
  intros (Hl & Hh & Hx & Bl & Bh) El Eh Hlo' Hhi' Hc.
  assert (Bx : ext lo' <= ext (fsub c x) <= ext hi').
  { subst lo' hi'. split; apply fsub_anti_r; assumption. }
  repeat split; try assumption; try apply Bx.
  destruct (fsub_proper_rounds c x Hc Hx) as (z & d & R).
  apply (rounds_proper _ _ _ R).
  pose proof (proper_ext _ Hlo'). pose proof (proper_ext _ Hhi'). lia.
Qed.

Lemma btw_fdiv_r (lo hi x c lo' hi' : float) :
  btw lo hi x -> fdiv lo c = Ok lo' -> fdiv hi c = Ok hi' ->
  proper lo' = true -> proper hi' = true -> proper c = true -> 0 < ext c ->
  exists r, fdiv x c = Ok r /\ btw lo' hi' r.
Proof.
  intros (Hl & Hh & Hx & Bl & Bh) El Eh Hlo' Hhi' Hc H0.
  destruct (fdiv_mono_l lo x c Hl Hx Hc Bl H0) as (a & r & Ea & Er & L1).
  destruct (fdiv_mono_l x hi c Hx Hh Hc Bh H0) as (r' & b & Er' & Eb & L2).
  rewrite Er in Er'. injection Er' as <-.
  rewrite El in Ea. injection Ea as <-.
  rewrite Eh in Eb. injection Eb as <-.
  exists r. split; [assumption|].
  repeat split; try assumption.
  destruct (fdiv_proper_rounds x c r Hx Hc H0 Er) as (z & d & R).
  apply (rounds_proper _ _ _ R).
  pose proof (proper_ext _ Hlo'). pose proof (proper_ext _ Hhi'). lia.
Qed.

Lemma btw_to_int (lo hi x : float) (a b : Z) :
  btw lo hi x -> to_int lo = Ok a -> to_int hi = Ok b ->
  exists z, to_int x = Ok z /\ a <= z <= b.
Proof.
  intros (Hl & Hh & Hx & Bl & Bh) Ea Eb.
  destruct (to_int_mono lo x Hl Hx Bl) as (a' & z & Ea' & Ez & L1).
  destruct (to_int_mono x hi Hx Hh Bh) as (z' & b' & Ez' & Eb' & L2).
  rewrite Ea in Ea'. injection Ea' as <-.
  rewrite Eb in Eb'. injection Eb' as <-.
  rewrite Ez in Ez'. injection Ez' as <-.
  exists z. split; [assumption|lia].
Qed.

End FloatFacts.


(** ** [Float] is the binary64 instance of [SpecFloat] *)

Module SpecFloatFacts.
Import Float FloatFacts.

Lemma digits2_log2 (p : positive) :
  Zpos (digits2_pos p) = Z.log2 (Zpos p) + 1.
Proof.
  assert (E : forall q, digits2_pos q = Pos.size q).
  { induction q; cbn; congruence. }
  rewrite E. destruct p; cbn; lia.
Qed.

Lemma Zdigits2_log2 (m : Z) : 0 < m -> Zdigits2 m = Z.log2 m + 1.
Proof. destruct m; try lia. intros _. apply digits2_log2. Qed.

Lemma fexp_binary64 (e : Z) : fexp 53 1024 e = Z.max (e - 53) (-1074).
Proof. reflexivity. Qed.

Lemma iter_pos_nat {A : Type} (f : A -> A) (p : positive) (x : A) :
  iter_pos f p x = Nat.iter (Pos.to_nat p) f x.
Proof.
  revert x. induction p as [p IH|p IH|]; intros x; cbn [iter_pos].
  - rewrite !IH, Pos2Nat.inj_xI, Nat.iter_succ_r.
    replace (2 * Pos.to_nat p)%nat with (Pos.to_nat p + Pos.to_nat p)%nat by lia.
    rewrite Nat.iter_add. reflexivity.
  - rewrite !IH, Pos2Nat.inj_xO.
    replace (2 * Pos.to_nat p)%nat with (Pos.to_nat p + Pos.to_nat p)%nat by lia.
    rewrite Nat.iter_add. reflexivity.
  - reflexivity.
Qed.

Lemma shr_1_spec (m : Z) (r s : bool) :
  0 <= m ->
  shr_1 (Build_shr_record m r s) = Build_shr_record (m / 2) (Z.odd m) (r || s).
Proof.
  intros Hm. destruct m as [|[p|p|]|]; [reflexivity| | |reflexivity|lia];
    unfold shr_1; f_equal.
  - apply Z.div_unique with (r := 1); lia.
  - apply Z.div_unique with (r := 0); lia.
Qed.

Lemma locates_shr_1 (mrs : shr_record) (n d : Z) :
  0 <= n -> 0 < d -> locates mrs n d -> locates (shr_1 mrs) n (2 * d).
Proof.
  intros Hn Hd (Hm & ->).
  pose proof (Z.mod_pos_bound n d Hd) as Bn.
  pose proof (Z.div_mod n d ltac:(lia)) as Dn.
  assert (Hq : 0 <= n / d) by (apply Z.div_pos; lia).
  pose proof (Z.div_mod (n / d) 2 ltac:(lia)) as Dq.
  pose proof (Zmod_odd (n / d)) as Oq.
  assert (E2 : n / (2 * d) = n / d / 2).
  { rewrite (Z.mul_comm 2 d), Z.div_div by lia. reflexivity. }
  assert (Er : n mod (2 * d) = (n / d) mod 2 * d + n mod d).
  { symmetry. apply Z.mod_unique with (q := n / d / 2).
    - left. destruct (Z.odd (n / d)); lia.
    - destruct (Z.odd (n / d)); lia. }
  unfold locates, loc_of. rewrite E2, Er.
  set (q := n / d) in *. set (r := n mod d) in *. clearbody q r.
  assert (Hs : shr_1 (shr_record_of_loc q
                        (if r =? 0 then loc_Exact
                         else loc_Inexact (2 * r ?= d)))
               = shr_record_of_loc (q / 2)
                   (if q mod 2 * d + r =? 0 then loc_Exact
                    else loc_Inexact (2 * (q mod 2 * d + r) ?= 2 * d))).
  { rewrite Oq.
    destruct (Z.eqb_spec r 0) as [R0|R0]; destruct (Z.odd q) eqn:O.
    - destruct (Z.eqb_spec (1 * d + r) 0); [lia|].
      destruct (Z.compare_spec (2 * (1 * d + r)) (2 * d)); try lia.
      cbn [shr_record_of_loc]. rewrite shr_1_spec, O by lia. reflexivity.
    - destruct (Z.eqb_spec (0 * d + r) 0); [|lia].
      cbn [shr_record_of_loc]. rewrite shr_1_spec, O by lia. reflexivity.
    - destruct (Z.eqb_spec (1 * d + r) 0); [lia|].
      destruct (Z.compare_spec (2 * (1 * d + r)) (2 * d)); try lia.
      destruct (2 * r ?= d); cbn [shr_record_of_loc];
        rewrite shr_1_spec, O by lia; reflexivity.
    - destruct (Z.eqb_spec (0 * d + r) 0); [lia|].
      destruct (Z.compare_spec (2 * (0 * d + r)) (2 * d)); try lia.
      destruct (2 * r ?= d); cbn [shr_record_of_loc];
        rewrite shr_1_spec, O by lia; reflexivity. }
  split; [rewrite Hs|exact Hs].
  destruct (q mod 2 * d + r =? 0); [reflexivity|].
  destruct (2 * (q mod 2 * d + r) ?= 2 * d); reflexivity.
Qed.

Lemma locates_iter (k : nat) (mrs : shr_record) (n d : Z) :
  0 <= n -> 0 < d -> locates mrs n d ->
  locates (Nat.iter k shr_1 mrs) n (d * 2 ^ Z.of_nat k).
Proof.
  intros Hn Hd H. induction k as [|k IH].
  - cbn. rewrite Z.mul_1_r. exact H.
  - cbn [Nat.iter]. rewrite Nat2Z.inj_succ, Z.pow_succ_r by lia.
    replace (d * (2 * 2 ^ Z.of_nat k)) with (2 * (d * 2 ^ Z.of_nat k)) by ring.
    apply locates_shr_1; [lia| |exact IH].
    pose proof (pow2_pos (Z.of_nat k) ltac:(lia)). nia.
Qed.

Lemma locates_shr (mrs : shr_record) (e sh : Z) (n d : Z) :
  0 <= n -> 0 < d -> locates mrs n d ->
  locates (fst (shr mrs e sh)) n (d * 2 ^ Z.max 0 sh)
  /\ snd (shr mrs e sh) = e + Z.max 0 sh.
Proof.
  intros Hn Hd H. unfold shr. destruct sh as [|p|p]; cbn [fst snd].
  - rewrite Z.max_l, Z.mul_1_r by lia. split; [exact H|lia].
  - rewrite Z.max_r by lia. split; [|reflexivity].
    rewrite iter_pos_nat. rewrite <- (positive_nat_Z p).
    apply locates_iter; assumption.
  - rewrite Z.max_l, Z.mul_1_r by lia. split; [exact H|lia].
Qed.

Lemma locates_round (mrs : shr_record) (n d : Z) :
  0 <= n -> 0 < d -> locates mrs n d ->
  round_nearest_even (shr_m mrs) (loc_of_shr_record mrs) = rne_int n d.
Proof.
  intros Hn Hd (Hm & E). rewrite E. unfold rne_int, loc_of.
  pose proof (Z.mod_pos_bound n d Hd).
  destruct (Z.eqb_spec (n mod d) 0) as [R0|R0].
  - rewrite R0. destruct (Z.compare_spec (2 * 0) d); try lia. reflexivity.
  - destruct (2 * (n mod d) ?= d);
      cbn [shr_record_of_loc shr_m loc_of_shr_record round_nearest_even];
      reflexivity.
Qed.

Lemma locates_exact (m : Z) :
  locates (shr_record_of_loc m loc_Exact) m 1.
Proof.
  unfold locates. rewrite Z.div_1_r. split; [reflexivity|].
  unfold loc_of. rewrite Z.mod_1_r. reflexivity.
Qed.

Lemma quot_exp_log2 (n d : Z) :
  0 < d -> d <= n -> quot_exp n d = Z.log2 (n / d).
Proof.
  intros Hd Hn. set (L := quot_exp n d).
  assert (HL : 0 <= L).
  { destruct (Z_lt_le_dec L 0) as [N|]; [exfalso|assumption].
    destruct (quot_exp_spec n d 0 0 ltac:(lia) Hd ltac:(lia) ltac:(lia)) as [_ H].
    fold L in H. specialize (H ltac:(lia)). lia. }
  destruct (quot_exp_spec n d L 0 ltac:(lia) Hd HL ltac:(lia)) as [Lo _].
  destruct (quot_exp_spec n d (L + 1) 0 ltac:(lia) Hd ltac:(lia) ltac:(lia)) as [_ Hi].
  fold L in Lo, Hi. specialize (Lo ltac:(lia)). specialize (Hi ltac:(lia)).
  change (2 ^ 0) with 1 in *. rewrite Z.mul_1_r in *.
  symmetry. apply Z.log2_unique; [exact HL|]. split.
  - apply Z.div_le_lower_bound; lia.
  - apply Z.div_lt_upper_bound; [lia|].
    replace (Z.succ L) with (L + 1) by lia. lia.
Qed.

Lemma quot_exp_neg (n d : Z) : 0 < n -> n < d -> quot_exp n d < 0.
Proof.
  intros Hn Hd.
  destruct (Z_lt_le_dec (quot_exp n d) 0) as [|N]; [assumption|exfalso].
  destruct (quot_exp_spec n d 0 0 Hn ltac:(lia) ltac:(lia) ltac:(lia)) as [H _].
  specialize (H ltac:(lia)). lia.
Qed.

Lemma num_nonneg_exp (n j : Z) : 0 <= j -> num n j = n * 2 ^ j.
Proof. intros. unfold num. rewrite Z.max_r by lia. reflexivity. Qed.

(** The shift and the mantissa [round_scaled] uses, for a quotient that
    comes with enough bits. *)
Lemma round_scaled_unfold (neg : bool) (n d j sh : Z) :
  0 < n -> 0 < d -> sh = Z.max 0 (quot_exp n d + j - 52) -> j <= sh ->
  let m := rne_int n (d * 2 ^ (sh - j)) in
  0 <= m <= 2 ^ 53 /\ (0 < sh -> 2 ^ 52 <= m)
  /\ round_scaled neg n d j
     = if m =? 0 then Fin neg 0 0
       else if m =? 2 ^ 53 then
              if max_shift <? sh + 1 then Inf neg
              else Fin neg (Z.to_N (2 ^ 52)) (Z.to_N (sh + 1))
            else if max_shift <? sh then Inf neg
                 else Fin neg (Z.to_N m) (Z.to_N sh).
Proof.
  intros Hn Hd Hsh Hj m.
  assert (Hs0 : 0 <= sh) by lia.
  pose proof (pow2_pos (Z.max 0 j) ltac:(lia)) as Pp.
  pose proof (pow2_pos (Z.max 0 (- j)) ltac:(lia)) as Pm.
  pose proof (pow2_pos sh Hs0) as Ps.
  pose proof (pow2_pos (sh - j) ltac:(lia)) as Psj.
  assert (HN : 0 <= num n j) by (unfold num; nia).
  assert (HD : 0 < den d j) by (unfold den; nia).
  assert (Em : scaled_rne n d (j - sh) = m).
  { unfold scaled_rne, m. destruct (Z.leb_spec 0 (j - sh)).
    - replace (j - sh) with 0 by lia. replace (sh - j) with 0 by lia.
      change (2 ^ 0) with 1. rewrite !Z.mul_1_r. reflexivity.
    - replace (- (j - sh)) with (sh - j) by lia. reflexivity. }
  pose proof (round_shift n d j Hn Hd) as Esh. rewrite <- Hsh in Esh.
  pose proof (mantissa_upper _ _ HN HD) as MU.
  pose proof (mantissa_lower _ _ HN HD) as ML.
  rewrite Esh in MU, ML.
  rewrite <- (round_mantissa n d j sh Hd Hs0), Em in MU, ML.
  split; [split; [|exact MU]|split; [exact ML|]].
  - unfold m. apply rne_int_lower; nia.
  - unfold round_scaled. rewrite <- Hsh. cbv zeta. rewrite Em.
    destruct (Z.eqb_spec n 0); [lia|].
    destruct (m =? 0); [reflexivity|].
    destruct (m =? 2 ^ 53); reflexivity.
Qed.

Lemma Zdigits2_le_53 (m : Z) : 0 < m < 2 ^ 53 -> Zdigits2 m <= 53.
Proof.
  intros H. rewrite Zdigits2_log2 by lia.
  assert (Z.log2 m < 53) by (apply Z.log2_lt_pow2; lia). lia.
Qed.

Lemma shr_fexp_keep (m e : Z) :
  -1074 <= e -> 0 <= m < 2 ^ 53 ->
  shr_fexp 53 1024 m e loc_Exact = (shr_record_of_loc m loc_Exact, e).
Proof.
  intros He Hm. unfold shr_fexp. rewrite fexp_binary64.
  assert (Zdigits2 m <= 53).
  { destruct (Z.eq_dec m 0) as [->|]; [cbn; lia|apply Zdigits2_le_53; lia]. }
  unfold shr.
  destruct (Z.max (Zdigits2 m + e - 53) (-1074) - e) eqn:E; try reflexivity. lia.
Qed.

Lemma shr_fexp_carry (e : Z) :
  -1074 <= e ->
  shr_fexp 53 1024 (2 ^ 53) e loc_Exact
  = (shr_record_of_loc (2 ^ 52) loc_Exact, e + 1).
Proof.
  intros He. unfold shr_fexp. rewrite fexp_binary64.
  replace (Zdigits2 (2 ^ 53)) with 54 by reflexivity.
  replace (Z.max (54 + e - 53) (-1074) - e) with 1 by lia.
  reflexivity.
Qed.

(** [binary_round_aux] on a located quotient with enough bits is
    [round_scaled]. *)
Lemma binary_round_aux_scaled (s : bool) (m e : Z) (l : location) (n d : Z) :
  0 <= n -> 0 < d -> locates (shr_record_of_loc m l) n d ->
  e <= fexp 53 1024 (Zdigits2 m + e) ->
  binary_round_aux 53 1024 s m e l = to_SF (round_scaled s n d (e + 1074)).
Proof.
  intros Hn Hd Hloc Hpre.
  assert (Em : m = n / d).
  { destruct Hloc as (H & _). destruct l as [|[]]; exact H. }
  assert (Hm : 0 <= m) by (subst m; apply Z.div_pos; lia).
  rewrite fexp_binary64 in Hpre.
  set (g := Z.max (Zdigits2 m + e - 53) (-1074)) in *.
  unfold binary_round_aux.
  unfold shr_fexp at 1. rewrite fexp_binary64. fold g.
  destruct (locates_shr (shr_record_of_loc m l) e (g - e) n d Hn Hd Hloc)
    as (L1 & E1).
  destruct (shr (shr_record_of_loc m l) e (g - e)) as [mrs' e'].
  cbn [fst snd] in L1, E1. rewrite Z.max_r in L1, E1 by lia.
  assert (Eg : e' = g) by lia. clear E1. subst e'.
  assert (Pg : 0 < 2 ^ (g - e)) by (apply pow2_pos; lia).
  rewrite (locates_round mrs' n (d * 2 ^ (g - e)) Hn ltac:(nia) L1).
  destruct (Z.eq_dec n 0) as [N0|N0].
  { (* zero *)
    subst n. unfold round_scaled. cbn [Z.eqb to_SF].
    assert (E0 : rne_int 0 (d * 2 ^ (g - e)) = 0).
    { rewrite <- (Z.mul_0_l (d * 2 ^ (g - e))) at 1.
      apply rne_int_exact. nia. }
    rewrite E0, shr_fexp_keep by (cbn; lia). reflexivity. }
  assert (Hn' : 0 < n) by lia.
  assert (Hsh : g + 1074 = Z.max 0 (quot_exp n d + (e + 1074) - 52)).
  { destruct (Z_lt_le_dec n d) as [Lt|Ge].
    - pose proof (quot_exp_neg n d Hn' Lt).
      assert (m = 0) by (subst m; apply Z.div_small; lia).
      subst g. rewrite H0 in *. cbn [Zdigits2] in *. lia.
    - rewrite (quot_exp_log2 n d Hd Ge), <- Em.
      assert (0 < m) by (subst m; apply Z.div_str_pos; lia).
      subst g. rewrite Zdigits2_log2 in * by lia. lia. }
  destruct (round_scaled_unfold s n d (e + 1074) (g + 1074) Hn' Hd Hsh ltac:(lia))
    as (Bm & Lm & ->).
  replace (g + 1074 - (e + 1074)) with (g - e) in * by lia.
  set (m1 := rne_int n (d * 2 ^ (g - e))) in *.
  assert (Hg : -1074 <= g) by (subst g; lia).
  destruct (Z.eqb_spec m1 0) as [Z0|Z0].
  { rewrite Z0, shr_fexp_keep by (cbn; lia). reflexivity. }
  destruct (Z.eqb_spec m1 (2 ^ 53)) as [C|C].
  { rewrite C, shr_fexp_carry by lia.
    cbn [shr_record_of_loc shr_m]. unfold max_shift.
    replace (2 ^ 52) with (Zpos (Z.to_pos (2 ^ 52))) at 1 by reflexivity.
    cbv iota.
    destruct (Z.leb_spec (g + 1) (1024 - 53)), (Z.ltb_spec 2045 (g + 1074 + 1));
      try lia; [|reflexivity].
    cbn [to_SF]. replace (Z.to_N (2 ^ 52)) with (Npos (Z.to_pos (2 ^ 52)))
      by reflexivity.
    cbv iota. f_equal. unfold ulp_exp. lia. }
  rewrite shr_fexp_keep by lia.
  cbn [shr_record_of_loc shr_m]. unfold max_shift.
  destruct m1 as [|p|p] eqn:Ep; [lia| |lia].
  destruct (Z.leb_spec g (1024 - 53)), (Z.ltb_spec 2045 (g + 1074));
    try lia; [|reflexivity].
  cbn [to_SF Z.to_N]. f_equal. unfold ulp_exp. lia.
Qed.

(** Valid binary64 values *)

Lemma bounded_inv (m : positive) (e : Z) :
  bounded 53 1024 m e = true ->
  e = Z.max (Z.log2 (Zpos m) + e - 52) (-1074) /\ e <= 971.
Proof.
  unfold bounded, canonical_mantissa. intros H.
  apply andb_prop in H as [C B]. apply Z.eqb_eq in C. apply Z.leb_le in B.
  rewrite fexp_binary64, digits2_log2 in C. lia.
Qed.

Lemma of_SF_finite (s : bool) (m : positive) (e : Z) :
  -1074 <= e ->
  of_SF (S754_finite s m e) = Fin s (Npos m) (Z.to_N (e + 1074))
  /\ Z.of_N (Z.to_N (e + 1074)) = e + 1074.
Proof. intros. split; [reflexivity|lia]. Qed.

Lemma to_of_SF (x : spec_float) :
  valid_binary 53 1024 x = true -> to_SF (of_SF x) = x.
Proof.
  destruct x as [s|s| |s m e]; try reflexivity.
  intros H. apply bounded_inv in H as (H & _).
  cbn [of_SF to_SF]. f_equal. unfold ulp_exp. lia.
Qed.

(** [round_scaled] sees only the value of its quotient. *)

Lemma quot_exp_shift (n d a : Z) :
  0 < n -> 0 < d -> 0 <= a -> quot_exp (n * 2 ^ a) d = quot_exp n d + a.
Proof.
  intros Hn Hd Ha. unfold quot_exp.
  replace (Z.log2 (n * 2 ^ a)) with (Z.log2 n + a)
    by (rewrite Z.log2_mul_pow2 by lia; lia).
  pose proof (Z.log2_nonneg n). pose proof (Z.log2_nonneg d).
  pose proof (pow2_pos a Ha) as Pa.
  rewrite (pow2_add (Z.log2 n) a) by lia.
  destruct (Z.ltb_spec (n * 2 ^ a * 2 ^ Z.log2 d) (d * (2 ^ Z.log2 n * 2 ^ a))),
           (Z.ltb_spec (n * 2 ^ Z.log2 d) (d * 2 ^ Z.log2 n)); try lia; exfalso.
  - assert (n * 2 ^ Z.log2 d * 2 ^ a < d * 2 ^ Z.log2 n * 2 ^ a) by lia.
    apply Z.mul_lt_mono_pos_r in H3; lia.
  - assert (n * 2 ^ Z.log2 d * 2 ^ a < d * 2 ^ Z.log2 n * 2 ^ a).
    { apply Z.mul_lt_mono_pos_r; lia. }
    lia.
Qed.

Lemma round_scaled_shift (neg : bool) (n d j a : Z) :
  0 < n -> 0 < d -> 0 <= a ->
  round_scaled neg (n * 2 ^ a) d (j - a) = round_scaled neg n d j.
Proof.
  intros Hn Hd Ha. pose proof (pow2_pos a Ha) as Pa.
  unfold round_scaled.
  destruct (Z.eqb_spec (n * 2 ^ a) 0); [nia|].
  destruct (Z.eqb_spec n 0); [lia|].
  rewrite quot_exp_shift by assumption.
  replace (quot_exp n d + a + (j - a) - 52) with (quot_exp n d + j - 52) by lia.
  set (sh := Z.max 0 (quot_exp n d + j - 52)).
  assert (Hs : 0 <= sh) by (unfold sh; lia).
  rewrite (round_mantissa (n * 2 ^ a) d (j - a) sh Hd Hs).
  rewrite (round_mantissa n d j sh Hd Hs).
  replace (rne_int (num (n * 2 ^ a) (j - a)) (den d (j - a) * 2 ^ sh))
    with (rne_int (num n j) (den d j * 2 ^ sh)); [reflexivity|].
  pose proof (pow2_pos sh Hs).
  pose proof (den_pos d j Hd). pose proof (den_pos d (j - a) Hd).
  apply rne_int_ratio; [nia|nia|].
  unfold num, den.
  assert (E : 2 ^ Z.max 0 j * 2 ^ Z.max 0 (- (j - a))
              = 2 ^ a * 2 ^ Z.max 0 (j - a) * 2 ^ Z.max 0 (- j)).
  { rewrite <- !pow2_add by lia. f_equal. lia. }
  transitivity (n * d * 2 ^ sh * (2 ^ Z.max 0 j * 2 ^ Z.max 0 (- (j - a)))); [ring|].
  rewrite E. ring.
Qed.

(** A canonical float is its own rounding. *)
Lemma round_scaled_canonical (s : bool) (m : positive) (k : Z) :
  k = Z.max (Z.log2 (Zpos m) + k - 52) 0 -> k <= 2045 ->
  round_scaled s (Zpos m) 1 k = Fin s (Npos m) (Z.to_N k).
Proof.
  intros Hk Hmax.
  assert (Q : quot_exp (Zpos m) 1 = Z.log2 (Zpos m)).
  { rewrite quot_exp_log2, Z.div_1_r by lia. reflexivity. }
  destruct (round_scaled_unfold s (Zpos m) 1 k k ltac:(lia) ltac:(lia)
              ltac:(rewrite Q; lia) ltac:(lia)) as (_ & _ & ->).
  rewrite Z.sub_diag. change (1 * 2 ^ 0) with 1.
  replace (rne_int (Zpos m) 1) with (Zpos m)
    by (rewrite <- (Z.mul_1_r (Zpos m)) at 2; rewrite rne_int_exact; lia).
  assert (Z.pos m < 2 ^ 53).
  { apply Z.log2_lt_pow2; lia. }
  destruct (Z.eqb_spec (Zpos m) 0); [lia|].
  destruct (Z.eqb_spec (Zpos m) (2 ^ 53)); [lia|].
  unfold max_shift. destruct (Z.ltb_spec 2045 k); [lia|]. reflexivity.
Qed.

(** *** Multiplication *)

Theorem fmul_SFmul (x y : spec_float) :
  valid_binary 53 1024 x = true -> valid_binary 53 1024 y = true ->
  to_SF (fmul (of_SF x) (of_SF y)) = SFmul 53 1024 x y.
Proof.
  intros Vx Vy.
  destruct x as [sx|sx| |sx mx ex], y as [sy|sy| |sy my ey];
    try reflexivity;
    try (cbn [of_SF fmul to_SF SFmul N.eqb]; rewrite xorb_comm; reflexivity).
  apply bounded_inv in Vx as (Cx & Bx). apply bounded_inv in Vy as (Cy & By).
  { unfold SFmul.
    rewrite (binary_round_aux_scaled (xorb sx sy) (Zpos (mx * my)) (ex + ey)
               loc_Exact (Zpos (mx * my)) 1); try lia.
    + f_equal. cbn [of_SF fmul]. f_equal. unfold ulp_exp. lia.
    + apply locates_exact.
    + rewrite fexp_binary64, Zdigits2_log2 by lia.
      pose proof (Z.log2_mul_below (Zpos mx) (Zpos my) ltac:(lia) ltac:(lia)).
      rewrite Pos2Z.inj_mul.
      pose proof (Z.log2_nonneg (Zpos mx)). pose proof (Z.log2_nonneg (Zpos my)).
      lia. }
Qed.

Lemma round_scaled_units (s : bool) (n a : Z) :
  0 < n -> 0 <= a ->
  round_scaled s (n * 2 ^ a) 1 0 = round_scaled s n 1 a.
Proof.
  intros Hn Ha. rewrite <- (round_scaled_shift s n 1 a a) by lia.
  rewrite Z.sub_diag. reflexivity.
Qed.

(** *** Addition and subtraction *)

Lemma pos_iter_xO (m d : positive) :
  Zpos (Pos.iter xO m d) = Zpos m * 2 ^ Zpos d.
Proof.
  induction d as [|d IH] using Pos.peano_ind.
  - cbn. lia.
  - rewrite Pos.iter_succ, Pos2Z.inj_xO, IH, Pos2Z.inj_succ, Z.pow_succ_r by lia.
    ring.
Qed.

Lemma shl_align_spec (m : positive) (e e' : Z) :
  Zpos (fst (shl_align m e e')) = Zpos m * 2 ^ (e - Z.min e e')
  /\ snd (shl_align m e e') = Z.min e e'.
Proof.
  unfold shl_align. destruct (e' - e) as [|p|p] eqn:E; cbn [fst snd].
  - rewrite Z.min_l, Z.sub_diag by lia. change (2 ^ 0) with 1. lia.
  - rewrite Z.min_l, Z.sub_diag by lia. change (2 ^ 0) with 1. lia.
  - rewrite Z.min_r by lia. rewrite pos_iter_xO.
    split; [|reflexivity]. f_equal. f_equal. lia.
Qed.

Lemma binary_round_scaled (s : bool) (p : positive) (e : Z) :
  binary_round 53 1024 s p e = to_SF (round_scaled s (Zpos p) 1 (e + 1074)).
Proof.
  unfold binary_round.
  set (f := fexp 53 1024 (Zpos (digits2_pos p) + e)).
  destruct (shl_align_spec p e f) as (Em & Ee).
  destruct (shl_align p e f) as [mz ez]. cbn [fst snd] in Em, Ee.
  assert (Ha : 0 <= e - ez) by lia.
  rewrite (binary_round_aux_scaled s (Zpos mz) ez loc_Exact (Zpos mz) 1);
    try lia.
  - f_equal. rewrite Em, Ee.
    replace (Z.min e f + 1074) with (e + 1074 - (e - Z.min e f)) by lia.
    apply round_scaled_shift; lia.
  - apply locates_exact.
  - rewrite fexp_binary64, Zdigits2_log2, Em by lia.
    rewrite Z.log2_mul_pow2 by lia.
    assert (Ef : f = Z.max (Z.log2 (Zpos p) + 1 + e - 53) (-1074))
      by (unfold f; rewrite fexp_binary64, digits2_log2; reflexivity).
    clearbody f. lia.
Qed.

Lemma binary_normalize_scaled (z e : Z) :
  -1074 <= e ->
  binary_normalize 53 1024 z e false
  = to_SF (if z =? 0 then Fin false 0 0
           else round_scaled (z <? 0) (Z.abs (z * 2 ^ (e + 1074))) 1 0).
Proof.
  intros He. pose proof (pow2_pos (e + 1074) ltac:(lia)) as P.
  assert (R : forall s p, binary_round 53 1024 s p e
                = to_SF (round_scaled s (Zpos p * 2 ^ (e + 1074)) 1 0)).
  { intros s p. rewrite binary_round_scaled, round_scaled_units by lia.
    reflexivity. }
  destruct z as [|p|p]; cbn [binary_normalize Z.eqb Z.ltb Z.compare].
  - reflexivity.
  - rewrite R. f_equal. f_equal. lia.
  - rewrite R. f_equal. f_equal. lia.
Qed.

(** The sum of two finite floats, on their values in units. *)
Lemma fadd_units (sx sy : bool) (mx kx my ky : N) :
  fadd (Fin sx mx kx) (Fin sy my ky)
  = let z := sval sx mx kx + sval sy my ky in
    if z =? 0 then Fin (sx && sy) 0 0
    else round_scaled (z <? 0) (Z.abs z) 1 0.
Proof.
  unfold fadd. cbv zeta.
  set (k := N.min kx ky).
  set (z := sval sx mx (kx - k) + sval sy my (ky - k)).
  assert (Ez : z * 2 ^ Z.of_N k = sval sx mx kx + sval sy my ky).
  { unfold z. rewrite Z.mul_add_distr_r, !sval_shift by (unfold k; lia).
    reflexivity. }
  pose proof (pow2_pos (Z.of_N k) ltac:(lia)) as Pk.
  rewrite <- Ez.
  destruct (Z.eqb_spec z 0) as [Z0|Z0].
  - rewrite Z0. reflexivity.
  - destruct (Z.eqb_spec (z * 2 ^ Z.of_N k) 0); [nia|].
    replace (z * 2 ^ Z.of_N k <? 0) with (z <? 0)
      by (destruct (Z.ltb_spec z 0), (Z.ltb_spec (z * 2 ^ Z.of_N k) 0); nia).
    rewrite Z.abs_mul, (Z.abs_eq (2 ^ Z.of_N k)) by lia.
    rewrite round_scaled_units by lia. reflexivity.
Qed.

Lemma sval_of_SF (s : bool) (m : positive) (e ez : Z) :
  -1074 <= ez <= e ->
  sval s (Npos m) (Z.to_N (e + 1074))
  = cond_Zopp s (Zpos (fst (shl_align m e ez))) * 2 ^ (ez + 1074).
Proof.
  intros H. destruct (shl_align_spec m e ez) as (-> & _).
  rewrite Z.min_r by lia. unfold sval, mag, cond_Zopp.
  rewrite Z2N.id by lia.
  rewrite (pow2_split (ez + 1074) (e + 1074)) by lia.
  replace (e + 1074 - (ez + 1074)) with (e - ez) by lia.
  destruct s; cbn [Z.of_N]; ring.
Qed.

Theorem fadd_SFadd (x y : spec_float) :
  valid_binary 53 1024 x = true -> valid_binary 53 1024 y = true ->
  to_SF (fadd (of_SF x) (of_SF y)) = SFadd 53 1024 x y.
Proof.
  intros Vx Vy.
  destruct x as [sx|sx| |sx mx ex], y as [sy|sy| |sy my ey];
    try reflexivity.
  - destruct sx, sy; reflexivity.
  - (* zero + finite *)
    apply bounded_inv in Vy as (Cy & By).
    cbn [of_SF SFadd]. rewrite fadd_units. cbv zeta.
    assert (E : sval sx 0 0 + sval sy (Npos my) (Z.to_N (ey + ulp_exp))
                = signed sy (Zpos my * 2 ^ (ey + 1074))).
    { unfold sval, mag, signed, ulp_exp. rewrite Z2N.id by lia.
      destruct sx, sy; cbn [Z.of_N]; lia. }
    rewrite E. pose proof (pow2_pos (ey + 1074) ltac:(lia)) as P.
    assert (Hs : 0 < Zpos my * 2 ^ (ey + 1074)) by nia.
    set (v := Zpos my * 2 ^ (ey + 1074)) in *.
    destruct (Z.eqb_spec (signed sy v) 0) as [Z0|Z0];
      [unfold signed in Z0; destruct sy; lia|].
    replace (signed sy v <? 0) with sy
      by (unfold signed; destruct sy, (Z.ltb_spec (- v) 0), (Z.ltb_spec v 0); lia).
    replace (Z.abs (signed sy v)) with v by (unfold signed; destruct sy; lia).
    unfold v. rewrite round_scaled_units by lia.
    rewrite round_scaled_canonical by lia.
    cbn [to_SF]. f_equal. unfold ulp_exp. lia.
  - destruct sx, sy; reflexivity.
  - (* finite + zero *)
    apply bounded_inv in Vx as (Cx & Bx).
    cbn [of_SF SFadd]. rewrite fadd_units. cbv zeta.
    assert (E : sval sx (Npos mx) (Z.to_N (ex + ulp_exp)) + sval sy 0 0
                = signed sx (Zpos mx * 2 ^ (ex + 1074))).
    { unfold sval, mag, signed, ulp_exp. rewrite Z2N.id by lia.
      destruct sx, sy; cbn [Z.of_N]; lia. }
    rewrite E. pose proof (pow2_pos (ex + 1074) ltac:(lia)) as P.
    assert (Hs : 0 < Zpos mx * 2 ^ (ex + 1074)) by nia.
    set (v := Zpos mx * 2 ^ (ex + 1074)) in *.
    destruct (Z.eqb_spec (signed sx v) 0) as [Z0|Z0];
      [unfold signed in Z0; destruct sx; lia|].
    replace (signed sx v <? 0) with sx
      by (unfold signed; destruct sx, (Z.ltb_spec (- v) 0), (Z.ltb_spec v 0); lia).
    replace (Z.abs (signed sx v)) with v by (unfold signed; destruct sx; lia).
    unfold v. rewrite round_scaled_units by lia.
    rewrite round_scaled_canonical by lia.
    cbn [to_SF]. f_equal. unfold ulp_exp. lia.
  - (* finite + finite *)
    apply bounded_inv in Vx as (Cx & Bx). apply bounded_inv in Vy as (Cy & By).
    cbn [of_SF SFadd]. rewrite fadd_units. cbv zeta.
    set (ez := Z.min ex ey).
    rewrite binary_normalize_scaled by (unfold ez; lia).
    unfold ulp_exp.
    rewrite (sval_of_SF sx mx ex ez), (sval_of_SF sy my ey ez) by (unfold ez; lia).
    rewrite <- Z.mul_add_distr_r.
    set (z := cond_Zopp sx (Zpos (fst (shl_align mx ex ez)))
              + cond_Zopp sy (Zpos (fst (shl_align my ey ez)))).
    pose proof (pow2_pos (ez + 1074) ltac:(unfold ez; lia)) as P.
    destruct (Z.eqb_spec z 0) as [Z0|Z0].
    + rewrite Z0, Z.mul_0_l. cbn [Z.eqb to_SF].
      destruct sx, sy; try reflexivity; exfalso;
        unfold z, cond_Zopp in Z0; lia.
    + destruct (Z.eqb_spec (z * 2 ^ (ez + 1074)) 0); [nia|].
      replace (z * 2 ^ (ez + 1074) <? 0) with (z <? 0)
        by (destruct (Z.ltb_spec z 0), (Z.ltb_spec (z * 2 ^ (ez + 1074)) 0); nia).
      reflexivity.
Qed.

Lemma fneg_SFopp (y : spec_float) : fneg (of_SF y) = of_SF (SFopp y).
Proof. destruct y; reflexivity. Qed.

Lemma valid_SFopp (y : spec_float) :
  valid_binary 53 1024 (SFopp y) = valid_binary 53 1024 y.
Proof. destruct y; reflexivity. Qed.

Lemma SFsub_SFadd (x y : spec_float) :
  SFsub 53 1024 x y = SFadd 53 1024 x (SFopp y).
Proof. destruct x as [[]|[]| |[] ? ?], y as [[]|[]| |[] ? ?]; reflexivity. Qed.

Theorem fsub_SFsub (x y : spec_float) :
  valid_binary 53 1024 x = true -> valid_binary 53 1024 y = true ->
  to_SF (fsub (of_SF x) (of_SF y)) = SFsub 53 1024 x y.
Proof.
  intros Vx Vy. unfold fsub.
  rewrite fneg_SFopp, SFsub_SFadd. apply fadd_SFadd; [exact Vx|].
  rewrite valid_SFopp. exact Vy.
Qed.

(** *** Division *)

Lemma new_location_loc_of (n d : Z) :
  0 < d -> new_location d (n mod d) = loc_of n d.
Proof.
  intros Hd. pose proof (Z.mod_pos_bound n d Hd) as B.
  assert (E : new_location d
              = if Z.even d then new_location_even d else new_location_odd d)
    by reflexivity.
  rewrite E. clear E. destruct (Z.even d) eqn:Ev; [reflexivity|].
  change (new_location_odd d (n mod d)) with
    (if n mod d =? 0 then loc_Exact
     else loc_Inexact match 2 * (n mod d) + 1 ?= d with
                      | Eq => Lt | Lt => Lt | Gt => Gt
                      end).
  unfold loc_of.
  destruct (Z.eqb_spec (n mod d) 0) as [E|E]; [reflexivity|].
  f_equal.
  assert (Od : Z.odd d = true) by (rewrite <- Z.negb_even, Ev; reflexivity).
  apply Z.odd_spec in Od as (h & Eh).
  destruct (Z.compare_spec (2 * (n mod d) + 1) d),
           (Z.compare_spec (2 * (n mod d)) d); try reflexivity; lia.
Qed.

Lemma quotient_digits (m1 m2 s : Z) :
  0 < m1 -> 0 < m2 -> 0 <= s -> 0 < m1 * 2 ^ s / m2 ->
  Z.log2 m1 + s - Z.log2 m2 - 1 <= Z.log2 (m1 * 2 ^ s / m2).
Proof.
  intros H1 H2 Hs Hq.
  set (t := Z.log2 m1 + s - Z.log2 m2 - 1).
  destruct (Z_lt_le_dec t 0) as [Ht|Ht].
  - pose proof (Z.log2_nonneg (m1 * 2 ^ s / m2)). lia.
  - apply Z.log2_le_pow2; [exact Hq|].
    apply Z.div_le_lower_bound; [exact H2|].
    pose proof (Z.log2_spec m1 H1) as (L1 & _).
    pose proof (Z.log2_spec m2 H2) as (_ & U2).
    pose proof (pow2_pos t Ht) as Pt. pose proof (pow2_pos s Hs) as Ps.
    apply Z.le_trans with (2 ^ Z.succ (Z.log2 m2) * 2 ^ t).
    + apply Z.mul_le_mono_nonneg_r; lia.
    + rewrite <- pow2_add by (pose proof (Z.log2_nonneg m2); lia).
      replace (Z.succ (Z.log2 m2) + t) with (Z.log2 m1 + s) by (unfold t; lia).
      rewrite pow2_add by (pose proof (Z.log2_nonneg m1); lia).
      apply Z.mul_le_mono_nonneg_r; lia.
Qed.

Lemma SFdiv_core_scaled (s : bool) (mx my : positive) (ex ey : Z) :
  bounded 53 1024 mx ex = true -> bounded 53 1024 my ey = true ->
  (let '(mz, ez, lz) := SFdiv_core_binary 53 1024 (Zpos mx) ex (Zpos my) ey in
   binary_round_aux 53 1024 s mz ez lz)
  = to_SF (round_scaled s (Zpos mx) (Zpos my) (ex - ey + 1074)).
Proof.
  intros Bx By.
  apply bounded_inv in Bx as (Cx & Bx). apply bounded_inv in By as (Cy & By).
  unfold SFdiv_core_binary.
  rewrite !Zdigits2_log2, fexp_binary64 by lia.
  set (lx := Z.log2 (Zpos mx)) in *. set (ly := Z.log2 (Zpos my)) in *.
  assert (Lx : 0 <= lx) by apply Z.log2_nonneg.
  assert (Ly : 0 <= ly) by apply Z.log2_nonneg.
  set (e' := Z.min (Z.max (lx + 1 + ex - (ly + 1 + ey) - 53) (-1074)) (ex - ey)).
  set (sh := ex - ey - e').
  assert (Hs : 0 <= sh) by (unfold sh, e'; lia).
  set (m' := match sh with Z0 => Zpos mx | Zpos _ => Z.shiftl (Zpos mx) sh
             | Zneg _ => 0 end).
  assert (Em : m' = Zpos mx * 2 ^ sh).
  { unfold m'. destruct sh as [|p|p] eqn:E.
    - change (2 ^ 0) with 1. lia.
    - apply Z.shiftl_mul_pow2. lia.
    - lia. }
  clearbody m'. subst m'.
  pose proof (pow2_pos sh Hs) as Ps.
  set (n := Zpos mx * 2 ^ sh).
  assert (Hn : 0 < n) by (unfold n; nia).
  rewrite (surjective_pairing (Z.div_eucl n (Zpos my))).
  change (fst (Z.div_eucl n (Zpos my))) with (n / Zpos my).
  change (snd (Z.div_eucl n (Zpos my))) with (n mod Zpos my).
  rewrite new_location_loc_of by lia.
  rewrite (binary_round_aux_scaled s (n / Zpos my) e' (loc_of n (Zpos my))
             n (Zpos my)); try lia.
  - f_equal. unfold n.
    replace (e' + 1074) with (ex - ey + 1074 - sh) by (unfold sh; lia).
    apply round_scaled_shift; lia.
  - split; [destruct (loc_of n (Zpos my)) as [|[]]; reflexivity|reflexivity].
  - rewrite fexp_binary64.
    assert (Hq : 0 <= n / Zpos my) by (apply Z.div_pos; lia).
    destruct (Z.eq_dec (n / Zpos my) 0) as [Q0|Q0].
    + rewrite Q0. cbn [Zdigits2].
      assert (Hlt : n < Zpos my).
      { apply Z.div_small_iff in Q0; lia. }
      destruct (Z_le_gt_dec e' (-1074)) as [|Hgt]; [lia|]. exfalso.
      assert (E1 : e' = lx + ex - ly - ey - 53) by (unfold e'; lia).
      assert (Es : sh = 53 - lx + ly) by (unfold sh; lia).
      pose proof (Z.log2_spec (Zpos mx) ltac:(lia)) as (L1 & _).
      pose proof (Z.log2_spec (Zpos my) ltac:(lia)) as (_ & U2).
      fold lx in L1. fold ly in U2.
      assert (2 ^ Z.succ ly <= n).
      { unfold n. rewrite Es.
        replace (53 - lx + ly) with (53 - lx - 1 + Z.succ ly) by lia.
        assert (lx <= 52) by lia.
        rewrite pow2_add by lia.
        pose proof (pow2_pos (53 - lx - 1) ltac:(lia)) as Pa.
        pose proof (pow2_pos (Z.succ ly) ltac:(lia)) as Pb.
        rewrite Z.mul_assoc.
        apply Z.le_trans with (1 * 2 ^ Z.succ ly); [lia|].
        apply Z.mul_le_mono_nonneg_r; [lia|].
        set (u := 2 ^ (53 - lx - 1)) in *. clearbody u. nia. }
      lia.
    + pose proof (quotient_digits (Zpos mx) (Zpos my) sh ltac:(lia) ltac:(lia)
                    Hs ltac:(fold n; lia)) as D.
      fold n lx ly in D.
      rewrite Zdigits2_log2 by lia. unfold e', sh in *. lia.
Qed.

Theorem fdiv_SFdiv (x y : spec_float) :
  valid_binary 53 1024 x = true -> valid_binary 53 1024 y = true ->
  match fdiv (of_SF x) (of_SF y) with
  | Ok z => to_SF z = SFdiv 53 1024 x y /\ is_zero (of_SF y) = false
  | Raise e => e = ZeroDivisionError /\ is_zero (of_SF y) = true
  end.
Proof.
  intros Vx Vy.
  destruct x as [sx|sx| |sx mx ex], y as [sy|sy| |sy my ey];
    cbn [of_SF fdiv is_zero to_SF SFdiv]; try (split; reflexivity).
  cbn [valid_binary] in Vx, Vy. split; [|reflexivity].
  rewrite SFdiv_core_scaled by assumption.
  unfold ulp_exp. rewrite !Z2N.id
    by (apply bounded_inv in Vx; apply bounded_inv in Vy; lia).
  f_equal. f_equal. lia.
Qed.

(** *** Comparison *)

Lemma canonical_order (mx my : positive) (ex ey : Z) :
  bounded 53 1024 mx ex = true -> bounded 53 1024 my ey = true ->
  ex < ey ->
  Zpos mx * 2 ^ (ex + 1074) < Zpos my * 2 ^ (ey + 1074).
Proof.
  intros Bx By H.
  apply bounded_inv in Bx as (Cx & Bx). apply bounded_inv in By as (Cy & By).
  pose proof (Z.log2_spec (Zpos mx) ltac:(lia)) as (_ & Ux).
  pose proof (Z.log2_spec (Zpos my) ltac:(lia)) as (Ly & _).
  assert (Hx : Z.log2 (Zpos mx) <= 52) by lia.
  assert (Hy : Z.log2 (Zpos my) = 52) by lia.
  rewrite Hy in Ly.
  assert (Ux' : Zpos mx < 2 ^ 53).
  { apply Z.lt_le_trans with (1 := Ux). apply Z.pow_le_mono_r; lia. }
  rewrite (pow2_split (ex + 1074) (ey + 1074)) by lia.
  pose proof (pow2_pos (ex + 1074) ltac:(lia)) as P.
  set (g := ey + 1074 - (ex + 1074)).
  replace (Zpos my * (2 ^ (ex + 1074) * 2 ^ g))
    with (Zpos my * 2 ^ g * 2 ^ (ex + 1074)) by ring.
  apply Z.mul_lt_mono_pos_r; [exact P|].
  apply Z.lt_le_trans with (1 := Ux').
  apply Z.le_trans with (2 ^ 52 * 2 ^ g).
  - change (2 ^ 53) with (2 ^ 52 * 2 ^ 1).
    apply Z.mul_le_mono_nonneg_l; [lia|].
    apply Z.pow_le_mono_r; unfold g; lia.
  - apply Z.mul_le_mono_nonneg_r; [|exact Ly].
    apply Z.pow_nonneg. lia.
Qed.

Lemma finite_below_overflow (m : positive) (e : Z) :
  bounded 53 1024 m e = true ->
  0 < Zpos m * 2 ^ (e + 1074) < overflow_mag.
Proof.
  intros B. apply bounded_inv in B as (C & B).
  pose proof (Z.log2_spec (Zpos m) ltac:(lia)) as (_ & U).
  assert (U' : Zpos m < 2 ^ 53).
  { apply Z.lt_le_trans with (1 := U). apply Z.pow_le_mono_r; lia. }
  pose proof (pow2_pos (e + 1074) ltac:(lia)) as P.
  split; [apply Z.mul_pos_pos; lia|].
  replace overflow_mag with (2 ^ 53 * 2 ^ 2045)
    by (unfold overflow_mag; rewrite <- pow2_add by lia; reflexivity).
  apply Z.lt_le_trans with (2 ^ 53 * 2 ^ (e + 1074)).
  - apply Z.mul_lt_mono_pos_r; assumption.
  - apply Z.mul_le_mono_nonneg_l; [apply Z.pow_nonneg; lia|].
    apply Z.pow_le_mono_r; lia.
Qed.

Theorem ext_SFcompare (x y : spec_float) :
  valid_binary 53 1024 x = true -> valid_binary 53 1024 y = true ->
  SFcompare x y
  = if is_nan (of_SF x) || is_nan (of_SF y) then None
    else Some (ext (of_SF x) ?= ext (of_SF y)).
Proof.
  intros Vx Vy. pose proof overflow_mag_pos as T.
  assert (Lt' : forall a b : Z, a < b -> (a ?= b) = Lt)
    by (intros a b; apply Z.compare_lt_iff).
  assert (Gt' : forall a b : Z, b < a -> (a ?= b) = Gt)
    by (intros a b; apply Z.compare_gt_iff).
  destruct x as [sx|sx| |sx mx ex], y as [sy|sy| |sy my ey];
    try reflexivity; cbn [valid_binary] in Vx, Vy;
    cbn [of_SF is_nan orb SFcompare ext]; f_equal;
    try (pose proof (finite_below_overflow _ _ Vx) as Fx;
         pose proof (bounded_inv _ _ Vx) as (Cx & Bx));
    try (pose proof (finite_below_overflow _ _ Vy) as Fy;
         pose proof (bounded_inv _ _ Vy) as (Cy & By));
    unfold sval, mag, ulp_exp; rewrite ?Z2N.id by lia;
    cbn [Z.of_N];
    try set (vx := Zpos mx * 2 ^ (ex + 1074)) in *;
    try set (vy := Zpos my * 2 ^ (ey + 1074)) in *;
    set (T' := overflow_mag) in *; clearbody T'.
  all: try solve
    [ repeat match goal with b : bool |- _ => destruct b end;
      symmetry;
      first [apply Z.compare_refl | apply Lt'; lia | apply Gt'; lia] ].
  assert (Heq : ex = ey -> (Zpos mx ?= Zpos my) = (vx ?= vy)).
    { intros ->. unfold vx, vy.
      pose proof (pow2_pos (ey + 1074) ltac:(lia)) as P.
      destruct (Z.compare_spec (Zpos mx) (Zpos my)) as [E|E|E]; symmetry.
      - rewrite E. apply Z.compare_refl.
      - apply Lt'. apply Z.mul_lt_mono_pos_r; assumption.
      - apply Gt'. apply Z.mul_lt_mono_pos_r; assumption. }
    assert (Hlt : ex < ey -> vx < vy) by (apply canonical_order; assumption).
    assert (Hgt : ey < ex -> vy < vx) by (apply canonical_order; assumption).
    change (Pcompare mx my Eq) with (Zpos mx ?= Zpos my).
    destruct sx, sy.
    + destruct (Z.compare_spec ex ey) as [E|E|E].
      * rewrite Z.compare_opp, (Z.compare_antisym vx vy), (Heq E). reflexivity.
      * symmetry. apply Gt'. specialize (Hlt E). lia.
      * symmetry. apply Lt'. specialize (Hgt E). lia.
    + symmetry. apply Lt'. lia.
    + symmetry. apply Gt'. lia.
    + destruct (Z.compare_spec ex ey) as [E|E|E].
      * apply Heq, E.
      * symmetry. apply Lt'. apply Hlt, E.
      * symmetry. apply Gt'. apply Hgt, E.
Qed.

Theorem flt_SFltb (x y : spec_float) :
  valid_binary 53 1024 x = true -> valid_binary 53 1024 y = true ->
  flt (of_SF x) (of_SF y) = SFltb x y.
Proof.
  intros Vx Vy. unfold flt, SFltb. rewrite (ext_SFcompare x y Vx Vy).
  destruct (is_nan (of_SF x)), (is_nan (of_SF y)); reflexivity.
Qed.

Theorem fle_SFleb (x y : spec_float) :
  valid_binary 53 1024 x = true -> valid_binary 53 1024 y = true ->
  fle (of_SF x) (of_SF y) = SFleb x y.
Proof.
  intros Vx Vy. unfold fle, SFleb. rewrite (ext_SFcompare x y Vx Vy).
  destruct (is_nan (of_SF x)), (is_nan (of_SF y)); reflexivity.
Qed.

Theorem feq_SFeqb (x y : spec_float) :
  valid_binary 53 1024 x = true -> valid_binary 53 1024 y = true ->
  feq (of_SF x) (of_SF y) = SFeqb x y.
Proof.
  intros Vx Vy. unfold feq, SFeqb. rewrite (ext_SFcompare x y Vx Vy).
  destruct (is_nan (of_SF x)), (is_nan (of_SF y)); try reflexivity.
  cbn [negb andb orb]. rewrite Z.eqb_compare. reflexivity.
Qed.

(** *** The floats the operations return *)

Lemma canonical_Fin (neg : bool) (m k : Z) :
  0 < m < 2 ^ 53 -> 0 <= k <= max_shift -> (0 < k -> 2 ^ 52 <= m) ->
  canonical (Fin neg (Z.to_N m) (Z.to_N k)) = true.
Proof.
  intros Hm Hk Hl. unfold canonical.
  destruct (Z.to_N m) as [|p] eqn:E; [lia|]. rewrite <- E.
  rewrite !Z2N.id by lia.
  apply andb_true_intro. split; [apply andb_true_intro; split|].
  - apply Z.ltb_lt. lia.
  - apply Z.leb_le. lia.
  - apply orb_true_iff. destruct (Z.eq_dec k 0) as [->|Hk0].
    + left. reflexivity.
    + right. apply Z.leb_le. apply Hl. lia.
Qed.

Lemma round_scaled_is_canonical (neg : bool) (n d j : Z) :
  0 <= n -> 0 < d -> canonical (round_scaled neg n d j) = true.
Proof.
  intros Hn Hd.
  pose proof (pow2_pos (Z.max 0 j) ltac:(lia)) as Pp.
  pose proof (pow2_pos (Z.max 0 (- j)) ltac:(lia)) as Pm.
  unfold round_scaled.
  destruct (Z.eqb_spec n 0) as [->|Hn0]; [reflexivity|].
  assert (Hn' : 0 < n) by lia.
  assert (HN : 0 <= num n j) by (unfold num; nia).
  assert (HD : 0 < den d j) by (unfold den; nia).
  pose proof (round_shift n d j Hn' Hd) as Esh.
  set (sh := Z.max 0 (quot_exp n d + j - 52)) in *.
  assert (Hsh : 0 <= sh) by (unfold sh; lia).
  rewrite (round_mantissa n d j sh Hd Hsh).
  pose proof (mantissa_upper _ _ HN HD) as MU.
  pose proof (mantissa_lower _ _ HN HD) as ML.
  rewrite Esh in *.
  set (m := rne_int (num n j) (den d j * 2 ^ sh)) in *.
  pose proof (pow2_pos sh Hsh) as Ps.
  assert (Hm : 0 <= m) by (apply rne_int_lower; nia).
  assert (E53 : 2 ^ 53 = 2 ^ 52 * 2) by reflexivity.
  pose proof (pow2_pos 52 ltac:(lia)) as P52.
  destruct (Z.eqb_spec m 0) as [->|Hm0]; [reflexivity|].
  assert (Hcase : forall m' sh', 0 < m' < 2 ^ 53 -> 0 <= sh' ->
            (0 < sh' -> 2 ^ 52 <= m') ->
            canonical (if max_shift <? sh' then Inf neg
                       else Fin neg (Z.to_N m') (Z.to_N sh')) = true).
  { intros m' sh' Hm' Hs' Hl.
    destruct (Z.ltb_spec max_shift sh') as [O|O]; [reflexivity|].
    apply canonical_Fin; [exact Hm'|lia|exact Hl]. }
  destruct (Z.eqb_spec m (2 ^ 53)) as [E|NE]; apply Hcase; lia.
Qed.

Lemma canonical_fneg (x : float) : canonical (fneg x) = canonical x.
Proof. destruct x as [| |s [|m] k]; reflexivity. Qed.

Lemma fadd_canonical (x y : float) : canonical (fadd x y) = true.
Proof.
  destruct x as [|sx|sx mx kx], y as [|sy|sy my ky]; cbn [fadd];
    try reflexivity.
  - destruct (Bool.eqb sx sy); reflexivity.
  - cbv zeta.
    destruct (_ =? 0); [reflexivity|].
    apply round_scaled_is_canonical; lia.
Qed.

Lemma fsub_canonical (x y : float) : canonical (fsub x y) = true.
Proof. apply fadd_canonical. Qed.

Lemma fmul_canonical (x y : float) : canonical (fmul x y) = true.
Proof.
  destruct x as [|sx|sx mx kx], y as [|sy|sy my ky]; cbn [fmul];
    try reflexivity.
  - destruct (my =? 0)%N; reflexivity.
  - destruct (mx =? 0)%N; reflexivity.
  - apply round_scaled_is_canonical; lia.
Qed.

Lemma fdiv_canonical (x y z : float) :
  fdiv x y = Ok z -> canonical z = true.
Proof.
  destruct x as [|sx|sx mx kx], y as [|sy|sy [|my] ky]; cbn [fdiv];
    intros E; inversion E; subst; try reflexivity.
  apply round_scaled_is_canonical; lia.
Qed.

(** The canonical floats are the valid binary64 values of [SpecFloat]. *)
Lemma canonical_valid (z : float) :
  canonical z = true ->
  valid_binary 53 1024 (to_SF z) = true /\ of_SF (to_SF z) = z.
Proof.
  destruct z as [|s|s [|m] k]; cbn [canonical to_SF valid_binary of_SF];
    intros C; try (split; reflexivity).
  - apply N.eqb_eq in C. subst k. split; reflexivity.
  - apply andb_prop in C as [C C3]. apply andb_prop in C as [C1 C2].
    apply Z.ltb_lt in C1. apply Z.leb_le in C2. unfold max_shift in C2.
    apply orb_true_iff in C3.
    assert (L : Z.log2 (Zpos m) <= 52).
    { assert (Z.log2 (Zpos m) < 53) by (apply Z.log2_lt_pow2; lia). lia. }
    split.
    + unfold bounded, canonical_mantissa.
      apply andb_true_intro. split.
      * apply Z.eqb_eq. rewrite fexp_binary64, digits2_log2.
        unfold ulp_exp. destruct C3 as [C3|C3].
        -- apply N.eqb_eq in C3. subst k. cbn [Z.of_N]. lia.
        -- apply Z.leb_le in C3.
           assert (52 <= Z.log2 (Zpos m)) by (apply Z.log2_le_pow2; lia).
           lia.
      * apply Z.leb_le. unfold ulp_exp. lia.
    + f_equal. unfold ulp_exp. lia.
Qed.

Lemma valid_canonical (x : spec_float) :
  valid_binary 53 1024 x = true -> canonical (of_SF x) = true.
Proof.
  destruct x as [s|s| |s m e]; try reflexivity.
  cbn [valid_binary of_SF]. intros B.
  apply bounded_inv in B as (C & B). unfold ulp_exp.
  pose proof (Z.log2_spec (Zpos m) ltac:(lia)) as (Lo & Up).
  assert (L : Z.log2 (Zpos m) <= 52) by lia.
  replace (Npos m) with (Z.to_N (Zpos m)) by reflexivity.
  apply canonical_Fin.
  - split; [lia|]. apply Z.lt_le_trans with (1 := Up).
    apply Z.pow_le_mono_r; lia.
  - unfold max_shift. lia.
  - intros K. assert (E : Z.log2 (Zpos m) = 52) by lia.
    rewrite E in Lo. exact Lo.
Qed.

(** The operations, on canonical floats, are those of binary64. *)
Theorem arithmetic_is_binary64 (x y : float) :
  canonical x = true -> canonical y = true ->
  to_SF (fadd x y) = SFadd 53 1024 (to_SF x) (to_SF y)
  /\ to_SF (fsub x y) = SFsub 53 1024 (to_SF x) (to_SF y)
  /\ to_SF (fmul x y) = SFmul 53 1024 (to_SF x) (to_SF y)
  /\ match fdiv x y with
     | Ok z => to_SF z = SFdiv 53 1024 (to_SF x) (to_SF y)
               /\ is_zero y = false
     | Raise e => e = ZeroDivisionError /\ is_zero y = true
     end
  /\ flt x y = SFltb (to_SF x) (to_SF y)
  /\ fle x y = SFleb (to_SF x) (to_SF y)
  /\ feq x y = SFeqb (to_SF x) (to_SF y).
Proof.
  intros Cx Cy.
  destruct (canonical_valid x Cx) as (Vx & Ex).
  destruct (canonical_valid y Cy) as (Vy & Ey).
  pose proof (fadd_SFadd _ _ Vx Vy) as A.
  pose proof (fsub_SFsub _ _ Vx Vy) as S.
  pose proof (fmul_SFmul _ _ Vx Vy) as M.
  pose proof (fdiv_SFdiv _ _ Vx Vy) as D.
  pose proof (flt_SFltb _ _ Vx Vy) as L.
  pose proof (fle_SFleb _ _ Vx Vy) as Le.
  pose proof (feq_SFeqb _ _ Vx Vy) as Eq'.
  rewrite Ex, Ey in *. repeat split; assumption.
Qed.

End SpecFloatFacts.

(** ** Rounding error *)

Module RoundingError.
Import Float FloatFacts.

(** A multiple of [2^g] with fewer than 53 bits is a float. *)
Lemma rne_exact (m g : Z) :
  0 <= m < 2 ^ 53 -> 0 <= g -> rne (m * 2 ^ g) 1 = m * 2 ^ g.
Proof.
  intros Hm Hg. unfold rne. rewrite Z.div_1_r, Z.mul_1_l.
  pose proof (pow2_pos g Hg) as Pg.
  assert (N0 : 0 <= m * 2 ^ g) by (apply Z.mul_nonneg_nonneg; lia).
  pose proof (shift_of_nonneg (m * 2 ^ g)) as S0.
  set (sh := shift_of (m * 2 ^ g)) in *.
  assert (Hs : sh <= g).
  { destruct (Z.eq_dec sh 0) as [->|Hne]; [lia|].
    pose proof (shift_of_lower (m * 2 ^ g) N0 ltac:(fold sh; lia)) as L.
    fold sh in L.
    destruct (Z.le_gt_cases sh g) as [|Hgt]; [assumption|exfalso].
    assert (2 ^ (53 + g) <= 2 ^ (52 + sh)) by (apply pow2_le; lia).
    rewrite (pow2_add 53 g) in H by lia.
    assert (m * 2 ^ g < 2 ^ 53 * 2 ^ g)
      by (apply Z.mul_lt_mono_pos_r; lia).
    lia. }
  rewrite (pow2_split sh g) by lia.
  replace (m * (2 ^ sh * 2 ^ (g - sh))) with (m * 2 ^ (g - sh) * 2 ^ sh) by ring.
  rewrite rne_int_exact by (apply pow2_pos; lia). reflexivity.
Qed.

Lemma rnd_exact (m g : Z) :
  0 <= m < 2 ^ 53 -> 0 <= g -> m * 2 ^ g < overflow_mag ->
  rnd (m * 2 ^ g) 1 = m * 2 ^ g.
Proof.
  intros Hm Hg Ho. unfold rnd.
  pose proof (pow2_pos g Hg) as Pg.
  assert (N0 : 0 <= m * 2 ^ g) by (apply Z.mul_nonneg_nonneg; lia).
  destruct (Z.ltb_spec (m * 2 ^ g) 0) as [|_]; [lia|].
  rewrite rne_exact by assumption. lia.
Qed.

(** Rounding moves a quotient below [2^(52+g)] units by [2^g] units at
    most: the multiples of [2^g] around it are floats. *)
Lemma rnd_err_nonneg (z d g : Z) :
  0 < d -> 0 <= g -> g <= 2045 -> 0 <= z < d * 2 ^ (52 + g) ->
  - (d * 2 ^ g) <= d * rnd z d - z <= d * 2 ^ g.
Proof.
  intros Hd Hg Hg' Hz.
  pose proof (pow2_pos g Hg) as Pg.
  assert (Hdg : 0 < d * 2 ^ g) by (apply Z.mul_pos_pos; lia).
  set (a := z / (d * 2 ^ g)).
  pose proof (Z.div_mod z (d * 2 ^ g) ltac:(lia)) as DM.
  pose proof (Z.mod_pos_bound z (d * 2 ^ g) Hdg) as MB.
  fold a in DM.
  assert (A0 : 0 <= a) by (apply Z.div_pos; lia).
  assert (A1 : a < 2 ^ 52).
  { apply Z.div_lt_upper_bound; [lia|].
    rewrite (pow2_add 52 g) in Hz by lia. lia. }
  assert (P53 : 2 ^ 52 < 2 ^ 53) by (apply Z.pow_lt_mono_r; lia).
  assert (Ov : 2 ^ 53 * 2 ^ g <= overflow_mag).
  { unfold overflow_mag. rewrite <- pow2_add by lia. apply pow2_le. lia. }
  assert (Oa : forall m, 0 <= m < 2 ^ 53 -> m * 2 ^ g < overflow_mag).
  { intros m Hm. apply Z.lt_le_trans with (2 := Ov).
    apply Z.mul_lt_mono_pos_r; lia. }
  pose proof (rnd_exact a g ltac:(lia) Hg (Oa a ltac:(lia))) as Ea.
  pose proof (rnd_exact (a + 1) g ltac:(lia) Hg (Oa (a + 1) ltac:(lia))) as Eb.
  assert (L : rnd (a * 2 ^ g) 1 <= rnd z d).
  { apply rnd_mono; [lia|lia|]. nia. }
  assert (U : rnd z d <= rnd ((a + 1) * 2 ^ g) 1).
  { apply rnd_mono; [lia|lia|]. nia. }
  rewrite Ea in L. rewrite Eb in U.
  assert (d * (a * 2 ^ g) <= d * rnd z d) by (apply Z.mul_le_mono_nonneg_l; lia).
  assert (d * rnd z d <= d * ((a + 1) * 2 ^ g)) by (apply Z.mul_le_mono_nonneg_l; lia).
  nia.
Qed.

Lemma rnd_err (z d g : Z) :
  0 < d -> 0 <= g -> g <= 2045 -> - (d * 2 ^ (52 + g)) < z < d * 2 ^ (52 + g) ->
  - (d * 2 ^ g) <= d * rnd z d - z <= d * 2 ^ g.
Proof.
  intros Hd Hg Hg' Hz.
  destruct (Z.le_gt_cases 0 z) as [Z0|Z0].
  - apply rnd_err_nonneg; lia.
  - pose proof (rnd_err_nonneg (- z) d g Hd Hg Hg' ltac:(lia)) as E.
    rewrite rnd_opp in E by lia. lia.
Qed.

End RoundingError.

(** ** Colour gradient *)

Module GradientFacts.
Import Float FloatFacts.

Ltac crunch := vm_compute; first [reflexivity | discriminate].

Ltac div_step B c t E B' :=
  let X := fresh in
  pose proof (fun lo' hi' => btw_fdiv_r _ _ _ c lo' hi' B) as X;
  edestruct X as (t & E & B'); [crunch..|]; clear X.

Ltac mul_step B c B' :=
  match type of B with
  | btw _ _ ?x =>
      eassert (B' : btw _ _ (fmul x c));
      [eapply btw_fmul_r; [exact B|crunch..]|]
  end.

Ltac sub_step B c B' :=
  match type of B with
  | btw _ _ ?x =>
      eassert (B' : btw _ _ (fsub x c));
      [eapply btw_fsub_r; [exact B|crunch..]|]
  end.

Ltac rsub_step B c B' :=
  match type of B with
  | btw _ _ ?x =>
      eassert (B' : btw _ _ (fsub c x));
      [eapply btw_fsub_l; [exact B|crunch..]|]
  end.

Ltac int_step B z E H :=
  let X := fresh in
  pose proof (fun a b => btw_to_int _ _ _ a b B) as X;
  edestruct X as (z & E & H); [crunch..|]; clear X.

Lemma btw_of_fle (lo hi v : float) :
  proper lo = true -> proper hi = true ->
  fle lo v = true -> fle v hi = true -> btw lo hi v.
Proof.
  intros Hl Hh L U.
  apply fle_true in L as (_ & Hn & L). apply fle_true in U as (_ & _ & U).
  repeat split; try assumption.
  apply (proper_between lo hi); auto.
Qed.

Lemma btw_not_nan (lo hi v : float) : btw lo hi v -> is_nan v = false.
Proof.
  intros (_ & _ & Hv & _). destruct (proper_inv v Hv) as (s & m & k & -> & _).
  reflexivity.
Qed.

Lemma btw_below (lo hi v c : float) :
  btw lo hi v -> proper c = true -> flt v c = true -> btw lo c v.
Proof.
  intros B Hc H. apply flt_true in H as (_ & _ & H).
  destruct B as (Hl & Hh & Hv & B). repeat split; try assumption; lia.
Qed.

Lemma btw_above (lo hi v c : float) :
  btw lo hi v -> proper c = true -> flt v c = false -> btw c hi v.
Proof.
  intros B Hc H. pose proof (btw_not_nan _ _ _ B) as Hn.
  destruct (proper_inv c Hc) as (s & m & k & -> & _).
  apply flt_false in H; [|assumption|reflexivity].
  destruct B as (Hl & Hh & Hv & B). repeat split; try assumption; lia.
Qed.

Lemma flt_forced (lo hi v c : float) :
  btw lo hi v -> proper c = true -> ext hi < ext c -> flt v c = true.
Proof.
  intros B Hc H. pose proof (btw_not_nan _ _ _ B) as Hn.
  destruct (proper_inv c Hc) as (s & m & k & -> & _).
  destruct B as (_ & _ & _ & B).
  unfold flt. rewrite Hn. cbn [is_nan negb andb]. apply Z.ltb_lt. lia.
Qed.

Lemma flt_refuted (lo hi v c : float) :
  btw lo hi v -> ext c <= ext lo -> flt v c = false.
Proof.
  intros (_ & _ & _ & B) H. unfold flt.
  destruct (ext v <? ext c) eqn:E; [apply Z.ltb_lt in E; lia|].
  apply andb_false_r.
Qed.

(** The four segments, each on an interval of values it serves; the
    bounds on the moving channels are those at the two ends. *)

Ltac segment1_script B H1 :=
  let t := fresh "t" in let Et := fresh "Et" in let Bt := fresh "Bt" in
  let Bm := fresh "Bm" in let z := fresh "z" in let Ez := fresh "Ez" in
  let Hz := fresh "Hz" in
  unfold spectrum_color_gradient; rewrite H1;
  div_step B (dec 3 10) t Et Bt; rewrite Et; cbn [bind];
  mul_step Bt (of_Z 255) Bm;
  int_step Bm z Ez Hz; rewrite Ez; cbn [bind];
  exists z; split; [reflexivity|lia].

Ltac segment2_script B H1 H2 :=
  let t := fresh "t" in let Et := fresh "Et" in let Bt := fresh "Bt" in
  let Bs := fresh "Bs" in let Bg := fresh "Bg" in let Br := fresh "Br" in
  let Bb := fresh "Bb" in
  let g := fresh "g" in let Eg := fresh "Eg" in let Hg := fresh "Hg" in
  let b := fresh "b" in let Eb := fresh "Eb" in let Hb := fresh "Hb" in
  unfold spectrum_color_gradient; rewrite H1, H2;
  sub_step B (dec 3 10) Bs;
  div_step Bs (dec 3 10) t Et Bt; rewrite Et; cbn [bind];
  mul_step Bt (of_Z 255) Bg;
  int_step Bg g Eg Hg; rewrite Eg; cbn [bind];
  rsub_step Bt (of_Z 1) Br;
  mul_step Br (of_Z 255) Bb;
  int_step Bb b Eb Hb; rewrite Eb; cbn [bind];
  exists g, b; split; [reflexivity|lia].

Ltac segment3_script B H1 H2 H3 :=
  let t := fresh "t" in let Et := fresh "Et" in let Bt := fresh "Bt" in
  let Bs := fresh "Bs" in let Br := fresh "Br" in
  let r := fresh "r" in let Er := fresh "Er" in let Hr := fresh "Hr" in
  unfold spectrum_color_gradient; rewrite H1, H2, H3;
  sub_step B (dec 6 10) Bs;
  div_step Bs (dec 2 10) t Et Bt; rewrite Et; cbn [bind];
  mul_step Bt (of_Z 255) Br;
  int_step Br r Er Hr; rewrite Er; cbn [bind];
  exists r; split; [reflexivity|lia].

Ltac segment4_script B H1 H2 H3 :=
  let t := fresh "t" in let Et := fresh "Et" in let Bt := fresh "Bt" in
  let Bs := fresh "Bs" in let Br := fresh "Br" in let Bg := fresh "Bg" in
  let g := fresh "g" in let Eg := fresh "Eg" in let Hg := fresh "Hg" in
  unfold spectrum_color_gradient; rewrite H1, H2, H3;
  sub_step B (dec 8 10) Bs;
  div_step Bs (dec 2 10) t Et Bt; rewrite Et; cbn [bind];
  rsub_step Bt (of_Z 1) Br;
  mul_step Br (of_Z 255) Bg;
  int_step Bg g Eg Hg; rewrite Eg; cbn [bind];
  exists g; split; [reflexivity|lia].

Lemma segment1 (v : float) :
  btw zero (dec 3 10) v -> flt v (dec 3 10) = true ->
  exists b, spectrum_color_gradient v = Ok (0, 0, b) /\ 0 <= b <= 255.
Proof. intros B H1. segment1_script B H1. Qed.

Lemma segment1_end (v : float) :
  btw (fsub (dec 3 10) eps) (dec 3 10) v -> flt v (dec 3 10) = true ->
  exists b, spectrum_color_gradient v = Ok (0, 0, b) /\ 254 <= b <= 255.
Proof. intros B H1. segment1_script B H1. Qed.

Lemma segment2 (v : float) :
  btw (dec 3 10) (dec 6 10) v ->
  flt v (dec 3 10) = false -> flt v (dec 6 10) = true ->
  exists g b, spectrum_color_gradient v = Ok (0, g, b)
              /\ 0 <= g <= 255 /\ 0 <= b <= 255.
Proof. intros B H1 H2. segment2_script B H1 H2. Qed.

Lemma segment2_start (v : float) :
  btw (dec 3 10) (fadd (dec 3 10) eps) v ->
  flt v (dec 3 10) = false -> flt v (dec 6 10) = true ->
  exists g b, spectrum_color_gradient v = Ok (0, g, b)
              /\ 0 <= g <= 0 /\ 254 <= b <= 255.
Proof. intros B H1 H2. segment2_script B H1 H2. Qed.

Lemma segment2_end (v : float) :
  btw (fsub (dec 6 10) eps) (dec 6 10) v ->
  flt v (dec 3 10) = false -> flt v (dec 6 10) = true ->
  exists g b, spectrum_color_gradient v = Ok (0, g, b)
              /\ 254 <= g <= 255 /\ 0 <= b <= 0.
Proof. intros B H1 H2. segment2_script B H1 H2. Qed.

Lemma segment3 (v : float) :
  btw (dec 6 10) (dec 8 10) v ->
  flt v (dec 3 10) = false -> flt v (dec 6 10) = false ->
  flt v (dec 8 10) = true ->
  exists r, spectrum_color_gradient v = Ok (r, 255, 0) /\ 0 <= r <= 255.
Proof. intros B H1 H2 H3. segment3_script B H1 H2 H3. Qed.

Lemma segment3_start (v : float) :
  btw (dec 6 10) (fadd (dec 6 10) eps) v ->
  flt v (dec 3 10) = false -> flt v (dec 6 10) = false ->
  flt v (dec 8 10) = true ->
  exists r, spectrum_color_gradient v = Ok (r, 255, 0) /\ 0 <= r <= 0.
Proof. intros B H1 H2 H3. segment3_script B H1 H2 H3. Qed.

Lemma segment3_end (v : float) :
  btw (fsub (dec 8 10) eps) (dec 8 10) v ->
  flt v (dec 3 10) = false -> flt v (dec 6 10) = false ->
  flt v (dec 8 10) = true ->
  exists r, spectrum_color_gradient v = Ok (r, 255, 0) /\ 254 <= r <= 255.
Proof. intros B H1 H2 H3. segment3_script B H1 H2 H3. Qed.

Lemma segment4 (v : float) :
  btw (dec 8 10) one v ->
  flt v (dec 3 10) = false -> flt v (dec 6 10) = false ->
  flt v (dec 8 10) = false ->
  exists g, spectrum_color_gradient v = Ok (255, g, 0) /\ 0 <= g <= 255.
Proof. intros B H1 H2 H3. segment4_script B H1 H2 H3. Qed.

Lemma segment4_start (v : float) :
  btw (dec 8 10) (fadd (dec 8 10) eps) v ->
  flt v (dec 3 10) = false -> flt v (dec 6 10) = false ->
  flt v (dec 8 10) = false ->
  exists g, spectrum_color_gradient v = Ok (255, g, 0) /\ 254 <= g <= 255.
Proof. intros B H1 H2 H3. segment4_script B H1 H2 H3. Qed.

Lemma gradient_in_unit (v : float) :
  in_unit v = true ->
  exists r g b, spectrum_color_gradient v = Ok (r, g, b)
    /\ channel r /\ channel g /\ channel b
    /\ stage_shape (stage_of v) (r, g, b).
Proof.
  intros Hv. apply andb_prop in Hv as [L U].
  assert (B : btw zero one v) by (apply btw_of_fle; auto).
  unfold stage_of, channel.
  destruct (flt v (dec 3 10)) eqn:H1.
  { apply btw_below with (c := dec 3 10) in B; [|crunch|exact H1].
    destruct (segment1 v B H1) as (b & -> & Hb).
    exists 0, 0, b. cbn. repeat split; lia. }
  apply btw_above with (c := dec 3 10) in B; [|crunch|exact H1].
  destruct (flt v (dec 6 10)) eqn:H2.
  { apply btw_below with (c := dec 6 10) in B; [|crunch|exact H2].
    destruct (segment2 v B H1 H2) as (g & b & -> & Hg & Hb).
    exists 0, g, b. cbn. repeat split; lia. }
  apply btw_above with (c := dec 6 10) in B; [|crunch|exact H2].
  destruct (flt v (dec 8 10)) eqn:H3.
  { apply btw_below with (c := dec 8 10) in B; [|crunch|exact H3].
    destruct (segment3 v B H1 H2 H3) as (r & -> & Hr).
    exists r, 255, 0. cbn. repeat split; lia. }
  apply btw_above with (c := dec 8 10) in B; [|crunch|exact H3].
  destruct (segment4 v B H1 H2 H3) as (g & -> & Hg).
  exists 255, g, 0. cbn. repeat split; lia.
Qed.

Lemma near_btw (b v : float) :
  proper (fsub b eps) = true -> proper (fadd b eps) = true ->
  near b v = true -> btw (fsub b eps) (fadd b eps) v.
Proof.
  intros Hl Hh H. apply andb_prop in H as [L U]. apply btw_of_fle; assumption.
Qed.

Lemma gradient_near_03 (v : float) :
  near (dec 3 10) v = true ->
  exists c, spectrum_color_gradient v = Ok c /\ color_close c (0, 0, 255).
Proof.
  intros H. apply near_btw in H as B; [|crunch..].
  destruct (flt v (dec 3 10)) eqn:H1.
  - apply btw_below with (c := dec 3 10) in B; [|crunch|exact H1].
    destruct (segment1_end v B H1) as (b & -> & Hb).
    eexists. split; [reflexivity|]. cbn. lia.
  - apply btw_above with (c := dec 3 10) in B; [|crunch|exact H1].
    assert (H2 : flt v (dec 6 10) = true).
    { apply (flt_forced _ _ _ _ B); crunch. }
    destruct (segment2_start v B H1 H2) as (g & b & -> & Hg & Hb).
    eexists. split; [reflexivity|]. cbn. lia.
Qed.

Lemma gradient_near_06 (v : float) :
  near (dec 6 10) v = true ->
  exists c, spectrum_color_gradient v = Ok c /\ color_close c (0, 255, 0).
Proof.
  intros H. apply near_btw in H as B; [|crunch..].
  assert (H1 : flt v (dec 3 10) = false).
  { apply (flt_refuted _ _ _ _ B); crunch. }
  destruct (flt v (dec 6 10)) eqn:H2.
  - apply btw_below with (c := dec 6 10) in B; [|crunch|exact H2].
    destruct (segment2_end v B H1 H2) as (g & b & -> & Hg & Hb).
    eexists. split; [reflexivity|]. cbn. lia.
  - apply btw_above with (c := dec 6 10) in B; [|crunch|exact H2].
    assert (H3 : flt v (dec 8 10) = true).
    { apply (flt_forced _ _ _ _ B); crunch. }
    destruct (segment3_start v B H1 H2 H3) as (r & -> & Hr).
    eexists. split; [reflexivity|]. cbn. lia.
Qed.

Lemma gradient_near_08 (v : float) :
  near (dec 8 10) v = true ->
  exists c, spectrum_color_gradient v = Ok c /\ color_close c (255, 255, 0).
Proof.
  intros H. apply near_btw in H as B; [|crunch..].
  assert (H1 : flt v (dec 3 10) = false).
  { apply (flt_refuted _ _ _ _ B); crunch. }
  assert (H2 : flt v (dec 6 10) = false).
  { apply (flt_refuted _ _ _ _ B); crunch. }
  destruct (flt v (dec 8 10)) eqn:H3.
  - apply btw_below with (c := dec 8 10) in B; [|crunch|exact H3].
    destruct (segment3_end v B H1 H2 H3) as (r & -> & Hr).
    eexists. split; [reflexivity|]. cbn. lia.
  - apply btw_above with (c := dec 8 10) in B; [|crunch|exact H3].
    destruct (segment4_start v B H1 H2 H3) as (g & -> & Hg).
    eexists. split; [reflexivity|]. cbn. lia.
Qed.

End GradientFacts.

(** ** The gradient against linear interpolation *)

Module GradientLinear.
Import Float FloatFacts GradientFacts RoundingError.

(** The rounding step the gradient's operations stay within. *)
Definition grain : Z := 2 ^ 1031.

Lemma grain_room : 2 ^ (52 + 1031) = 512 * unit_scale.
Proof. reflexivity. Qed.

Lemma rnd_units (k : Z) :
  0 <= k <= 2 -> rnd (k * unit_scale) 1 = k * unit_scale.
Proof.
  intros Hk. apply (rnd_exact k 1074); [lia|lia|].
  apply Z.le_lt_trans with (2 * 2 ^ 1074).
  - apply Z.mul_le_mono_nonneg_r; lia.
  - unfold overflow_mag. change (2 * 2 ^ 1074) with (2 ^ 1075).
    apply Z.pow_lt_mono_r; lia.
Qed.

Lemma rnd_unit : rnd unit_scale 1 = unit_scale.
Proof. rewrite <- (Z.mul_1_l unit_scale). apply rnd_units. lia. Qed.

Lemma unit_below_overflow : 1024 * unit_scale < overflow_mag.
Proof.
  unfold unit_scale, overflow_mag, ulp_exp. change 1024 with (2 ^ 10).
  rewrite <- pow2_add by lia. apply Z.pow_lt_mono_r; lia.
Qed.

Lemma grain_small : 0 < grain /\ grain * 2 ^ 43 = unit_scale.
Proof. split; reflexivity. Qed.

(** [v - c] for [c <= v <= c + w], [w] a float of at most 1. *)
Lemma fsub_err (v c : float) (w : Z) :
  proper v = true -> proper c = true ->
  0 <= ext v - ext c <= w -> w <= unit_scale -> rnd w 1 = w ->
  proper (fsub v c) = true
  /\ 0 <= ext (fsub v c) <= w
  /\ - grain <= ext (fsub v c) - (ext v - ext c) <= grain.
Proof.
  intros Pv Pc H Hw Rw.
  destruct (proper_inv v Pv) as (sv & mv & kv & -> & _).
  destruct (proper_inv c Pc) as (sc & mc & kc & -> & _).
  cbn [ext] in H |- *.
  destruct (fsub_rounds sv sc mv kv mc kc) as (E & Nn & Pf).
  set (s := fsub (Fin sv mv kv) (Fin sc mc kc)) in *.
  set (z := sval sv mv kv - sval sc mc kc) in *. clearbody s z.
  pose proof unit_scale_pos as HU. pose proof unit_below_overflow as HO.
  pose proof grain_room as GR. pose proof grain_small as (G0 & GS).
  assert (B : 0 <= ext s <= w).
  { rewrite E. split.
    - rewrite <- (rnd_zero 1) by lia. apply rnd_mono; lia.
    - rewrite <- Rw. apply rnd_mono; lia. }
  split.
  { apply (rounds_proper s z 1); [repeat split; assumption|lia]. }
  split; [exact B|].
  pose proof (rnd_err z 1 1031 ltac:(lia) ltac:(lia) ltac:(lia)) as Er.
  rewrite GR in Er. fold grain in Er. rewrite <- E in Er. lia.
Qed.

(** [s / w] for [0 <= s <= k * w], [k] being 1 or 2. *)
Lemma fdiv_err (s w : float) (k : Z) :
  proper s = true -> proper w = true -> 0 < ext w <= unit_scale ->
  1 <= k <= 2 -> 0 <= ext s <= k * ext w ->
  exists t, fdiv s w = Ok t /\ proper t = true
    /\ 0 <= ext t <= k * unit_scale
    /\ - (ext w * grain) <= ext w * ext t - ext s * unit_scale
       <= ext w * grain.
Proof.
  intros Ps Pw Hw Hk Hs.
  destruct (proper_inv s Ps) as (ss & ms & ks & -> & _).
  destruct (proper_inv w Pw) as (sw & mw & kw & -> & _).
  cbn [ext] in Hw, Hs |- *.
  assert (sw = false) as ->.
  { destruct sw; [|reflexivity]. unfold sval in Hw.
    pose proof (mag_nonneg mw kw). lia. }
  assert (Hm : mw <> 0%N).
  { intros ->. unfold sval, mag in Hw. cbn in Hw. lia. }
  destruct (fdiv_rounds ss ms ks mw kw Hm) as (t & Et & E & Nn & Pf).
  change (mag mw kw) with (sval false mw kw) in E.
  set (x := sval ss ms ks) in *. set (d := sval false mw kw) in *.
  clearbody x d.
  pose proof unit_scale_pos as HU. pose proof unit_below_overflow as HO.
  pose proof grain_room as GR. pose proof grain_small as (G0 & GS).
  assert (B : 0 <= ext t <= k * unit_scale).
  { rewrite E. split.
    - rewrite <- (rnd_zero 1) by lia. apply rnd_mono; [lia|lia|].
      rewrite Z.mul_0_l, Z.mul_1_r. apply Z.mul_nonneg_nonneg; lia.
    - rewrite <- (rnd_units k) by lia. apply rnd_mono; [lia|lia|].
      rewrite Z.mul_1_r.
      replace (k * unit_scale * d) with (k * d * unit_scale) by ring.
      apply Z.mul_le_mono_nonneg_r; lia. }
  exists t. split; [exact Et|]. split.
  { apply (rounds_proper t (x * unit_scale) d); [repeat split; assumption|lia]. }
  split; [exact B|].
  assert (Hz : - (d * 2 ^ (52 + 1031)) < x * unit_scale < d * 2 ^ (52 + 1031)).
  { rewrite GR. split.
    - assert (0 <= x * unit_scale) by (apply Z.mul_nonneg_nonneg; lia).
      assert (0 < d * (512 * unit_scale)) by (apply Z.mul_pos_pos; lia). lia.
    - assert (x * unit_scale <= k * d * unit_scale)
        by (apply Z.mul_le_mono_nonneg_r; lia).
      assert (k * d * unit_scale <= 2 * d * unit_scale).
      { apply Z.mul_le_mono_nonneg_r; [lia|].
        apply Z.mul_le_mono_nonneg_r; lia. }
      assert (0 < d * unit_scale) by (apply Z.mul_pos_pos; lia).
      lia. }
  pose proof (rnd_err (x * unit_scale) d 1031 ltac:(lia) ltac:(lia) ltac:(lia) Hz)
    as Er.
  fold grain in Er. rewrite <- E in Er. exact Er.
Qed.

Lemma float_255 :
  exists m k, of_Z 255 = Fin false m k /\ sval false m k = 255 * unit_scale.
Proof. do 2 eexists. split; [vm_compute; reflexivity|]. vm_compute. reflexivity. Qed.

Lemma float_1 :
  proper (of_Z 1) = true /\ ext (of_Z 1) = unit_scale.
Proof. split; vm_compute; reflexivity. Qed.

(** [int(t * 255)] for [0 <= t <= 2]. *)
Lemma scale_err (t : float) :
  proper t = true -> 0 <= ext t <= 2 * unit_scale ->
  exists n, to_int (fmul t (of_Z 255)) = Ok n
    /\ unit_scale * n <= 255 * ext t + grain
    /\ 255 * ext t - grain < unit_scale * n + unit_scale.
Proof.
  intros Pt Ht.
  destruct (proper_inv t Pt) as (st & mt & kt & -> & _).
  destruct float_255 as (m & k & -> & E255).
  cbn [ext] in Ht |- *.
  destruct (fmul_rounds st false mt kt m k) as (E & Nn & Pf).
  rewrite E255 in E.
  set (p := fmul (Fin st mt kt) (Fin false m k)) in *.
  set (x := sval st mt kt) in *. clearbody p x.
  pose proof unit_scale_pos as HU. pose proof unit_below_overflow as HO.
  pose proof grain_room as GR. pose proof grain_small as (G0 & GS).
  rewrite (rnd_ratio _ _ (255 * x) 1) in E by lia.
  assert (P0 : 0 <= ext p).
  { rewrite E, <- (rnd_zero 1) by lia. apply rnd_mono; lia. }
  pose proof (rnd_err (255 * x) 1 1031 ltac:(lia) ltac:(lia) ltac:(lia)
                ltac:(rewrite GR; lia)) as Er.
  fold grain in Er. rewrite <- E in Er.
  assert (Pp : proper p = true).
  { apply (rounds_proper p (255 * x) 1); [repeat split; assumption|lia]. }
  destruct (proper_inv p Pp) as (sp & mp & kp & -> & _).
  cbn [ext] in P0, Er.
  rewrite to_int_quot. eexists. split; [reflexivity|].
  rewrite Z.quot_div_nonneg by lia.
  pose proof (Z.div_mod (sval sp mp kp) unit_scale ltac:(lia)) as DM.
  pose proof (Z.mod_pos_bound (sval sp mp kp) unit_scale HU) as MB.
  lia.
Qed.

(** [1 - t] for [0 <= t <= 1]. *)
Lemma one_minus_err (t : float) :
  proper t = true -> 0 <= ext t <= unit_scale ->
  proper (fsub (of_Z 1) t) = true
  /\ 0 <= ext (fsub (of_Z 1) t) <= unit_scale
  /\ - grain <= ext (fsub (of_Z 1) t) - (unit_scale - ext t) <= grain.
Proof.
  intros Pt Ht. destruct float_1 as (P1 & E1).
  pose proof (fsub_err (of_Z 1) t unit_scale P1 Pt) as H.
  rewrite E1 in H. apply H; [lia|lia|exact rnd_unit].
Qed.


Lemma unit_value (v : float) :
  in_unit v = true ->
  proper v = true /\ is_nan v = false /\ 0 <= ext v <= unit_scale.
Proof.
  intros H. apply andb_prop in H as [L U].
  assert (B : btw zero one v) by (apply btw_of_fle; auto).
  split; [apply B|]. split; [exact (btw_not_nan _ _ _ B)|].
  destruct B as (_ & _ & _ & B). exact B.
Qed.

(** The constants of the gradient, in units. *)
Lemma knots :
  proper (dec 3 10) = true /\ proper (dec 6 10) = true
  /\ proper (dec 8 10) = true /\ proper (dec 2 10) = true
  /\ rnd (ext (dec 3 10)) 1 = ext (dec 3 10)
  /\ rnd (2 * ext (dec 2 10)) 1 = 2 * ext (dec 2 10)
  /\ rnd (ext (dec 2 10)) 1 = ext (dec 2 10)
  /\ ext (dec 6 10) = 2 * ext (dec 3 10)
  /\ ext (dec 8 10) = 4 * ext (dec 2 10)
  /\ ext (dec 3 10) = 5404319552844595 * 2 ^ 1020
  /\ ext (dec 2 10) = 7205759403792794 * 2 ^ 1019.
Proof. repeat split; vm_compute; reflexivity. Qed.

Lemma flt_of_lt (v c : float) :
  is_nan v = false -> proper c = true -> ext v < ext c -> flt v c = true.
Proof.
  intros Nv Pc H. destruct (proper_inv c Pc) as (s & m & k & -> & _).
  unfold flt. rewrite Nv. cbn [is_nan negb andb]. apply Z.ltb_lt. exact H.
Qed.

(** The stage the code is in against the stage of the exact value: the
    channels, each within its rounding step of the exact product, are
    compared with the integer parts of the interpolated values. *)
Ltac compare_stages x :=
  unfold lerp_color, lerp, DARK, BLUE, GREEN, YELLOW, RED, color_close;
  unfold grain, unit_scale, ulp_exp in *;
  destruct (Z.ltb_spec (10 * x) (3 * 2 ^ 1074));
    [|destruct (Z.ltb_spec (10 * x) (6 * 2 ^ 1074));
      [|destruct (Z.ltb_spec (10 * x) (8 * 2 ^ 1074))]];
  Z.div_mod_to_equations; lia.

Lemma linear_stage1 (v : float) :
  in_unit v = true -> flt v (dec 3 10) = true ->
  exists c, spectrum_color_gradient v = Ok c
    /\ color_close c (linear_gradient v).
Proof.
  intros Hv H1.
  destruct knots as (P3 & P6 & P8 & P2 & R3 & R4 & R2 & E6 & E8 & N3 & N2).
  destruct (unit_value v Hv) as (Pv & Nv & Bv).
  pose proof H1 as L1. apply flt_true in L1 as (_ & _ & L1).
  destruct (fdiv_err v (dec 3 10) 1 Pv P3
              ltac:(rewrite N3; split; vm_compute; [reflexivity|discriminate])
              ltac:(lia) ltac:(lia))
    as (t & Et & Pt & Bt & Ed).
  destruct (scale_err t Pt ltac:(lia)) as (b & Eb & Bl & Bu).
  exists (0, 0, b). split.
  { unfold spectrum_color_gradient. rewrite H1, Et. cbn [bind].
    rewrite Eb. reflexivity. }
  unfold linear_gradient. set (x := ext v) in *. set (tt := ext t) in *.
  rewrite N3 in *.
  clearbody x tt. clear - Bv L1 Bt Ed Bl Bu.
  compare_stages x.
Qed.

Lemma linear_stage2 (v : float) :
  in_unit v = true ->
  flt v (dec 3 10) = false -> flt v (dec 6 10) = true ->
  exists c, spectrum_color_gradient v = Ok c
    /\ color_close c (linear_gradient v).
Proof.
  intros Hv H1 H2.
  destruct knots as (P3 & P6 & P8 & P2 & R3 & R4 & R2 & E6 & E8 & N3 & N2).
  destruct (unit_value v Hv) as (Pv & Nv & Bv).
  pose proof H1 as L1. pose proof H2 as L2.
  apply flt_true in L2 as (_ & _ & L2).
  apply flt_false in L1; [|exact Nv|reflexivity].
  destruct (fsub_err v (dec 3 10) (ext (dec 3 10)) Pv P3
              ltac:(lia) ltac:(rewrite N3; vm_compute; discriminate) R3)
    as (Ps & Bs & Es).
  destruct (fdiv_err (fsub v (dec 3 10)) (dec 3 10) 1 Ps P3
              ltac:(rewrite N3; split; vm_compute; [reflexivity|discriminate])
              ltac:(lia) ltac:(lia))
    as (t & Et & Pt & Bt & Ed).
  destruct (scale_err t Pt ltac:(lia)) as (g & Eg & Gl & Gu).
  destruct (one_minus_err t Pt ltac:(lia)) as (Pq & Bq & Eq).
  destruct (scale_err (fsub (of_Z 1) t) Pq ltac:(lia)) as (b & Eb & Bl & Bu).
  exists (0, g, b). split.
  { unfold spectrum_color_gradient. rewrite H1, H2, Et. cbn [bind].
    rewrite Eg. cbn [bind]. rewrite Eb. reflexivity. }
  unfold linear_gradient. set (x := ext v) in *. set (s := ext (fsub v (dec 3 10))) in *.
  set (q := ext (fsub (of_Z 1) t)) in *. set (tt := ext t) in *.
  rewrite E6 in *. rewrite N3 in *.
  clearbody x s q tt. clear - Bv L1 L2 Bs Es Bt Ed Gl Gu Bq Eq Bl Bu.
  compare_stages x.
Qed.

Lemma linear_stage3 (v : float) :
  in_unit v = true ->
  flt v (dec 3 10) = false -> flt v (dec 6 10) = false ->
  flt v (dec 8 10) = true ->
  exists c, spectrum_color_gradient v = Ok c
    /\ color_close c (linear_gradient v).
Proof.
  intros Hv H1 H2 H3.
  destruct knots as (P3 & P6 & P8 & P2 & R3 & R4 & R2 & E6 & E8 & N3 & N2).
  destruct (unit_value v Hv) as (Pv & Nv & Bv).
  pose proof H2 as L2. pose proof H3 as L3.
  apply flt_true in L3 as (_ & _ & L3).
  apply flt_false in L2; [|exact Nv|reflexivity].
  assert (K : 2 * ext (dec 2 10) <= unit_scale
              /\ ext (dec 8 10) - ext (dec 6 10) <= 2 * ext (dec 2 10)
              /\ 0 < ext (dec 2 10) <= unit_scale).
  { rewrite E8, E6, N3, N2. repeat split; vm_compute;
      first [reflexivity|discriminate]. }
  destruct K as (K1 & K2 & K3).
  destruct (fsub_err v (dec 6 10) (2 * ext (dec 2 10)) Pv P6
              ltac:(lia) K1 R4)
    as (Ps & Bs & Es).
  destruct (fdiv_err (fsub v (dec 6 10)) (dec 2 10) 2 Ps P2 K3
              ltac:(lia) ltac:(lia))
    as (t & Et & Pt & Bt & Ed).
  destruct (scale_err t Pt ltac:(lia)) as (r & Er & Rl & Ru).
  exists (r, 255, 0). split.
  { unfold spectrum_color_gradient. rewrite H1, H2, H3, Et. cbn [bind].
    rewrite Er. reflexivity. }
  unfold linear_gradient. set (x := ext v) in *. set (s := ext (fsub v (dec 6 10))) in *.
  set (tt := ext t) in *.
  rewrite E8, E6 in *. rewrite N3, N2 in *.
  clearbody x s tt. clear - Bv L2 L3 Bs Es Bt Ed Rl Ru.
  compare_stages x.
Qed.

Lemma linear_stage4 (v : float) :
  in_unit v = true ->
  flt v (dec 3 10) = false -> flt v (dec 6 10) = false ->
  flt v (dec 8 10) = false ->
  exists c, spectrum_color_gradient v = Ok c
    /\ color_close c (linear_gradient v).
Proof.
  intros Hv H1 H2 H3.
  destruct knots as (P3 & P6 & P8 & P2 & R3 & R4 & R2 & E6 & E8 & N3 & N2).
  destruct (unit_value v Hv) as (Pv & Nv & Bv).
  pose proof H3 as L3.
  apply flt_false in L3; [|exact Nv|reflexivity].
  assert (K : ext (dec 2 10) <= unit_scale
              /\ unit_scale - ext (dec 8 10) <= ext (dec 2 10)
              /\ 0 < ext (dec 2 10) <= unit_scale).
  { rewrite E8, N2. repeat split; vm_compute;
      first [reflexivity|discriminate]. }
  destruct K as (K1 & K2 & K3).
  destruct (fsub_err v (dec 8 10) (ext (dec 2 10)) Pv P8
              ltac:(lia) K1 R2)
    as (Ps & Bs & Es).
  destruct (fdiv_err (fsub v (dec 8 10)) (dec 2 10) 1 Ps P2 K3
              ltac:(lia) ltac:(lia))
    as (t & Et & Pt & Bt & Ed).
  destruct (one_minus_err t Pt ltac:(lia)) as (Pq & Bq & Eq).
  destruct (scale_err (fsub (of_Z 1) t) Pq ltac:(lia)) as (g & Eg & Gl & Gu).
  exists (255, g, 0). split.
  { unfold spectrum_color_gradient. rewrite H1, H2, H3, Et. cbn [bind].
    rewrite Eg. reflexivity. }
  unfold linear_gradient. set (x := ext v) in *. set (s := ext (fsub v (dec 8 10))) in *.
  set (q := ext (fsub (of_Z 1) t)) in *. set (tt := ext t) in *.
  rewrite E8 in *. rewrite N2 in *.
  clearbody x s q tt. clear - Bv L3 Bs Es Bt Ed Bq Eq Gl Gu.
  compare_stages x.
Qed.

(** On [0,1] every channel is within 1 of the integer part of the exact
    linear interpolation. *)
Lemma gradient_linear (v : float) :
  in_unit v = true ->
  exists c, spectrum_color_gradient v = Ok c
    /\ color_close c (linear_gradient v).
Proof.
  intros Hv.
  destruct (flt v (dec 3 10)) eqn:H1; [exact (linear_stage1 v Hv H1)|].
  destruct (flt v (dec 6 10)) eqn:H2; [exact (linear_stage2 v Hv H1 H2)|].
  destruct (flt v (dec 8 10)) eqn:H3; [exact (linear_stage3 v Hv H1 H2 H3)|].
  exact (linear_stage4 v Hv H1 H2 H3).
Qed.

End GradientLinear.

(** ** Normalisation *)

Module NormalizeFacts.
Import Float FloatFacts GradientFacts.

Lemma mapM_length {A B : Type} (f : A -> result B) (l : list A) (l' : list B) :
  mapM f l = Ok l' -> List.length l' = List.length l.
Proof.
  revert l'. induction l as [|a l IH]; intros l' H.
  - injection H as <-. reflexivity.
  - cbn in H. destruct (f a) as [b|e]; [|discriminate]. cbn in H.
    destruct (mapM f l) as [bs|e]; [|discriminate]. cbn in H.
    injection H as <-. cbn. f_equal. apply IH. reflexivity.
Qed.

Lemma mapM_total {A B : Type} (f : A -> result B) (l : list A) :
  (forall a, In a l -> exists b, f a = Ok b) ->
  exists l', mapM f l = Ok l'.
Proof.
  induction l as [|a l IH]; intros H.
  - exists []. reflexivity.
  - destruct (H a (or_introl eq_refl)) as (b & Eb).
    destruct IH as (bs & Ebs); [intros; apply H; right; assumption|].
    exists (b :: bs). cbn. rewrite Eb. cbn. rewrite Ebs. reflexivity.
Qed.

Lemma mapM_Forall2 {A B : Type} (f : A -> result B) (P : A -> B -> Prop)
    (l : list A) :
  (forall a, In a l -> exists b, f a = Ok b /\ P a b) ->
  exists l', mapM f l = Ok l' /\ Forall2 P l l'.
Proof.
  induction l as [|a l IH]; intros H.
  - exists []. split; [reflexivity|constructor].
  - destruct (H a (or_introl eq_refl)) as (b & Eb & Pb).
    destruct IH as (bs & Ebs & Pbs); [intros; apply H; right; assumption|].
    exists (b :: bs). split; [|constructor; assumption].
    cbn. rewrite Eb. cbn. rewrite Ebs. reflexivity.
Qed.

Lemma fdiv_total (x y : float) :
  is_zero y = false -> exists r, fdiv x y = Ok r.
Proof.
  intros H. destruct y as [|sy|sy [|p] ky]; try discriminate;
    destruct x as [|sx|sx mx kx]; cbn; eauto.
Qed.

Lemma is_zero_ext (x : float) : is_zero x = true -> ext x = 0.
Proof.
  destruct x as [|s|s [|p] k]; try discriminate. intros _.
  cbn. unfold sval, mag. destruct s; reflexivity.
Qed.

Lemma rnd_nonzero (z : Z) : z <> 0 -> rnd z 1 <> 0.
Proof.
  intros H. destruct (Z_lt_le_dec z 0).
  - pose proof (rnd_pos (- z) 1 ltac:(lia) ltac:(lia)) as P.
    rewrite rnd_opp in P by lia. lia.
  - pose proof (rnd_pos z 1 ltac:(lia) ltac:(lia)). lia.
Qed.

(** The spread [max - min] is never zero when the two differ. *)
Lemma fsub_nonzero (x y : float) :
  feq x y = false -> is_zero (fsub x y) = false.
Proof.
  intros H.
  destruct x as [|sx|sx mx kx], y as [|sy|sy my ky];
    try reflexivity.
  - cbn. destruct sx, sy; reflexivity.
  - destruct (is_zero (fsub (Fin sx mx kx) (Fin sy my ky))) eqn:E; [|reflexivity].
    exfalso. apply is_zero_ext in E.
    destruct (fsub_rounds sx sy mx kx my ky) as (R & _).
    rewrite R in E. apply feq_false in H; [|reflexivity..].
    cbn [ext] in H. revert E. apply rnd_nonzero. lia.
Qed.

(** [min] and [max] of finite readings *)

Lemma py_min_spec (rest : list float) (d : float) :
  Forall (fun x => proper x = true) (d :: rest) ->
  In (py_min d rest) (d :: rest)
  /\ forall x, In x (d :: rest) -> ext (py_min d rest) <= ext x.
Proof.
  revert d. induction rest as [|a rest IH]; intros d H.
  - split; [left; reflexivity|]. intros x [<-|[]]. cbn. lia.
  - inversion H as [|? ? Hd Hr]; subst. inversion Hr as [|? ? Ha Hr']; subst.
    unfold py_min. cbn [fold_left]. fold (py_min (if flt a d then a else d) rest).
    destruct (flt a d) eqn:E.
    + destruct (IH a Hr) as (Hi & L). split.
      * destruct Hi as [<-|Hj]; [right; left; reflexivity|right; right; exact Hj].
      * apply flt_true in E as (_ & _ & E).
        intros x [<-|[<-|Hj]].
        -- specialize (L a (or_introl eq_refl)). lia.
        -- apply L. left. reflexivity.
        -- apply L. right. exact Hj.
    + destruct (IH d (Forall_cons d Hd Hr')) as (Hi & L). split.
      * destruct Hi as [<-|Hj]; [left; reflexivity|right; right; exact Hj].
      * destruct (proper_inv a Ha) as (sa & ma & ka & -> & _).
        destruct (proper_inv d Hd) as (sd & md & kd & -> & _).
        apply flt_false in E; [|reflexivity..].
        intros x [<-|[<-|Hj]].
        -- apply L. left. reflexivity.
        -- specialize (L _ (or_introl eq_refl)). lia.
        -- apply L. right. exact Hj.
Qed.

Lemma py_max_spec (rest : list float) (d : float) :
  Forall (fun x => proper x = true) (d :: rest) ->
  In (py_max d rest) (d :: rest)
  /\ forall x, In x (d :: rest) -> ext x <= ext (py_max d rest).
Proof.
  revert d. induction rest as [|a rest IH]; intros d H.
  - split; [left; reflexivity|]. intros x [<-|[]]. cbn. lia.
  - inversion H as [|? ? Hd Hr]; subst. inversion Hr as [|? ? Ha Hr']; subst.
    unfold py_max. cbn [fold_left]. fold (py_max (if fgt a d then a else d) rest).
    unfold fgt. destruct (flt d a) eqn:E.
    + destruct (IH a Hr) as (Hi & L). split.
      * destruct Hi as [<-|Hj]; [right; left; reflexivity|right; right; exact Hj].
      * apply flt_true in E as (_ & _ & E).
        intros x [<-|[<-|Hj]].
        -- specialize (L a (or_introl eq_refl)). lia.
        -- apply L. left. reflexivity.
        -- apply L. right. exact Hj.
    + destruct (IH d (Forall_cons d Hd Hr')) as (Hi & L). split.
      * destruct Hi as [<-|Hj]; [left; reflexivity|right; right; exact Hj].
      * destruct (proper_inv a Ha) as (sa & ma & ka & -> & _).
        destruct (proper_inv d Hd) as (sd & md & kd & -> & _).
        apply flt_false in E; [|reflexivity..].
        intros x [<-|[<-|Hj]].
        -- apply L. left. reflexivity.
        -- specialize (L _ (or_introl eq_refl)). lia.
        -- apply L. right. exact Hj.
Qed.

Lemma ext_one : ext one = rnd unit_scale 1.
Proof.
  unfold one, of_Z.
  destruct (round_scaled_rnd false 1 1 ulp_exp) as (E & _); [lia..|].
  cbn [Z.ltb Z.compare Z.abs]. rewrite E. reflexivity.
Qed.

(** One reading between the least and the greatest, scaled. *)
Lemma scale_reading (mn mx db : float) :
  proper mn = true -> proper mx = true -> proper db = true ->
  ext mn <= ext db <= ext mx -> ext mn < ext mx ->
  proper (fsub mx mn) = true ->
  exists r, fdiv (fsub db mn) (fsub mx mn) = Ok r /\ normalized mn mx db r.
Proof.
  intros Hmn Hmx Hdb B Hlt Hspread.
  destruct (proper_inv mn Hmn) as (sn & mn' & kn & -> & _).
  destruct (proper_inv mx Hmx) as (sx & mx' & kx & -> & _).
  destruct (proper_inv db Hdb) as (sd & md & kd & -> & _).
  cbn [ext] in B, Hlt.
  pose proof (fsub_rounds sd sn md kd mn' kn) as Ra.
  pose proof (fsub_rounds sx sn mx' kx mn' kn) as Rb.
  set (a := fsub (Fin sd md kd) (Fin sn mn' kn)) in *.
  set (b := fsub (Fin sx mx' kx) (Fin sn mn' kn)) in *.
  set (vd := sval sd md kd) in *. set (vn := sval sn mn' kn) in *.
  set (vx := sval sx mx' kx) in *.
  destruct Ra as (Ea & Na & Pa). destruct Rb as (Eb & Nb & Pb).
  assert (A0 : 0 <= ext a).
  { rewrite Ea, <- (rnd_zero 1) by lia. apply rnd_mono; lia. }
  assert (Ab : ext a <= ext b).
  { rewrite Ea, Eb. apply rnd_mono; lia. }
  assert (B1 : 1 <= ext b).
  { rewrite Eb. apply rnd_pos; lia. }
  pose proof (proper_ext b Hspread) as Tb.
  assert (Ha : proper a = true).
  { apply (rounds_proper a (vd - vn) 1); [repeat split; assumption|].
    pose proof overflow_mag_pos. lia. }
  destruct (proper_inv a Ha) as (sa & ma & ka & Fa & _).
  destruct (proper_inv b Hspread) as (sb & mb & kb & Fb & _).
  rewrite Fa, Fb in *. cbn [ext] in A0, Ab, B1.
  pose proof (mag_nonneg mb kb) as Mb.
  destruct sb; [unfold sval in B1; lia|].
  assert (Hmb : mb <> 0%N).
  { intros E. apply (mag_zero_iff mb kb) in E. unfold sval in B1. lia. }
  destruct (fdiv_rounds sa ma ka mb kb Hmb) as (r & Er & (Rr & Nr & Pr)).
  exists r. split; [exact Er|].
  change (mag mb kb) with (sval false mb kb) in Rr.
  set (va := sval sa ma ka) in *. set (vb := sval false mb kb) in *.
  pose proof unit_scale_pos as HU.
  assert (R0 : 0 <= ext r).
  { rewrite Rr, <- (rnd_zero 1) by lia. apply rnd_mono; nia. }
  assert (R1 : ext r <= ext one).
  { rewrite Rr, ext_one. apply rnd_mono; nia. }
  assert (None : is_nan one = false) by reflexivity.
  unfold normalized, in_unit, fle, feq. rewrite Nr, None.
  cbn [is_nan negb andb zero].
  repeat split.
  - apply andb_true_intro. split; apply Z.leb_le; [exact R0|exact R1].
  - intros H. apply Z.eqb_eq in H. change (vd = vx) in H. apply Z.eqb_eq.
    rewrite Rr, ext_one. apply rnd_ratio; try lia.
    assert (va = vb).
    { change (va = rnd (vd - vn) 1) in Ea. change (vb = rnd (vx - vn) 1) in Eb.
      rewrite Ea, Eb, H. reflexivity. }
    nia.
  - intros H. apply Z.eqb_eq in H. change (vd = vn) in H. apply Z.eqb_eq.
    assert (Va : va = 0).
    { change (va = rnd (vd - vn) 1) in Ea. rewrite Ea, H.
      replace (vn - vn) with 0 by lia. apply rnd_zero. lia. }
    rewrite Rr, Va, Z.mul_0_l. change (ext (Fin false 0 0)) with 0.
    apply rnd_zero. lia.
Qed.

Lemma feq_not_flt (x y : float) :
  feq x y = true -> flt x y = false /\ flt y x = false.
Proof.
  intros H. apply feq_true in H as (Hx & Hy & E).
  unfold flt. rewrite Hx, Hy, E, Z.ltb_irrefl. split; reflexivity.
Qed.

Lemma py_min_all_equal (rest : list float) (d : float) :
  (forall x, In x rest -> feq x d = true) -> py_min d rest = d.
Proof.
  unfold py_min. induction rest as [|a rest IH]; intros H; [reflexivity|].
  cbn [fold_left].
  destruct (feq_not_flt a d (H a (or_introl eq_refl))) as (-> & _).
  apply IH. intros x Hx. apply H. right. exact Hx.
Qed.

Lemma py_max_all_equal (rest : list float) (d : float) :
  (forall x, In x rest -> feq x d = true) -> py_max d rest = d.
Proof.
  unfold py_max, fgt. induction rest as [|a rest IH]; intros H; [reflexivity|].
  cbn [fold_left].
  destruct (feq_not_flt a d (H a (or_introl eq_refl))) as (_ & ->).
  apply IH. intros x Hx. apply H. right. exact Hx.
Qed.

End NormalizeFacts.


(** ** Sweep reader *)

Module ReaderFacts.
Import Float PyStr NormalizeFacts.

(** [float(str)] on strings tried in CPython 3.11. *)
Lemma py_float_samples :
  List.map (fun s => match py_float s with Ok x => Some (to_SF x) | Raise _ => None end)
    [" 1 "; "1_0"; "1__0"; "1_"; "1.5_5"; "+.5"; "."; "1."; "-InFiNiTy";
     "infinit"; "nan"; "1e"; "1e400"; "1e-400"; "0x10"; "1 2"; "";
     "-70"; "88000000"; "0.1e-322"; "2.4703282292062327e-324";
     "2.4703282292062328e-324"; "1.7976931348623157e308";
     "1.797693134862315808e308"]%string
  = [ Some (S754_finite false 4503599627370496 (-52));
      Some (S754_finite false 5629499534213120 (-49)); None; None;
      Some (S754_finite false 6980579422424269 (-52));
      Some (S754_finite false 4503599627370496 (-53)); None;
      Some (S754_finite false 4503599627370496 (-52));
      Some (S754_infinity true); None; Some S754_nan; None;
      Some (S754_infinity false); Some (S754_zero false); None; None; None;
      Some (S754_finite true 4925812092436480 (-46));
      Some (S754_finite false 5905580032000000 (-26));
      Some (S754_finite false 2 (-1074)); Some (S754_zero false);
      Some (S754_finite false 1 (-1074));
      Some (S754_finite false 9007199254740991 971);
      Some (S754_infinity false) ].
Proof. vm_compute. reflexivity. Qed.

Lemma mapM_Forall2_iff {A B : Type} (f : A -> result B) (l : list A) (l' : list B) :
  mapM f l = Ok l' <-> Forall2 (fun a b => f a = Ok b) l l'.
Proof.
  revert l'. induction l as [|a l IH]; intros l'; split; intros H.
  - injection H as <-. constructor.
  - inversion H. reflexivity.
  - cbn in H. destruct (f a) as [b|e] eqn:Ea; [|discriminate]. cbn in H.
    destruct (mapM f l) as [bs|e] eqn:El; [|discriminate]. cbn in H.
    injection H as <-. constructor; [exact Ea|]. apply IH. reflexivity.
  - inversion H as [|? b ? bs Ea Hl]; subst. cbn. rewrite Ea. cbn.
    apply IH in Hl. rewrite Hl. reflexivity.
Qed.

Lemma mapM_raise {A B : Type} (f : A -> result B) (l : list A) (a : A) (e : exn) :
  In a l -> f a = Raise e -> exists e', mapM f l = Raise e'.
Proof.
  induction l as [|x l IH]; intros Hin Ha; [contradiction|].
  cbn. destruct (f x) as [b|e0] eqn:Ex; [|cbn; eauto]. cbn.
  destruct Hin as [->|Hin]; [congruence|].
  destruct (IH Hin Ha) as (e' & ->). cbn. eauto.
Qed.

Lemma py_index_nth {A : Type} (l : list A) (i : nat) (a : A) :
  nth_error l i = Some a -> py_index l (Z.of_nat i) = Ok a.
Proof.
  intros H. unfold py_index.
  assert (i < List.length l)%nat by (apply nth_error_Some; congruence).
  destruct (Z.ltb_spec (Z.of_nat i) 0); [lia|].
  destruct (Z.leb_spec 0 (Z.of_nat i)); [|lia].
  destruct (Z.ltb_spec (Z.of_nat i) (Z.of_nat (List.length l))); [|lia].
  cbn. rewrite Nat2Z.id, H. reflexivity.
Qed.

Lemma nth_error_total {A : Type} (l : list A) (i : nat) :
  (i < List.length l)%nat -> exists a, nth_error l i = Some a.
Proof.
  intros H. destruct (nth_error l i) eqn:E; [eauto|].
  apply nth_error_None in E. lia.
Qed.

(** The reader, once the last line has at least six fields. *)
Lemma read_fields (lines : list string) (l : string) :
  last_line lines = Some l ->
  (6 <= List.length (split "," (strip l)))%nat ->
  read_spectrum_data_try (Lines lines)
  = (p2 <- py_index (split "," (strip l)) 2 ;;
     lo <- py_float p2 ;;
     p3 <- py_index (split "," (strip l)) 3 ;;
     hi <- py_float p3 ;;
     dbs <- mapM py_float (skipn 6 (split "," (strip l))) ;;
     Ok (Some (Sweep lo hi dbs))).
Proof.
  intros Hl Hn. unfold read_spectrum_data_try. rewrite Hl.
  destruct (Nat.ltb_spec (List.length (split "," (strip l))) 6); [lia|].
  reflexivity.
Qed.

(** What a returned sweep was read from. *)
Lemma read_spectrum_data_inv (f : csv_file) (sw : sweep) :
  read_spectrum_data f = Some sw ->
  exists lines l p2 p3,
    f = Lines lines /\ last_line lines = Some l
    /\ (6 <= List.length (split "," (strip l)))%nat
    /\ nth_error (split "," (strip l)) 2 = Some p2
    /\ py_float p2 = Ok (freq_low sw)
    /\ nth_error (split "," (strip l)) 3 = Some p3
    /\ py_float p3 = Ok (freq_high sw)
    /\ Forall2 (fun p v => py_float p = Ok v)
         (skipn 6 (split "," (strip l))) (db_values sw).
Proof.
  unfold read_spectrum_data. intros H.
  destruct f as [| |lines]; try discriminate.
  destruct (last_line lines) as [l|] eqn:Hl;
    [|unfold read_spectrum_data_try in H; rewrite Hl in H; discriminate].
  destruct (Nat.ltb_spec (List.length (split "," (strip l))) 6) as [Hn|Hn].
  { unfold read_spectrum_data_try in H. rewrite Hl in H.
    apply Nat.ltb_lt in Hn. rewrite Hn in H. discriminate. }
  rewrite (read_fields lines l Hl Hn) in H.
  destruct (nth_error_total (split "," (strip l)) 2 ltac:(lia)) as (p2 & E2).
  destruct (nth_error_total (split "," (strip l)) 3 ltac:(lia)) as (p3 & E3).
  rewrite (py_index_nth _ 2 p2 E2 : py_index _ 2 = _) in H. cbn [bind] in H.
  destruct (py_float p2) as [lo|] eqn:F2; [|discriminate]. cbn [bind] in H.
  rewrite (py_index_nth _ 3 p3 E3 : py_index _ 3 = _) in H. cbn [bind] in H.
  destruct (py_float p3) as [hi|] eqn:F3; [|discriminate]. cbn [bind] in H.
  destruct (mapM py_float (skipn 6 (split "," (strip l)))) as [dbs|] eqn:Fd;
    [|discriminate].
  cbn [bind] in H. injection H as <-.
  exists lines, l, p2, p3. cbn [freq_low freq_high db_values].
  repeat split; try assumption. apply mapM_Forall2_iff. exact Fd.
Qed.

Lemma read_spectrum_data_fields (lines : list string) (l p2 p3 : string)
    (lo hi : float) (dbs : list float) :
  last_line lines = Some l ->
  (6 <= List.length (split "," (strip l)))%nat ->
  nth_error (split "," (strip l)) 2 = Some p2 -> py_float p2 = Ok lo ->
  nth_error (split "," (strip l)) 3 = Some p3 -> py_float p3 = Ok hi ->
  Forall2 (fun p v => py_float p = Ok v) (skipn 6 (split "," (strip l))) dbs ->
  read_spectrum_data (Lines lines) = Some (Sweep lo hi dbs).
Proof.
  intros Hl Hn E2 F2 E3 F3 Fd. unfold read_spectrum_data.
  rewrite (read_fields lines l Hl Hn).
  rewrite (py_index_nth _ 2 p2 E2 : py_index _ 2 = _). cbn [bind]. rewrite F2. cbn [bind].
  rewrite (py_index_nth _ 3 p3 E3 : py_index _ 3 = _). cbn [bind]. rewrite F3. cbn [bind].
  apply mapM_Forall2_iff in Fd. rewrite Fd. reflexivity.
Qed.

(** Stripping a row that carries only its line end *)

Lemma all_space_lstrip (w : string) :
  all_space w = true -> lstrip_by is_space w = EmptyString.
Proof.
  induction w as [|c w IH]; intros H; [reflexivity|].
  cbn in H. apply andb_prop in H as [Hc Hw]. cbn. rewrite Hc. auto.
Qed.

Lemma all_space_rstrip (w : string) :
  all_space w = true -> rstrip_by is_space w = EmptyString.
Proof.
  induction w as [|c w IH]; intros H; [reflexivity|].
  cbn in H. apply andb_prop in H as [Hc Hw]. cbn. rewrite (IH Hw), Hc. reflexivity.
Qed.

Lemma rstrip_app_space (s w : string) :
  all_space w = true ->
  rstrip_by is_space (s ++ w) = rstrip_by is_space s.
Proof.
  intros Hw. induction s as [|c s IH].
  - cbn. apply all_space_rstrip. exact Hw.
  - cbn. rewrite IH. reflexivity.
Qed.

Lemma lstrip_length (s : string) :
  (String.length (lstrip_by is_space s) <= String.length s)%nat.
Proof.
  induction s as [|c s IH]; cbn; [lia|].
  destruct (is_space c); cbn; lia.
Qed.

Lemma rstrip_length (s : string) :
  (String.length (rstrip_by is_space s) <= String.length s)%nat.
Proof.
  induction s as [|c s IH]; cbn; [lia|].
  destruct (rstrip_by is_space s); [destruct (is_space c)|]; cbn in *; lia.
Qed.

Lemma strip_row (row w : string) :
  strip row = row -> all_space w = true -> strip (row ++ w) = row.
Proof.
  intros Hrow Hw. unfold strip in *.
  destruct row as [|c r].
  - cbn. rewrite (all_space_lstrip w Hw). reflexivity.
  - destruct (is_space c) eqn:Hc.
    + exfalso. cbn in Hrow. rewrite Hc in Hrow.
      pose proof (rstrip_length (lstrip_by is_space r)).
      pose proof (lstrip_length r).
      rewrite Hrow in *. cbn in *. lia.
    + cbn [append lstrip_by] in *. rewrite Hc in *.
      change (String c (r ++ w)) with (String c r ++ w)%string.
      rewrite rstrip_app_space by exact Hw. exact Hrow.
Qed.

End ReaderFacts.

(** ** Renderer *)

Module RenderFacts.

Lemma bind_ok {A B : Type} (r : result A) (k : A -> result B) (b : B) :
  bind r k = Ok b -> exists a, r = Ok a /\ k a = Ok b.
Proof. destruct r as [a|e]; [eauto|discriminate]. Qed.

Lemma mapM_Forall {A B : Type} (f : A -> result B) (P : B -> Prop)
    (l : list A) (l' : list B) :
  (forall a b, f a = Ok b -> P b) -> mapM f l = Ok l' -> Forall P l'.
Proof.
  intros Hf. revert l'. induction l as [|a l IH]; intros l' H.
  - injection H as <-. constructor.
  - cbn in H. apply bind_ok in H as (b & Eb & H).
    apply bind_ok in H as (bs & Ebs & H). injection H as <-.
    constructor; [eapply Hf; eassumption|apply IH; assumption].
Qed.

Lemma filter_none {A : Type} (p : A -> bool) (l : list A) :
  Forall (fun a => p a = false) l -> filter p l = [].
Proof.
  induction 1 as [|a l Ha _ IH]; [reflexivity|]. cbn. rewrite Ha. exact IH.
Qed.

Lemma draw_bar_no_line (bars_style : bool) (env : environment)
    (bar_width : float) (item : Z * float) (ops : list draw_op) :
  draw_bar bars_style env bar_width item = Ok ops ->
  Forall (fun op => is_line op = false) ops.
Proof.
  unfold draw_bar. destruct item as [i value]. intros H.
  apply bind_ok in H as (fi & _ & H). destruct bars_style.
  - apply bind_ok in H as (fill & _ & H).
    apply bind_ok in H as (bar & Hbar & H). injection H as <-.
    unfold draw_rectangle in Hbar.
    destruct (flt _ _); [discriminate|]. destruct (flt _ _); [discriminate|].
    injection Hbar as <-. repeat constructor.
  - apply bind_ok in H as (ci & _ & H). apply bind_ok in H as (ch & _ & H).
    apply bind_ok in H as (n & _ & H). injection H as <-.
    apply Forall_forall. intros op Hop. apply in_map_iff in Hop as (j & <- & _).
    reflexivity.
Qed.

Lemma frequency_label_no_line (small_font : font) (lo hi : float) (i : Z)
    (op : draw_op) :
  frequency_label small_font lo hi i = Ok op -> is_line op = false.
Proof.
  unfold frequency_label. intros H.
  apply bind_ok in H as (? & _ & H). apply bind_ok in H as (? & _ & H).
  apply bind_ok in H as (? & _ & H). apply bind_ok in H as (? & _ & H).
  apply bind_ok in H as (? & _ & H). apply bind_ok in H as (? & _ & H).
  injection H as <-. reflexivity.
Qed.

Lemma concat_no_line (l : list (list draw_op)) :
  Forall (Forall (fun op => is_line op = false)) l ->
  Forall (fun op => is_line op = false) (List.concat l).
Proof.
  induction 1 as [|x l Hx _ IH]; [constructor|].
  cbn. apply Forall_app. split; assumption.
Qed.

Lemma grid_lines_computed :
  mapM horizontal_grid_line (py_range 0 11 2)
  = Ok (List.map (fun i => horizontal_at i 5) [0; 1; 2; 3; 4; 5])
  /\ mapM vertical_grid_line (py_range 0 11 2)
     = Ok (List.map (fun i => vertical_at i 5) [0; 1; 2; 3; 4; 5]).
Proof. split; vm_compute; reflexivity. Qed.

(** The lines of a rendered sweep are the grid. *)
Lemma rendered_lines (bars_style : bool) (env : environment) (sw : sweep)
    (img : image) :
  db_values sw <> [] ->
  create_spectrum_image bars_style env (Some sw) = Ok img ->
  filter is_line (img_ops img)
  = List.map (fun i => horizontal_at i 5) [0; 1; 2; 3; 4; 5]
    ++ List.map (fun i => vertical_at i 5) [0; 1; 2; 3; 4; 5].
Proof.
  intros Hne H. unfold create_spectrum_image in H.
  destruct (db_values sw) as [|d rest] eqn:Ed; [congruence|].
  destruct grid_lines_computed as (Eh & Ev).
  apply bind_ok in H as (normalized & _ & H).
  rewrite Eh in H. cbn [bind] in H. rewrite Ev in H. cbn [bind] in H.
  apply bind_ok in H as (bw & _ & H).
  apply bind_ok in H as (bars & Hbars & H).
  apply bind_ok in H as (low & _ & H). apply bind_ok in H as (high & _ & H).
  apply bind_ok in H as (labels & Hlabels & H).
  injection H as <-. unfold blank. cbn [img_ops].
  assert (Nb : Forall (fun op => is_line op = false) (List.concat bars)).
  { apply concat_no_line.
    eapply mapM_Forall; [|exact Hbars]. intros a b. apply draw_bar_no_line. }
  assert (Nl : Forall (fun op => is_line op = false) labels).
  { eapply mapM_Forall; [|exact Hlabels]. intros a b. apply frequency_label_no_line. }
  cbn [filter is_line horizontal_at vertical_at map app].
  rewrite filter_app, (filter_none _ _ Nb).
  cbn [filter is_line app].
  rewrite filter_app, (filter_none _ _ Nl). reflexivity.
Qed.

End RenderFacts.

(** * The claims *)

Import FloatFacts GradientFacts NormalizeFacts ReaderFacts RenderFacts.

(** C1. The gradient is black at 0.0 and red at 1.0; on [0,1] it returns
    three integers in [0,255], shaped by the stage the value falls in
    (below 0.3 only blue moves, from 0.3 to 0.6 red stays 0, from 0.6 to
    0.8 green is 255 and blue 0, from 0.8 on red is 255 and blue 0);
    on [0,1] every channel is within 1 of the integer part of the exact
    four-segment linear interpolation (dark to blue below 0.3, blue to
    green up to 0.6, green to yellow up to 0.8, yellow to red above);
    and within 2^-11 of each of the boundaries 0.3, 0.6 and 0.8 every
    channel is within 1 of its value at the boundary. *)
Theorem spectrum_color_gradient_spec :
  spectrum_color_gradient zero = Ok (0, 0, 0)
  /\ spectrum_color_gradient one = Ok (255, 0, 0)
  /\ (forall v, in_unit v = true ->
        exists r g b, spectrum_color_gradient v = Ok (r, g, b)
          /\ channel r /\ channel g /\ channel b
          /\ stage_shape (stage_of v) (r, g, b))
  /\ (forall v, in_unit v = true ->
        exists c, spectrum_color_gradient v = Ok c
          /\ color_close c (linear_gradient v))
  /\ (forall b v, In b [dec 3 10; dec 6 10; dec 8 10] -> near b v = true ->
        exists c cb, spectrum_color_gradient v = Ok c
          /\ spectrum_color_gradient b = Ok cb /\ color_close c cb).
Proof.
  split; [vm_compute; reflexivity|].
  split; [vm_compute; reflexivity|].
  split; [exact gradient_in_unit|].
  split; [exact GradientLinear.gradient_linear|].
  intros b v Hb Hn.
  destruct Hb as [<-|[<-|[<-|[]]]].
  - destruct (gradient_near_03 v Hn) as (c & E & Hc).
    exists c, (0, 0, 255).
    split; [exact E|]. split; [vm_compute; reflexivity|exact Hc].
  - destruct (gradient_near_06 v Hn) as (c & E & Hc).
    exists c, (0, 255, 0).
    split; [exact E|]. split; [vm_compute; reflexivity|exact Hc].
  - destruct (gradient_near_08 v Hn) as (c & E & Hc).
    exists c, (255, 255, 0).
    split; [exact E|]. split; [vm_compute; reflexivity|exact Hc].
Qed.

Lemma spectrum_color_gradient_spec_witness :
  in_unit (dec 5 10) = true
  /\ exists r g b, spectrum_color_gradient (dec 5 10) = Ok (r, g, b)
       /\ channel r /\ channel g /\ channel b
       /\ stage_shape (stage_of (dec 5 10)) (r, g, b).
Proof.
  split; [reflexivity|].
  destruct spectrum_color_gradient_spec as (_ & _ & H & _ & _).
  apply (H (dec 5 10)). reflexivity.
Defined.


(** C2. The normaliser does not do what C2 and its own docstring say on
    readings whose spread is not a finite float: with -inf and -50 both
    results are NaN, and with -1e308 and 1e308 the spread overflows and
    the greatest reading is sent to NaN. *)
Lemma normalize_db_values_not_in_unit :
  let big := dec (10 ^ 308) 1 in
  (feq (py_max (fneg big) [big]) (py_min (fneg big) [big]) = false
   /\ normalize_db_values [fneg big; big] = Ok [zero; NaN])
  /\ (feq (py_max (Inf true) [fneg (dec 50 1)])
          (py_min (Inf true) [fneg (dec 50 1)]) = false
      /\ normalize_db_values [Inf true; fneg (dec 50 1)] = Ok [NaN; NaN])
  /\ in_unit NaN = false /\ feq NaN one = false.
Proof. vm_compute. repeat split. Qed.

(** X21. For finite readings whose least and greatest differ and
    whose spread [max - min] is a finite float, every result lies in
    [0,1], a reading equal to the greatest gives 1.0 and one equal to the
    least gives 0.0; for readings that are all equal, every result is 0.5.
    No division by zero occurs in either case. *)
Theorem normalize_db_values_spec :
  (forall d rest,
      Forall (fun x => proper x = true) (d :: rest) ->
      feq (py_max d rest) (py_min d rest) = false ->
      proper (fsub (py_max d rest) (py_min d rest)) = true ->
      exists l, normalize_db_values (d :: rest) = Ok l
        /\ Forall2 (normalized (py_min d rest) (py_max d rest)) (d :: rest) l)
  /\ (forall d rest,
        (forall x y, In x (d :: rest) -> In y (d :: rest) -> feq x y = true) ->
        normalize_db_values (d :: rest)
        = Ok (repeat (dec 5 10) (List.length (d :: rest)))).
Proof.
  split.
  - intros d rest Hfin Hne Hspread.
    destruct (py_min_spec rest d Hfin) as (Imin & Lmin).
    destruct (py_max_spec rest d Hfin) as (Imax & Lmax).
    rewrite Forall_forall in Hfin.
    unfold normalize_db_values. rewrite Hne.
    apply mapM_Forall2. intros db Hdb.
    apply scale_reading; auto.
    pose proof (Hfin _ Imin) as Pmin. pose proof (Hfin _ Imax) as Pmax.
    destruct (proper_inv _ Pmin) as (s1 & m1 & k1 & E1 & _).
    destruct (proper_inv _ Pmax) as (s2 & m2 & k2 & E2 & _).
    assert (ext (py_max d rest) <> ext (py_min d rest)).
    { apply feq_false; [exact Hne|rewrite E2; reflexivity|rewrite E1; reflexivity]. }
    specialize (Lmin _ Imax). lia.
  - intros d rest Heq.
    assert (Hd : forall x, In x rest -> feq x d = true).
    { intros x Hx. apply Heq; [right; exact Hx|left; reflexivity]. }
    unfold normalize_db_values.
    rewrite (py_min_all_equal rest d Hd), (py_max_all_equal rest d Hd).
    rewrite (Heq d d (or_introl eq_refl) (or_introl eq_refl)). reflexivity.
Qed.

Lemma normalize_db_values_spec_witness :
  let d := fneg (dec 70 1) in
  let rest := [fneg (dec 60 1); fneg (dec 50 1); fneg (dec 80 1)] in
  exists l, normalize_db_values (d :: rest) = Ok l
    /\ Forall2 (normalized (py_min d rest) (py_max d rest)) (d :: rest) l.
Proof.
  intros d rest.
  apply (proj1 normalize_db_values_spec d rest).
  - repeat constructor.
  - reflexivity.
  - reflexivity.
Defined.

(** C9. In the ASCII style, a normalised value in [0,1] selects an index
    from 0 to 4, and that index is in bounds of the five characters. *)
Theorem char_index_in_bounds (value : float) :
  in_unit value = true ->
  exists k, char_index value = Ok k
    /\ 0 <= k <= Z.of_nat (List.length ASCII_CHARS) - 1
    /\ k <= 4
    /\ exists ch, py_index ASCII_CHARS k = Ok ch.
Proof.
  intros Hv. apply andb_prop in Hv as [L U].
  assert (B : btw zero one value) by (apply btw_of_fle; auto).
  unfold char_index.
  mul_step B (of_Z (Z.of_nat (List.length ASCII_CHARS) - 1)) Bm.
  int_step Bm k Ek Hk.
  exists k. split; [exact Ek|]. split; [cbn; lia|]. split; [lia|].
  assert (C : k = 0 \/ k = 1 \/ k = 2 \/ k = 3 \/ k = 4) by lia.
  destruct C as [->|[->|[->|[->| ->]]]]; eexists; reflexivity.
Qed.

Lemma char_index_in_bounds_witness :
  exists k, char_index (dec 5 10) = Ok k
    /\ 0 <= k <= Z.of_nat (List.length ASCII_CHARS) - 1
    /\ k <= 4
    /\ exists ch, py_index ASCII_CHARS k = Ok ch.
Proof. apply (char_index_in_bounds (dec 5 10)). reflexivity. Defined.

(** C10. [normalize_db_values] returns, for every list, a list of the
    same length; for the empty list, the empty list. *)
Theorem normalize_db_values_length :
  normalize_db_values [] = Ok []
  /\ forall db_values, exists l,
       normalize_db_values db_values = Ok l
       /\ List.length l = List.length db_values.
Proof.
  split; [reflexivity|].
  intros [|d rest]; [exists []; split; reflexivity|].
  unfold normalize_db_values.
  destruct (feq (py_max d rest) (py_min d rest)) eqn:E.
  - eexists. split; [reflexivity|]. apply repeat_length.
  - destruct (mapM_total
                (fun db => fdiv (fsub db (py_min d rest))
                             (fsub (py_max d rest) (py_min d rest)))
                (d :: rest)) as (l & El).
    { intros a _. apply fdiv_total, fsub_nonzero, E. }
    exists l. split; [exact El|]. apply (mapM_length _ _ _ El).
Qed.

(** C3. When the last line is a row (no blanks around it) followed by
    its line end, and the row's comma-separated fields are numeric at
    index 2 and 3 and from index 6 on, N >= 1 of the latter, the reader
    returns the sweep whose bounds are fields 2 and 3 and whose readings
    are the N fields from index 6 on, in order. *)
Theorem read_spectrum_data_well_formed
    (lines : list string) (row ending p2 p3 : string)
    (lo hi : float) (dbs : list float) :
  last_line lines = Some (row ++ ending)%string ->
  all_space ending = true -> strip row = row ->
  nth_error (split "," row) 2 = Some p2 -> py_float p2 = Ok lo ->
  nth_error (split "," row) 3 = Some p3 -> py_float p3 = Ok hi ->
  Forall2 (fun p v => py_float p = Ok v) (skipn 6 (split "," row)) dbs ->
  (1 <= List.length dbs)%nat ->
  read_spectrum_data (Lines lines) = Some (Sweep lo hi dbs)
  /\ db_values (Sweep lo hi dbs) = dbs
  /\ (List.length dbs = List.length (split "," row) - 6)%nat.
Proof.
  intros Hl Hw Hrow E2 F2 E3 F3 Fd HN.
  assert (Hlen : (List.length dbs = List.length (split "," row) - 6)%nat).
  { rewrite <- (Forall2_length Fd). apply length_skipn. }
  split; [|split; [reflexivity|exact Hlen]].
  apply (read_spectrum_data_fields lines (row ++ ending) p2 p3);
    rewrite ?(strip_row row ending Hrow Hw); try assumption.
  lia.
Qed.

Lemma read_spectrum_data_well_formed_witness :
  let row := "2024-01-01,12:00:00,88000000,108000000,10000,2000,-70,-60,-50,-80"%string in
  let dbs := [fneg (dec 70 1); fneg (dec 60 1); fneg (dec 50 1); fneg (dec 80 1)] in
  read_spectrum_data (Lines [(row ++ String "010" "")%string])
  = Some (Sweep (dec 88000000 1) (dec 108000000 1) dbs)
  /\ db_values (Sweep (dec 88000000 1) (dec 108000000 1) dbs) = dbs
  /\ (List.length dbs = List.length (split "," row) - 6)%nat.
Proof.
  intros row dbs.
  apply (read_spectrum_data_well_formed _ row (String "010" "")
           "88000000" "108000000").
  - reflexivity.
  - reflexivity.
  - reflexivity.
  - reflexivity.
  - reflexivity.
  - reflexivity.
  - reflexivity.
  - repeat constructor.
  - cbn. lia.
Defined.

(** C4. The reader returns a sweep or no data, whatever it finds: no data
    when the file is missing, cannot be read, or is empty, when the last
    line has fewer than six fields, and when a field at index 2, 3 or
    from 6 on is not numeric; an exception raised while reading is caught
    and gives no data. *)
Theorem read_spectrum_data_no_data :
  read_spectrum_data Missing = None
  /\ read_spectrum_data Unreadable = None
  /\ read_spectrum_data (Lines []) = None
  /\ (forall lines l,
        last_line lines = Some l ->
        (List.length (split "," (strip l)) < 6)%nat ->
        read_spectrum_data (Lines lines) = None)
  /\ (forall lines l i p e,
        last_line lines = Some l ->
        nth_error (split "," (strip l)) i = Some p ->
        required_field i -> py_float p = Raise e ->
        read_spectrum_data (Lines lines) = None)
  /\ (forall f e,
        read_spectrum_data_try f = Raise e -> read_spectrum_data f = None).
Proof.
  split; [reflexivity|]. split; [reflexivity|]. split; [reflexivity|].
  split; [|split].
  - intros lines l Hl Hn. unfold read_spectrum_data, read_spectrum_data_try.
    rewrite Hl. apply Nat.ltb_lt in Hn. rewrite Hn. reflexivity.
  - intros lines l i p e Hl Hi Hreq Hp. unfold read_spectrum_data.
    destruct (Nat.ltb_spec (List.length (split "," (strip l))) 6) as [Hn|Hn].
    { unfold read_spectrum_data_try. rewrite Hl.
      apply Nat.ltb_lt in Hn. rewrite Hn. reflexivity. }
    rewrite (read_fields lines l Hl Hn).
    destruct (nth_error_total (split "," (strip l)) 2 ltac:(lia)) as (p2 & E2).
    destruct (nth_error_total (split "," (strip l)) 3 ltac:(lia)) as (p3 & E3).
    rewrite (py_index_nth _ 2 p2 E2 : py_index _ 2 = _). cbn [bind].
    destruct (py_float p2) as [lo|] eqn:F2; [|reflexivity]. cbn [bind].
    rewrite (py_index_nth _ 3 p3 E3 : py_index _ 3 = _). cbn [bind].
    destruct (py_float p3) as [hi|] eqn:F3; [|reflexivity]. cbn [bind].
    destruct Hreq as [->|[->|Hreq]]; [congruence|congruence|].
    assert (Hin : In p (skipn 6 (split "," (strip l)))).
    { apply (nth_error_In _ (i - 6)). rewrite nth_error_skipn.
      replace (6 + (i - 6))%nat with i by lia. exact Hi. }
    destruct (mapM_raise py_float _ p e Hin Hp) as (e' & ->). reflexivity.
  - intros f e H. unfold read_spectrum_data. rewrite H. reflexivity.
Qed.

Lemma read_spectrum_data_no_data_witness :
  read_spectrum_data (Lines ["1,2,3"; "a,b,88000000,x,c,d,-70"]%string) = None.
Proof.
  destruct read_spectrum_data_no_data as (_ & _ & _ & _ & H & _).
  apply (H _ "a,b,88000000,x,c,d,-70"%string 3%nat "x"%string ValueError).
  - reflexivity.
  - reflexivity.
  - right. left. reflexivity.
  - reflexivity.
Defined.

(** C5, as stated, fails: a last line of exactly six fields gives a sweep
    with no readings, and the two bounds are taken in the order they are
    written. *)
Lemma read_spectrum_data_breaks_invariant :
  read_spectrum_data (Lines ["a,b,2,1,c,d"%string])
  = Some (Sweep (dec 2 1) (dec 1 1) [])
  /\ fle (dec 2 1) (dec 1 1) = false.
Proof. vm_compute. split; reflexivity. Qed.

(** C5, amended. Every sweep the reader returns comes from a last line
    of at least six fields: its bounds are the floats of fields 2 and 3,
    in that order and unchecked, and its readings are the floats of the
    fields from index 6 on, as many as there are (none for six fields). *)
Theorem read_spectrum_data_sweep (f : csv_file) (sw : sweep) :
  read_spectrum_data f = Some sw ->
  exists lines l p2 p3,
    f = Lines lines /\ last_line lines = Some l
    /\ (6 <= List.length (split "," (strip l)))%nat
    /\ nth_error (split "," (strip l)) 2 = Some p2
    /\ py_float p2 = Ok (freq_low sw)
    /\ nth_error (split "," (strip l)) 3 = Some p3
    /\ py_float p3 = Ok (freq_high sw)
    /\ Forall2 (fun p v => py_float p = Ok v)
         (skipn 6 (split "," (strip l))) (db_values sw)
    /\ (List.length (db_values sw)
        = List.length (split "," (strip l)) - 6)%nat.
Proof.
  intros H.
  destruct (read_spectrum_data_inv f sw H)
    as (lines & l & p2 & p3 & Ef & Hl & Hn & E2 & F2 & E3 & F3 & Fd).
  exists lines, l, p2, p3. repeat split; try assumption.
  rewrite <- (Forall2_length Fd). apply length_skipn.
Qed.

Lemma read_spectrum_data_sweep_witness :
  exists lines l p2 p3,
    Lines ["a,b,2,1,c,d"%string] = Lines lines /\ last_line lines = Some l
    /\ (6 <= List.length (split "," (strip l)))%nat
    /\ nth_error (split "," (strip l)) 2 = Some p2
    /\ py_float p2 = Ok (dec 2 1)
    /\ nth_error (split "," (strip l)) 3 = Some p3
    /\ py_float p3 = Ok (dec 1 1)
    /\ Forall2 (fun p v => py_float p = Ok v)
         (skipn 6 (split "," (strip l))) []
    /\ (List.length (@nil float)
        = List.length (split "," (strip l)) - 6)%nat.
Proof.
  apply (read_spectrum_data_sweep (Lines ["a,b,2,1,c,d"%string])
           (Sweep (dec 2 1) (dec 1 1) [])).
  reflexivity.
Defined.

(** C7. The row of the end-to-end scenario, with or without its line
    end, is read as the sweep 88000000 to 108000000 Hz with the readings
    -70, -60, -50, -80; these normalise to the floats nearest 1/3 and 2/3,
    then 1.0 and 0.0, which are within 0.001 of 0.333, 0.667, 1.0, 0.0. *)
Theorem end_to_end_scenario :
  let row := "2024-01-01,12:00:00,88000000,108000000,10000,2000,-70,-60,-50,-80"%string in
  let sw := Sweep (of_Z 88000000) (of_Z 108000000)
              [of_Z (-70); of_Z (-60); of_Z (-50); of_Z (-80)] in
  read_spectrum_data (Lines [row]) = Some sw
  /\ read_spectrum_data (Lines [(row ++ String "010" "")%string]) = Some sw
  /\ normalize_db_values (db_values sw)
     = Ok [dec 1 3; dec 2 3; one; zero]
  /\ close_to (dec 1 3) 333 1000 1000
  /\ close_to (dec 2 3) 667 1000 1000
  /\ close_to one 1 1 1000
  /\ close_to zero 0 1 1000.
Proof.
  cbv zeta. repeat split; vm_compute; try reflexivity; discriminate.
Qed.

(** C6, as stated, fails: the grid of a rendered sweep has six horizontal
    and six vertical lines, not five of each. *)
Lemma grid_has_six_lines :
  exists img,
    create_spectrum_image BARS_STYLE (Env true "2024-01-01 12:00:00") (Some scenario_sweep)
    = Ok img
    /\ List.length (filter is_horizontal (img_ops img)) = 6%nat
    /\ List.length (filter is_vertical (img_ops img)) = 6%nat
    /\ List.length (filter is_horizontal (img_ops img)) <> 5%nat.
Proof.
  eexists. split; [vm_compute; reflexivity|].
  split; [reflexivity|]. split; [reflexivity|]. discriminate.
Qed.

(** C6, amended. When a sweep with readings is rendered, the lines drawn
    are the grid: six horizontal lines at the fractions 0, 1/5, ..., 1 of
    the plot height and six vertical lines at the same fractions of the
    plot width, each running between the margins; they bound five equal
    bands each way. *)
Theorem grid_lines (bars_style : bool) (env : environment) (sw : sweep)
    (img : image) :
  db_values sw <> [] ->
  create_spectrum_image bars_style env (Some sw) = Ok img ->
  filter is_line (img_ops img)
  = List.map (fun i => horizontal_at i 5) [0; 1; 2; 3; 4; 5]
    ++ List.map (fun i => vertical_at i 5) [0; 1; 2; 3; 4; 5]
  /\ List.length (filter is_horizontal (img_ops img)) = 6%nat
  /\ List.length (filter is_vertical (img_ops img)) = 6%nat.
Proof.
  intros Hne H. pose proof (rendered_lines _ _ _ _ Hne H) as E.
  split; [exact E|].
  assert (Fh : forall l, filter is_horizontal l = filter is_horizontal (filter is_line l)).
  { induction l as [|op l IH]; [reflexivity|].
    destruct op as [x0 y0 x1 y1 c w| |];
      cbn [filter is_line is_horizontal]; [|exact IH..].
    destruct (y0 =? y1); [f_equal|]; exact IH. }
  assert (Fv : forall l, filter is_vertical l = filter is_vertical (filter is_line l)).
  { induction l as [|op l IH]; [reflexivity|].
    destruct op as [x0 y0 x1 y1 c w| |];
      cbn [filter is_line is_vertical]; [|exact IH..].
    destruct (x0 =? x1); [f_equal|]; exact IH. }
  rewrite Fh, Fv, E. split; reflexivity.
Qed.

Lemma grid_lines_witness :
  exists img,
    create_spectrum_image false (Env false "now") (Some scenario_sweep) = Ok img
    /\ filter is_line (img_ops img)
       = List.map (fun i => horizontal_at i 5) [0; 1; 2; 3; 4; 5]
         ++ List.map (fun i => vertical_at i 5) [0; 1; 2; 3; 4; 5].
Proof.
  eexists. split; [vm_compute; reflexivity|].
  refine (proj1 (grid_lines false (Env false "now") scenario_sweep _ _ _));
    [discriminate|vm_compute; reflexivity].
Defined.

(** C8. Rendering no data gives the background and one text, the waiting
    message anchored 200 pixels left of the centre of the frame, and
    nothing else: no line, no bar, no timestamp. The frame does not depend
    on the clock or on the style, so two renders with the same font
    available are equal. *)
Theorem no_data_frame (b1 b2 : bool) (e1 e2 : environment) :
  dejavu_font e1 = dejavu_font e2 ->
  create_spectrum_image b1 e1 None = create_spectrum_image b2 e2 None
  /\ create_spectrum_image b1 e1 None
     = Ok (Image (SCREEN_WIDTH, SCREEN_HEIGHT) BG_COLOR
             [Text (I (SCREEN_WIDTH / 2 - 200)) (I (SCREEN_HEIGHT / 2))
                (Plain "Waiting for RTL-SDR data...") TEXT_COLOR
                (load_font e1 40)]).
Proof.
  intros E. split; [|reflexivity].
  unfold create_spectrum_image, load_font. rewrite E. reflexivity.
Qed.

Lemma no_data_frame_witness :
  create_spectrum_image true (Env true "2024-01-01 12:00:00") None
  = create_spectrum_image false (Env true "2024-01-01 12:00:05") None.
Proof.
  apply (no_data_frame true false (Env true "2024-01-01 12:00:00")
           (Env true "2024-01-01 12:00:05")).
  reflexivity.
Defined.

(** * Further properties *)

(** ** Launcher, publisher and loop *)

Module EffectFacts.

Lemma read_spectrum_data_io_value (f : csv_file) :
  snd (read_spectrum_data_io f) = read_spectrum_data f.
Proof.
  unfold read_spectrum_data_io, read_spectrum_data.
  destruct (read_spectrum_data_try f); reflexivity.
Qed.

Lemma filter_concat_map {A B : Type} (p : B -> bool) (f : A -> list B)
    (l : list A) :
  filter p (List.concat (List.map f l))
  = List.concat (List.map (fun a => filter p (f a)) l).
Proof.
  induction l as [|a l IH]; [reflexivity|].
  cbn [List.map List.concat]. rewrite filter_app, IH. reflexivity.
Qed.

Lemma length_concat_const {A B : Type} (f : A -> list B) (n : nat)
    (l : list A) :
  (forall a, List.length (f a) = n) ->
  List.length (List.concat (List.map f l)) = (List.length l * n)%nat.
Proof.
  intros H. induction l as [|a l IH]; [reflexivity|].
  cbn [List.map List.concat List.length]. rewrite length_app, IH, H. lia.
Qed.

(** The publisher, case by case. *)
Lemma set_gnome_wallpaper_cases (d : desktop) (image_path : string) :
  match abspath d image_path with
  | Raise e =>
      set_gnome_wallpaper d image_path
      = ([PrintedExn "[!] Error setting wallpaper: " e], false)
  | Ok p =>
      let uri := ("file://" ++ p)%string in
      match run_picture_uri d with
      | Raise e =>
          set_gnome_wallpaper d image_path
          = ([Ran (gsettings_set "picture-uri" uri);
              PrintedExn "[!] Error setting wallpaper: " e], false)
      | Ok _ =>
          match run_picture_uri_dark d with
          | Raise e =>
              set_gnome_wallpaper d image_path
              = ([Ran (gsettings_set "picture-uri" uri);
                  Ran (gsettings_set "picture-uri-dark" uri);
                  PrintedExn "[!] Error setting wallpaper: " e], false)
          | Ok _ =>
              set_gnome_wallpaper d image_path
              = ([Ran (gsettings_set "picture-uri" uri);
                  Ran (gsettings_set "picture-uri-dark" uri);
                  Printed ("[+] Wallpaper updated: " ++ image_path)], true)
          end
      end
  end.
Proof.
  unfold set_gnome_wallpaper, set_gnome_wallpaper_try, pure_result, call,
    emit, io_ret, io_bind.
  destruct (abspath d image_path) as [p|e]; [|reflexivity].
  destruct (run_picture_uri d) as [[]|e]; [|reflexivity].
  destruct (run_picture_uri_dark d) as [[]|e]; reflexivity.
Qed.

Lemma set_gnome_wallpaper_sleeps (d : desktop) (image_path : string) :
  filter is_sleep (fst (set_gnome_wallpaper d image_path)) = [].
Proof.
  pose proof (set_gnome_wallpaper_cases d image_path) as H.
  destruct (abspath d image_path) as [p|e]; [|rewrite H; reflexivity].
  cbv zeta in H.
  destruct (run_picture_uri d) as [[]|e]; [|rewrite H; reflexivity].
  destruct (run_picture_uri_dark d) as [[]|e]; rewrite H; reflexivity.
Qed.

Lemma read_spectrum_data_io_sleeps (f : csv_file) :
  filter is_sleep (fst (read_spectrum_data_io f)) = [].
Proof.
  unfold read_spectrum_data_io.
  destruct (read_spectrum_data_try f); reflexivity.
Qed.

(** One iteration, case by case. *)
Lemma loop_iteration_cases (P : string) (w : tick_world) :
  let rd := read_spectrum_data_io (tick_csv w) in
  match create_spectrum_image BARS_STYLE (tick_env w) (snd rd) with
  | Raise e =>
      loop_iteration P w
      = fst rd ++ [PrintedExn "[!] Error in main loop: " e; Slept UPDATE_INTERVAL]
  | Ok img =>
      match tick_save w with
      | Raise e =>
          loop_iteration P w
          = fst rd ++ [Saved img P "PNG";
                       PrintedExn "[!] Error in main loop: " e;
                       Slept UPDATE_INTERVAL]
      | Ok _ =>
          loop_iteration P w
          = fst rd ++ [Saved img P "PNG"]
            ++ fst (set_gnome_wallpaper (tick_desktop w) P)
            ++ [Slept UPDATE_INTERVAL]
      end
  end.
Proof.
  cbv zeta.
  unfold loop_iteration, loop_try, handled, pure_result, call, emit, io_bind.
  destruct (read_spectrum_data_io (tick_csv w)) as [ev data]. cbn [fst snd].
  destruct (create_spectrum_image BARS_STYLE (tick_env w) data) as [img|e];
    [|rewrite app_nil_r; reflexivity].
  destruct (tick_save w) as [[]|e];
    [|cbn [app]; rewrite <- ?app_assoc; reflexivity].
  destruct (set_gnome_wallpaper (tick_desktop w) P) as [ev' b].
  cbn [fst snd app]. rewrite <- ?app_assoc. reflexivity.
Qed.

Lemma set_gnome_wallpaper_saves (d : desktop) (image_path : string) :
  filter is_save (fst (set_gnome_wallpaper d image_path)) = [].
Proof.
  pose proof (set_gnome_wallpaper_cases d image_path) as H.
  destruct (abspath d image_path) as [p|e]; [|rewrite H; reflexivity].
  cbv zeta in H.
  destruct (run_picture_uri d) as [[]|e]; [|rewrite H; reflexivity].
  destruct (run_picture_uri_dark d) as [[]|e]; rewrite H; reflexivity.
Qed.

Lemma read_spectrum_data_io_quiet (f : csv_file) (p : event -> bool) :
  (forall text e, p (PrintedExn text e) = false) ->
  filter p (fst (read_spectrum_data_io f)) = [].
Proof.
  intros Hp. unfold read_spectrum_data_io.
  destruct (read_spectrum_data_try f); cbn; rewrite ?Hp; reflexivity.
Qed.

Lemma publish_without_save (l : list event) :
  filter is_save l = [] -> filter is_publish l = filter is_run l.
Proof.
  induction l as [|ev l IH]; [reflexivity|]. cbn [filter]. unfold is_publish at 1.
  destruct (is_save ev); [discriminate|]. cbn [orb]. intros H.
  destruct (is_run ev); [f_equal|]; apply IH; exact H.
Qed.

(** The launcher, case by case. *)
Lemma start_rtl_power_cases (w : launch_world) :
  let path := "/tmp/rtl_spectrum.csv"%string in
  let cmd := rtl_power_cmd path in
  let starting := Printed ("[*] Starting rtl_power: " ++ join " " cmd) in
  let removal := if csv_exists w then [Removed path] else [] in
  match (if csv_exists w then remove_csv w else Ok tt) with
  | Raise e => start_rtl_power w = ([Removed path], Raise e)
  | Ok _ =>
      match popen w with
      | Raise e =>
          start_rtl_power w = (removal ++ [starting; Spawned cmd], Raise e)
      | Ok p =>
          start_rtl_power w
          = (removal ++ [starting; Spawned cmd], Ok (p, path))
      end
  end.
Proof.
  cbv zeta. unfold start_rtl_power, call, emit, io_ret, io_bind.
  destruct (csv_exists w).
  - destruct (remove_csv w) as [[]|e]; [|reflexivity].
    destruct (popen w) as [p|e]; reflexivity.
  - destruct (popen w) as [p|e]; reflexivity.
Qed.

Lemma loop_iteration_one_sleep (P : string) (w : tick_world) :
  exists evs,
    loop_iteration P w = evs ++ [Slept UPDATE_INTERVAL]
    /\ filter is_sleep evs = [].
Proof.
  pose proof (loop_iteration_cases P w) as H. cbv zeta in H.
  pose proof (read_spectrum_data_io_sleeps (tick_csv w)) as Hr.
  destruct (create_spectrum_image BARS_STYLE (tick_env w)
              (snd (read_spectrum_data_io (tick_csv w)))) as [img|e].
  - destruct (tick_save w) as [[]|e]; rewrite H.
    + exists (fst (read_spectrum_data_io (tick_csv w)) ++ [Saved img P "PNG"]
              ++ fst (set_gnome_wallpaper (tick_desktop w) P)).
      split; [rewrite <- !app_assoc; reflexivity|].
      rewrite !filter_app, Hr, set_gnome_wallpaper_sleeps. reflexivity.
    + exists (fst (read_spectrum_data_io (tick_csv w))
              ++ [Saved img P "PNG"; PrintedExn "[!] Error in main loop: " e]).
      split; [rewrite <- !app_assoc; reflexivity|].
      rewrite filter_app, Hr. reflexivity.
  - rewrite H.
    exists (fst (read_spectrum_data_io (tick_csv w))
            ++ [PrintedExn "[!] Error in main loop: " e]).
    split; [rewrite <- !app_assoc; reflexivity|].
    rewrite filter_app, Hr. reflexivity.
Qed.

End EffectFacts.


(** ** The gradient, channel by channel *)

Module GradientOrder.
Import Float FloatFacts GradientFacts.

Lemma ord_fsub_r (lo hi x y c lo' hi' : float) :
  ord lo hi x y -> fsub lo c = lo' -> fsub hi c = hi' ->
  proper lo' = true -> proper hi' = true -> proper c = true ->
  ord lo' hi' (fsub x c) (fsub y c).
Proof.
  intros (Bx & By & L) El Eh Hl Hh Hc.
  split; [eapply btw_fsub_r; eassumption|].
  split; [eapply btw_fsub_r; eassumption|].
  apply fsub_mono_l; [apply Bx|apply By|exact Hc|exact L].
Qed.

Lemma ord_fsub_l (lo hi x y c lo' hi' : float) :
  ord lo hi x y -> fsub c hi = lo' -> fsub c lo = hi' ->
  proper lo' = true -> proper hi' = true -> proper c = true ->
  ord lo' hi' (fsub c y) (fsub c x).
Proof.
  intros (Bx & By & L) El Eh Hl Hh Hc.
  split; [eapply btw_fsub_l; eassumption|].
  split; [eapply btw_fsub_l; eassumption|].
  apply fsub_anti_r; [apply Bx|apply By|exact Hc|exact L].
Qed.

Lemma ord_fmul_r (lo hi x y c lo' hi' : float) :
  ord lo hi x y -> fmul lo c = lo' -> fmul hi c = hi' ->
  proper lo' = true -> proper hi' = true -> proper c = true -> 0 <= ext c ->
  ord lo' hi' (fmul x c) (fmul y c).
Proof.
  intros (Bx & By & L) El Eh Hl Hh Hc H0.
  split; [eapply btw_fmul_r; eassumption|].
  split; [eapply btw_fmul_r; eassumption|].
  apply fmul_mono_r; [apply Bx|apply By|exact Hc|exact L|exact H0].
Qed.

Lemma ord_fdiv_r (lo hi x y c lo' hi' : float) :
  ord lo hi x y -> fdiv lo c = Ok lo' -> fdiv hi c = Ok hi' ->
  proper lo' = true -> proper hi' = true -> proper c = true -> 0 < ext c ->
  exists rx ry, fdiv x c = Ok rx /\ fdiv y c = Ok ry /\ ord lo' hi' rx ry.
Proof.
  intros (Bx & By & L) El Eh Hl Hh Hc H0.
  destruct (btw_fdiv_r _ _ _ c lo' hi' Bx El Eh Hl Hh Hc H0) as (rx & Ex & Brx).
  destruct (btw_fdiv_r _ _ _ c lo' hi' By El Eh Hl Hh Hc H0) as (ry & Ey & Bry).
  exists rx, ry. split; [exact Ex|]. split; [exact Ey|].
  split; [exact Brx|]. split; [exact Bry|].
  destruct (fdiv_mono_l x y c) as (rx' & ry' & Ex' & Ey' & L');
    [apply Bx|apply By|exact Hc|exact L|exact H0|].
  rewrite Ex in Ex'. injection Ex' as <-.
  rewrite Ey in Ey'. injection Ey' as <-. exact L'.
Qed.

Lemma ord_to_int (lo hi x y : float) (a b : Z) :
  ord lo hi x y -> to_int lo = Ok a -> to_int hi = Ok b ->
  exists zx zy, to_int x = Ok zx /\ to_int y = Ok zy
                /\ a <= zx /\ zx <= zy /\ zy <= b.
Proof.
  intros (Bx & By & L) Ea Eb.
  destruct (btw_to_int _ _ _ a b Bx Ea Eb) as (zx & Ex & Hx).
  destruct (btw_to_int _ _ _ a b By Ea Eb) as (zy & Ey & Hy).
  exists zx, zy. split; [exact Ex|]. split; [exact Ey|].
  destruct (to_int_mono x y) as (zx' & zy' & Ex' & Ey' & L');
    [apply Bx|apply By|exact L|].
  rewrite Ex in Ex'. injection Ex' as <-.
  rewrite Ey in Ey'. injection Ey' as <-. lia.
Qed.

Ltac odiv_step O c t1 t2 E1 E2 O' :=
  let X := fresh in
  pose proof (fun lo' hi' => ord_fdiv_r _ _ _ _ c lo' hi' O) as X;
  edestruct X as (t1 & t2 & E1 & E2 & O'); [crunch..|]; clear X.

Ltac omul_step O c O' :=
  match type of O with
  | ord _ _ ?x ?y =>
      eassert (O' : ord _ _ (fmul x c) (fmul y c));
      [eapply ord_fmul_r; [exact O|crunch..]|]
  end.

Ltac osub_step O c O' :=
  match type of O with
  | ord _ _ ?x ?y =>
      eassert (O' : ord _ _ (fsub x c) (fsub y c));
      [eapply ord_fsub_r; [exact O|crunch..]|]
  end.

Ltac orsub_step O c O' :=
  match type of O with
  | ord _ _ ?x ?y =>
      eassert (O' : ord _ _ (fsub c y) (fsub c x));
      [eapply ord_fsub_l; [exact O|crunch..]|]
  end.

Ltac oint_step O zx zy Ex Ey H :=
  let X := fresh in
  pose proof (fun a b => ord_to_int _ _ _ _ a b O) as X;
  edestruct X as (zx & zy & Ex & Ey & H); [crunch..|]; clear X.

(** Two values of one stage, in order. *)

Lemma segment1_ord (u v : float) :
  ord zero (dec 3 10) u v ->
  flt u (dec 3 10) = true -> flt v (dec 3 10) = true ->
  exists b1 b2, spectrum_color_gradient u = Ok (0, 0, b1)
    /\ spectrum_color_gradient v = Ok (0, 0, b2) /\ b1 <= b2.
Proof.
  intros O U1 V1. unfold spectrum_color_gradient. rewrite U1, V1.
  odiv_step O (dec 3 10) t1 t2 E1 E2 Ot. rewrite E1, E2. cbn [bind].
  omul_step Ot (of_Z 255) Om.
  oint_step Om z1 z2 Ez1 Ez2 Hz. rewrite Ez1, Ez2. cbn [bind].
  exists z1, z2. split; [reflexivity|]. split; [reflexivity|lia].
Qed.

Lemma segment2_ord (u v : float) :
  ord (dec 3 10) (dec 6 10) u v ->
  flt u (dec 3 10) = false -> flt u (dec 6 10) = true ->
  flt v (dec 3 10) = false -> flt v (dec 6 10) = true ->
  exists g1 b1 g2 b2, spectrum_color_gradient u = Ok (0, g1, b1)
    /\ spectrum_color_gradient v = Ok (0, g2, b2)
    /\ g1 <= g2 /\ b2 <= b1.
Proof.
  intros O U1 U2 V1 V2. unfold spectrum_color_gradient.
  rewrite U1, U2, V1, V2.
  osub_step O (dec 3 10) Os.
  odiv_step Os (dec 3 10) t1 t2 E1 E2 Ot. rewrite E1, E2. cbn [bind].
  omul_step Ot (of_Z 255) Og.
  oint_step Og g1 g2 Eg1 Eg2 Hg. rewrite Eg1, Eg2. cbn [bind].
  orsub_step Ot (of_Z 1) Or.
  omul_step Or (of_Z 255) Ob.
  oint_step Ob b2 b1 Eb2 Eb1 Hb. rewrite Eb1, Eb2. cbn [bind].
  exists g1, b1, g2, b2.
  split; [reflexivity|]. split; [reflexivity|lia].
Qed.

Lemma segment3_ord (u v : float) :
  ord (dec 6 10) (dec 8 10) u v ->
  flt u (dec 3 10) = false -> flt u (dec 6 10) = false ->
  flt u (dec 8 10) = true ->
  flt v (dec 3 10) = false -> flt v (dec 6 10) = false ->
  flt v (dec 8 10) = true ->
  exists r1 r2, spectrum_color_gradient u = Ok (r1, 255, 0)
    /\ spectrum_color_gradient v = Ok (r2, 255, 0) /\ r1 <= r2.
Proof.
  intros O U1 U2 U3 V1 V2 V3. unfold spectrum_color_gradient.
  rewrite U1, U2, U3, V1, V2, V3.
  osub_step O (dec 6 10) Os.
  odiv_step Os (dec 2 10) t1 t2 E1 E2 Ot. rewrite E1, E2. cbn [bind].
  omul_step Ot (of_Z 255) Om.
  oint_step Om r1 r2 Er1 Er2 Hr. rewrite Er1, Er2. cbn [bind].
  exists r1, r2. split; [reflexivity|]. split; [reflexivity|lia].
Qed.

Lemma segment4_ord (u v : float) :
  ord (dec 8 10) one u v ->
  flt u (dec 3 10) = false -> flt u (dec 6 10) = false ->
  flt u (dec 8 10) = false ->
  flt v (dec 3 10) = false -> flt v (dec 6 10) = false ->
  flt v (dec 8 10) = false ->
  exists g1 g2, spectrum_color_gradient u = Ok (255, g1, 0)
    /\ spectrum_color_gradient v = Ok (255, g2, 0) /\ g2 <= g1.
Proof.
  intros O U1 U2 U3 V1 V2 V3. unfold spectrum_color_gradient.
  rewrite U1, U2, U3, V1, V2, V3.
  osub_step O (dec 8 10) Os.
  odiv_step Os (dec 2 10) t1 t2 E1 E2 Ot. rewrite E1, E2. cbn [bind].
  orsub_step Ot (of_Z 1) Or.
  omul_step Or (of_Z 255) Om.
  oint_step Om g2 g1 Eg2 Eg1 Hg. rewrite Eg1, Eg2. cbn [bind].
  exists g1, g2. split; [reflexivity|]. split; [reflexivity|lia].
Qed.

Lemma unit_btw (v : float) : in_unit v = true -> btw zero one v.
Proof.
  intros H. apply andb_prop in H as [L U]. apply btw_of_fle; auto.
Qed.

Lemma flt_below (u v c : float) :
  fle u v = true -> flt v c = true -> flt u c = true.
Proof.
  intros L H. apply fle_true in L as (Nu & _ & L).
  apply flt_true in H as (_ & Nc & H).
  unfold flt. rewrite Nu, Nc. cbn [negb andb]. apply Z.ltb_lt. lia.
Qed.

Lemma flt_above (u v c : float) :
  fle u v = true -> is_nan c = false -> flt u c = false -> flt v c = false.
Proof.
  intros L Nc H. apply fle_true in L as (Nu & Nv & L).
  apply flt_false in H; [|assumption..].
  unfold flt. rewrite Nv, Nc. cbn [negb andb]. apply Z.ltb_ge. lia.
Qed.

Lemma ord_of (lo hi u v : float) :
  btw lo hi u -> btw lo hi v -> fle u v = true -> ord lo hi u v.
Proof.
  intros Bu Bv L. apply fle_true in L as (_ & _ & L).
  split; [exact Bu|]. split; [exact Bv|exact L].
Qed.

(** The colours of two values of [0,1] in order, stage by stage. *)
Lemma gradient_ordered (u v : float) :
  in_unit u = true -> in_unit v = true -> fle u v = true ->
  exists r1 g1 b1 r2 g2 b2,
    spectrum_color_gradient u = Ok (r1, g1, b1)
    /\ spectrum_color_gradient v = Ok (r2, g2, b2)
    /\ r1 <= r2
    /\ (flt v (dec 8 10) = true -> g1 <= g2)
    /\ (flt u (dec 8 10) = false -> g2 <= g1)
    /\ (flt v (dec 3 10) = true -> b1 <= b2)
    /\ (flt u (dec 3 10) = false -> b2 <= b1).
Proof.
  intros Hu Hv L.
  destruct (gradient_in_unit u Hu)
    as (r1 & g1 & b1 & Eu & Cr1 & Cg1 & Cb1 & Su).
  destruct (gradient_in_unit v Hv)
    as (r2 & g2 & b2 & Ev & Cr2 & Cg2 & Cb2 & Sv).
  exists r1, g1, b1, r2, g2, b2.
  split; [exact Eu|]. split; [exact Ev|].
  pose proof (unit_btw u Hu) as Bu. pose proof (unit_btw v Hv) as Bv.
  unfold stage_of in Su, Sv. unfold channel in *.
  assert (P3 : proper (dec 3 10) = true) by crunch.
  assert (P6 : proper (dec 6 10) = true) by crunch.
  assert (P8 : proper (dec 8 10) = true) by crunch.
  destruct (flt u (dec 3 10)) eqn:U1.
  - (* u below 0.3 *)
    assert (U2 : flt u (dec 6 10) = true).
    { eapply flt_forced; [eapply btw_below; [exact Bu|exact P3|exact U1]
                         |exact P6|crunch]. }
    assert (U3 : flt u (dec 8 10) = true).
    { eapply flt_forced; [eapply btw_below; [exact Bu|exact P3|exact U1]
                         |exact P8|crunch]. }
    cbn [stage_shape] in Su. destruct Su as (-> & ->).
    destruct (flt v (dec 3 10)) eqn:V1.
    + assert (V3 : flt v (dec 8 10) = true).
      { eapply flt_forced; [eapply btw_below; [exact Bv|exact P3|exact V1]
                           |exact P8|crunch]. }
      cbn [stage_shape] in Sv. destruct Sv as (-> & ->).
      destruct (segment1_ord u v) as (b1' & b2' & Eu' & Ev' & Hb);
        [apply ord_of; [eapply btw_below; eassumption
                       |eapply btw_below; eassumption|exact L]
        |exact U1|exact V1|].
      rewrite Eu in Eu'. rewrite Ev in Ev'.
      injection Eu' as <-. injection Ev' as <-.
      repeat split; try lia; intros; try lia; congruence.
    + repeat split; try lia; intros; try lia; congruence.
  - (* u from 0.3 on *)
    assert (V1 : flt v (dec 3 10) = false)
      by (eapply flt_above; [exact L|reflexivity|exact U1]).
    rewrite V1 in Sv.
    destruct (flt u (dec 6 10)) eqn:U2.
    + (* u in the second stage *)
      assert (U3 : flt u (dec 8 10) = true).
      { eapply flt_forced;
          [eapply btw_below; [eapply btw_above; [exact Bu|exact P3|exact U1]
                             |exact P6|exact U2]
          |exact P8|crunch]. }
      cbn [stage_shape] in Su. subst r1.
      destruct (flt v (dec 6 10)) eqn:V2.
      * cbn [stage_shape] in Sv. subst r2.
        destruct (segment2_ord u v) as (g1' & b1' & g2' & b2' & Eu' & Ev' & Hg & Hb);
          [apply ord_of;
             [eapply btw_below; [eapply btw_above; eassumption|exact P6|exact U2]
             |eapply btw_below; [eapply btw_above; eassumption|exact P6|exact V2]
             |exact L]
          |exact U1|exact U2|exact V1|exact V2|].
        rewrite Eu in Eu'. rewrite Ev in Ev'.
        injection Eu' as <- <-. injection Ev' as <- <-.
        repeat split; try lia; intros; try lia; congruence.
      * destruct (flt v (dec 8 10)) eqn:V3; cbn [stage_shape] in Sv;
          destruct Sv as (-> & ->);
          repeat split; try lia; intros; try lia; congruence.
    + assert (V2 : flt v (dec 6 10) = false)
        by (eapply flt_above; [exact L|reflexivity|exact U2]).
      rewrite V2 in Sv.
      destruct (flt u (dec 8 10)) eqn:U3.
      * (* u in the third stage *)
        cbn [stage_shape] in Su. destruct Su as (-> & ->).
        destruct (flt v (dec 8 10)) eqn:V3; cbn [stage_shape] in Sv; destruct Sv as (-> & ->).
        -- destruct (segment3_ord u v) as (r1' & r2' & Eu' & Ev' & Hr);
             [apply ord_of;
                [eapply btw_below; [eapply btw_above; eassumption|exact P8|exact U3]
                |eapply btw_below; [eapply btw_above; eassumption|exact P8|exact V3]
                |exact L]
             |exact U1|exact U2|exact U3|exact V1|exact V2|exact V3|].
           rewrite Eu in Eu'. rewrite Ev in Ev'.
           injection Eu' as <-. injection Ev' as <-.
           repeat split; try lia; intros; try lia; congruence.
        -- repeat split; try lia; intros; try lia; congruence.
      * (* u in the fourth stage *)
        assert (V3 : flt v (dec 8 10) = false)
          by (eapply flt_above; [exact L|reflexivity|exact U3]).
        rewrite V3 in Sv. cbn [stage_shape] in Su, Sv.
        destruct Su as (-> & ->). destruct Sv as (-> & ->).
        destruct (segment4_ord u v) as (g1' & g2' & Eu' & Ev' & Hg);
          [apply ord_of; [eapply btw_above; eassumption
                         |eapply btw_above; eassumption|exact L]
          |exact U1|exact U2|exact U3|exact V1|exact V2|exact V3|].
        rewrite Eu in Eu'. rewrite Ev in Ev'.
        injection Eu' as <-. injection Ev' as <-.
        repeat split; try lia; intros; try lia; congruence.
Qed.

End GradientOrder.

(** ** Normalisation keeps the order of the readings *)

Module NormalizeOrder.
Import Float FloatFacts GradientFacts NormalizeFacts GradientOrder.

Lemma Forall2_nth_error {A B : Type} (R : A -> B -> Prop) (l : list A)
    (l' : list B) (i : nat) (a : A) (b : B) :
  Forall2 R l l' -> nth_error l i = Some a -> nth_error l' i = Some b ->
  R a b.
Proof.
  intros H. revert i. induction H as [|x y l l' Hxy H IH]; intros i Ha Hb.
  - destruct i; discriminate.
  - destruct i as [|i]; cbn in Ha, Hb.
    + injection Ha as <-. injection Hb as <-. exact Hxy.
    + eapply IH; eassumption.
Qed.

(** A reading less its least: between zero and the spread. *)
Lemma reading_offset (mn mx db : float) :
  proper mn = true -> proper mx = true -> proper db = true ->
  ext mn <= ext db <= ext mx -> proper (fsub mx mn) = true ->
  proper (fsub db mn) = true
  /\ 0 <= ext (fsub db mn) <= ext (fsub mx mn).
Proof.
  intros Hmn Hmx Hdb B Hspread.
  destruct (proper_inv mn Hmn) as (sn & mn' & kn & -> & _).
  destruct (proper_inv mx Hmx) as (sx & mx' & kx & -> & _).
  destruct (proper_inv db Hdb) as (sd & md & kd & -> & _).
  cbn [ext] in B.
  pose proof (fsub_rounds sd sn md kd mn' kn) as Ra.
  pose proof (fsub_rounds sx sn mx' kx mn' kn) as Rb.
  set (a := fsub (Fin sd md kd) (Fin sn mn' kn)) in *.
  set (b := fsub (Fin sx mx' kx) (Fin sn mn' kn)) in *.
  destruct Ra as (Ea & Na & Pa). destruct Rb as (Eb & Nb & Pb).
  assert (A0 : 0 <= ext a).
  { rewrite Ea, <- (rnd_zero 1) by lia. apply rnd_mono; lia. }
  assert (Ab : ext a <= ext b).
  { rewrite Ea, Eb. apply rnd_mono; lia. }
  pose proof (proper_ext b Hspread) as Tb.
  split; [|split; assumption].
  apply (rounds_proper a (sval sd md kd - sval sn mn' kn) 1);
    [repeat split; assumption|].
  pose proof overflow_mag_pos. lia.
Qed.

Lemma spread_positive (mn mx : float) :
  proper mn = true -> proper mx = true -> ext mn < ext mx ->
  0 < ext (fsub mx mn).
Proof.
  intros Hmn Hmx H.
  destruct (proper_inv mn Hmn) as (sn & mn' & kn & -> & _).
  destruct (proper_inv mx Hmx) as (sx & mx' & kx & -> & _).
  cbn [ext] in H.
  destruct (fsub_rounds sx sn mx' kx mn' kn) as (E & _).
  rewrite E. pose proof (rnd_pos (sval sx mx' kx - sval sn mn' kn) 1). lia.
Qed.

(** What the normaliser computes for each reading. *)
Lemma normalize_each (d : float) (rest l : list float) :
  feq (py_max d rest) (py_min d rest) = false ->
  normalize_db_values (d :: rest) = Ok l ->
  Forall2 (fun db r => fdiv (fsub db (py_min d rest))
                         (fsub (py_max d rest) (py_min d rest)) = Ok r)
    (d :: rest) l.
Proof.
  intros Hne H. unfold normalize_db_values in H. rewrite Hne in H.
  apply ReaderFacts.mapM_Forall2_iff in H. exact H.
Qed.

Lemma extremes_differ (d : float) (rest : list float) :
  Forall (fun x => proper x = true) (d :: rest) ->
  feq (py_max d rest) (py_min d rest) = false ->
  proper (py_min d rest) = true /\ proper (py_max d rest) = true
  /\ ext (py_min d rest) < ext (py_max d rest)
  /\ forall x, In x (d :: rest) ->
       proper x = true
       /\ ext (py_min d rest) <= ext x <= ext (py_max d rest).
Proof.
  intros Hfin Hne.
  destruct (py_min_spec rest d Hfin) as (Imin & Lmin).
  destruct (py_max_spec rest d Hfin) as (Imax & Lmax).
  rewrite Forall_forall in Hfin.
  pose proof (Hfin _ Imin) as Pmin. pose proof (Hfin _ Imax) as Pmax.
  destruct (proper_inv _ Pmin) as (s1 & m1 & k1 & E1 & _).
  destruct (proper_inv _ Pmax) as (s2 & m2 & k2 & E2 & _).
  assert (ext (py_max d rest) <> ext (py_min d rest)).
  { apply feq_false; [exact Hne|rewrite E2; reflexivity|rewrite E1; reflexivity]. }
  pose proof (Lmin _ Imax).
  split; [exact Pmin|]. split; [exact Pmax|]. split; [lia|].
  intros x Hx. split; [apply Hfin, Hx|]. split; [apply Lmin, Hx|apply Lmax, Hx].
Qed.

Lemma normalize_ordered (d : float) (rest l : list float) (i j : nat)
    (x y rx ry : float) :
  Forall (fun x => proper x = true) (d :: rest) ->
  feq (py_max d rest) (py_min d rest) = false ->
  proper (fsub (py_max d rest) (py_min d rest)) = true ->
  normalize_db_values (d :: rest) = Ok l ->
  nth_error (d :: rest) i = Some x -> nth_error l i = Some rx ->
  nth_error (d :: rest) j = Some y -> nth_error l j = Some ry ->
  fle x y = true -> fle rx ry = true.
Proof.
  intros Hfin Hne Hspread Hl Hx Hrx Hy Hry L.
  destruct (extremes_differ d rest Hfin Hne) as (Pmin & Pmax & Hlt & Hin).
  pose proof (normalize_each d rest l Hne Hl) as F.
  pose proof (Forall2_nth_error _ _ _ i x rx F Hx Hrx) as Ex.
  pose proof (Forall2_nth_error _ _ _ j y ry F Hy Hry) as Ey.
  cbv beta in Ex, Ey.
  destruct (Hin x (nth_error_In _ _ Hx)) as (Px & Bx).
  destruct (Hin y (nth_error_In _ _ Hy)) as (Py & By).
  destruct (reading_offset _ _ x Pmin Pmax Px Bx Hspread) as (Pa & Ba).
  destruct (reading_offset _ _ y Pmin Pmax Py By Hspread) as (Pb & Bb).
  apply fle_true in L as (_ & _ & L).
  pose proof (spread_positive _ _ Pmin Pmax Hlt) as S0.
  destruct (fdiv_mono_l (fsub x (py_min d rest)) (fsub y (py_min d rest))
              (fsub (py_max d rest) (py_min d rest)))
    as (rx' & ry' & Ex' & Ey' & Lr);
    [exact Pa|exact Pb|exact Hspread
    |apply fsub_mono_l; assumption|exact S0|].
  rewrite Ex in Ex'. injection Ex' as <-.
  rewrite Ey in Ey'. injection Ey' as <-.
  destruct (scale_reading _ _ x Pmin Pmax Px Bx Hlt Hspread) as (r1 & E1 & N1 & _).
  destruct (scale_reading _ _ y Pmin Pmax Py By Hlt Hspread) as (r2 & E2 & N2 & _).
  rewrite Ex in E1. injection E1 as <-.
  rewrite Ey in E2. injection E2 as <-.
  apply andb_prop in N1 as [N1 _]. apply andb_prop in N2 as [N2 _].
  apply fle_true in N1 as (_ & Nx & _). apply fle_true in N2 as (_ & Ny & _).
  unfold fle. rewrite Nx, Ny. cbn [negb andb]. apply Z.leb_le. exact Lr.
Qed.

(** A canonical float is the rounding of its own value. *)
Lemma rnd_ext (x : float) :
  canonical x = true -> proper x = true -> rnd (ext x) 1 = ext x.
Proof.
  intros C P. destruct (proper_inv x P) as (s & m & k & -> & _).
  destruct m as [|p].
  - cbn [ext]. unfold sval, mag. cbn [Z.of_N]. rewrite Z.mul_0_l.
    destruct s; apply rnd_zero; lia.
  - cbn [canonical] in C.
    apply andb_prop in C as [C C3]. apply andb_prop in C as [C1 C2].
    apply Z.ltb_lt in C1. apply Z.leb_le in C2. unfold max_shift in C2.
    apply orb_true_iff in C3. cbn [Z.of_N] in C1, C3.
    assert (L : Z.log2 (Zpos p) <= 52).
    { assert (Z.log2 (Zpos p) < 53) by (apply Z.log2_lt_pow2; lia). lia. }
    assert (K : Z.of_N k = Z.max (Z.log2 (Zpos p) + Z.of_N k - 52) 0).
    { destruct C3 as [C3|C3].
      - apply N.eqb_eq in C3. subst k. cbn [Z.of_N]. lia.
      - apply Z.leb_le in C3.
        assert (52 <= Z.log2 (Zpos p)) by (apply Z.log2_le_pow2; lia). lia. }
    pose proof (SpecFloatFacts.round_scaled_canonical s p (Z.of_N k) K C2) as E.
    rewrite N2Z.id in E.
    destruct (round_scaled_rnd s (Zpos p) 1 (Z.of_N k)) as (R & _); [lia..|].
    rewrite E in R. unfold num, den in R.
    rewrite Z.max_r, Z.max_l in R by lia. change (1 * 2 ^ 0) with 1 in R.
    cbn [ext] in R |- *. rewrite sval_signed in R |- *.
    unfold mag in R |- *. cbn [Z.of_N] in R |- *.
    symmetry. exact R.
Qed.

Lemma ext_one_unit : ext one = unit_scale.
Proof. crunch. Qed.

(** Scaling again a value of [0,1], between a least of value 0 and a
    greatest of value 1, gives the value back. *)
Lemma rescale_unit (mn mx r : float) :
  proper mn = true -> proper mx = true -> proper r = true ->
  canonical mx = true -> canonical r = true ->
  ext mn = 0 -> ext mx = ext one ->
  exists r', fdiv (fsub r mn) (fsub mx mn) = Ok r' /\ feq r r' = true.
Proof.
  intros Pmn Pmx Pr Cmx Cr E0 E1.
  pose proof (rnd_ext r Cr Pr) as Rr. pose proof (rnd_ext mx Cmx Pmx) as Rx.
  destruct (proper_inv mn Pmn) as (sn & mn' & kn & -> & _).
  destruct (proper_inv mx Pmx) as (sx & mx' & kx & -> & _).
  destruct (proper_inv r Pr) as (sr & mr & kr & -> & Br).
  cbn [ext] in E0, E1, Rr, Rx.
  destruct (fsub_rounds sr sn mr kr mn' kn) as (Ea & Na & Pa).
  destruct (fsub_rounds sx sn mx' kx mn' kn) as (Eb & Nb & Pb).
  rewrite E0, Z.sub_0_r in Ea, Eb. rewrite Rr in Ea. rewrite Rx, E1 in Eb.
  set (a := fsub (Fin sr mr kr) (Fin sn mn' kn)) in *.
  set (b := fsub (Fin sx mx' kx) (Fin sn mn' kn)) in *.
  pose proof unit_scale_pos as HU. rewrite ext_one_unit in Eb.
  assert (Ha : proper a = true).
  { destruct a as [|s|s m k]; [discriminate| |apply Pa; reflexivity].
    exfalso. cbn [ext] in Ea. destruct s; lia. }
  assert (Hb : proper b = true).
  { destruct b as [|s|s m k]; [discriminate| |apply Pb; reflexivity].
    exfalso. cbn [ext] in Eb. pose proof overflow_mag_pos.
    assert (unit_scale < overflow_mag).
    { unfold unit_scale, overflow_mag, ulp_exp.
      apply Z.pow_lt_mono_r; lia. }
    destruct s; lia. }
  destruct (proper_inv a Ha) as (sa & ma & ka & Fa & _).
  destruct (proper_inv b Hb) as (sb & mb & kb & Fb & _).
  rewrite Fa in *. rewrite Fb in *. cbn [ext] in Ea, Eb.
  pose proof (mag_nonneg mb kb) as Mb.
  destruct sb; [unfold sval in Eb; lia|].
  assert (Hmb : mb <> 0%N).
  { intros E. apply (mag_zero_iff mb kb) in E. unfold sval in Eb. lia. }
  destruct (fdiv_rounds sa ma ka mb kb Hmb) as (r' & Er & (Rr' & Nr & _)).
  exists r'. split; [exact Er|].
  unfold feq. rewrite Nr. cbn [is_nan negb andb ext]. apply Z.eqb_eq.
  rewrite Rr', Ea. unfold sval in Eb. rewrite Eb.
  rewrite (rnd_ratio _ _ (sval sr mr kr) 1) by lia.
  symmetry. exact Rr.
Qed.

Lemma Forall2_In_l {A B : Type} (R : A -> B -> Prop) (xs : list A)
    (l : list B) :
  Forall2 R xs l -> forall x, In x xs -> exists r, In r l /\ R x r.
Proof.
  intros H. induction H as [|x0 r0 xs l H0 H IH]; intros x Hx; [destruct Hx|].
  destruct Hx as [<-|Hx]; [exists r0; split; [left; reflexivity|exact H0]|].
  destruct (IH x Hx) as (r & Hr & N). exists r. split; [right; exact Hr|exact N].
Qed.

Lemma Forall2_In_r {A B : Type} (R : A -> B -> Prop) (xs : list A)
    (l : list B) :
  Forall2 R xs l -> forall r, In r l -> exists x, In x xs /\ R x r.
Proof.
  intros H. induction H as [|x0 r0 xs l H0 H IH]; intros r Hr; [destruct Hr|].
  destruct Hr as [<-|Hr]; [exists x0; split; [left; reflexivity|exact H0]|].
  destruct (IH r Hr) as (x & Hx & N). exists x. split; [right; exact Hx|exact N].
Qed.

Lemma feq_refl (x : float) : proper x = true -> feq x x = true.
Proof.
  intros P. destruct (proper_inv _ P) as (s & m & k & -> & _).
  unfold feq. cbn [is_nan negb andb]. apply Z.eqb_refl.
Qed.

(** Each result of a normalisation of finite readings. *)
Lemma normalize_results (d : float) (rest l : list float) :
  Forall (fun x => proper x = true) (d :: rest) ->
  feq (py_max d rest) (py_min d rest) = false ->
  proper (fsub (py_max d rest) (py_min d rest)) = true ->
  normalize_db_values (d :: rest) = Ok l ->
  (forall r, In r l ->
     proper r = true /\ canonical r = true /\ in_unit r = true)
  /\ (exists r, In r l /\ ext r = 0)
  /\ (exists r, In r l /\ ext r = ext one).
Proof.
  intros Hfin Hne Hspread Hl.
  destruct (extremes_differ d rest Hfin Hne) as (Pmin & Pmax & Hlt & Hin).
  pose proof (normalize_each d rest l Hne Hl) as F.
  destruct (py_min_spec rest d Hfin) as (Imin & _).
  destruct (py_max_spec rest d Hfin) as (Imax & _).
  assert (N : forall x r, In x (d :: rest) ->
            fdiv (fsub x (py_min d rest))
              (fsub (py_max d rest) (py_min d rest)) = Ok r ->
            normalized (py_min d rest) (py_max d rest) x r).
  { intros x r Hx Hr. destruct (Hin x Hx) as (Px & Bx).
    destruct (scale_reading _ _ x Pmin Pmax Px Bx Hlt Hspread)
      as (r1 & E1 & N1).
    rewrite Hr in E1. injection E1 as <-. exact N1. }
  split; [|split].
  - intros r Hr. destruct (Forall2_In_r _ _ _ F r Hr) as (x & Hx & Er).
    pose proof (N x r Hx Er) as (U & _).
    split; [apply unit_btw in U; apply U|].
    split; [eapply SpecFloatFacts.fdiv_canonical; exact Er|exact U].
  - destruct (Forall2_In_l _ _ _ F _ Imin) as (r & Hr & Er).
    exists r. split; [exact Hr|].
    destruct (N _ r Imin Er) as (_ & _ & Z0).
    apply feq_true in Z0 as (_ & _ & Z0); [exact Z0|apply feq_refl, Pmin].
  - destruct (Forall2_In_l _ _ _ F _ Imax) as (r & Hr & Er).
    exists r. split; [exact Hr|].
    destruct (N _ r Imax Er) as (_ & O1 & _).
    apply feq_true in O1 as (_ & _ & O1); [exact O1|apply feq_refl, Pmax].
Qed.

Lemma normalize_idempotent (d : float) (rest l : list float) :
  Forall (fun x => proper x = true) (d :: rest) ->
  feq (py_max d rest) (py_min d rest) = false ->
  proper (fsub (py_max d rest) (py_min d rest)) = true ->
  normalize_db_values (d :: rest) = Ok l ->
  exists l', normalize_db_values l = Ok l'
    /\ Forall2 (fun a b => feq a b = true) l l'.
Proof.
  intros Hfin Hne Hspread Hl.
  destruct (normalize_results d rest l Hfin Hne Hspread Hl)
    as (Gl & (rz & Iz & Ez) & (r1 & I1 & E1)).
  destruct l as [|r0 lrest]; [destruct Iz|].
  assert (Pl : Forall (fun x => proper x = true) (r0 :: lrest)).
  { apply Forall_forall. intros r Hr. apply (Gl r Hr). }
  destruct (py_min_spec lrest r0 Pl) as (Jmin & Lmin).
  destruct (py_max_spec lrest r0 Pl) as (Jmax & Lmax).
  assert (Emin : ext (py_min r0 lrest) = 0).
  { destruct (Gl _ Jmin) as (_ & _ & U). apply unit_btw in U.
    destruct U as (_ & _ & _ & U). change (ext zero) with 0 in U.
    pose proof (Lmin rz Iz). lia. }
  assert (Emax : ext (py_max r0 lrest) = ext one).
  { destruct (Gl _ Jmax) as (_ & _ & U). apply unit_btw in U.
    destruct U as (_ & _ & _ & U).
    pose proof (Lmax r1 I1). lia. }
  assert (Hne' : feq (py_max r0 lrest) (py_min r0 lrest) = false).
  { unfold feq. rewrite Emax, Emin, ext_one_unit.
    pose proof unit_scale_pos.
    destruct (Z.eqb_spec unit_scale 0); [lia|]. apply andb_false_r. }
  unfold normalize_db_values. rewrite Hne'.
  apply mapM_Forall2. intros r Hr.
  destruct (Gl r Hr) as (Pr & Cr & _).
  destruct (Gl _ Jmin) as (Pn & _). destruct (Gl _ Jmax) as (Px & Cx & _).
  apply rescale_unit; assumption.
Qed.

Lemma normalize_half (n : nat) :
  normalize_db_values (repeat (dec 5 10) (S n))
  = Ok (repeat (dec 5 10) (S n)).
Proof.
  cbn [repeat].
  assert (Hh : forall x, In x (repeat (dec 5 10) n) ->
               feq x (dec 5 10) = true).
  { intros x Hx. apply repeat_spec in Hx. subst x. crunch. }
  unfold normalize_db_values.
  rewrite (py_min_all_equal _ _ Hh), (py_max_all_equal _ _ Hh).
  replace (feq (dec 5 10) (dec 5 10)) with true by (symmetry; crunch).
  cbn [List.length]. rewrite repeat_length. reflexivity.
Qed.

End NormalizeOrder.

(** ** The frame of a sweep *)

Module FrameFacts.
Import Float FloatFacts RoundingError GradientFacts NormalizeFacts RenderFacts
  GradientOrder NormalizeOrder.

Lemma of_Z_rounds (z : Z) :
  0 <= z -> rounds_to (of_Z z) (z * unit_scale) 1.
Proof.
  intros Hz. unfold of_Z.
  destruct (Z.ltb_spec z 0) as [|_]; [lia|]. rewrite Z.abs_eq by lia.
  pose proof (round_scaled_rnd false z 1 ulp_exp Hz ltac:(lia)) as R.
  exact R.
Qed.

Lemma of_Z_mono (i j : Z) :
  0 <= i <= j -> ext (of_Z i) <= ext (of_Z j).
Proof.
  intros H.
  destruct (of_Z_rounds i ltac:(lia)) as (-> & _).
  destruct (of_Z_rounds j ltac:(lia)) as (-> & _).
  pose proof unit_scale_pos.
  apply rnd_mono; [lia|lia|].
  rewrite !Z.mul_1_r. apply Z.mul_le_mono_nonneg_r; lia.
Qed.

Lemma of_Z_zero : ext (of_Z 0) = 0.
Proof. reflexivity. Qed.

Lemma of_Z_small (z : Z) :
  0 <= z <= max_list_length ->
  proper (of_Z z) = true /\ 0 <= ext (of_Z z) /\ of_int z = Ok (of_Z z).
Proof.
  intros H.
  pose proof (of_Z_mono 0 z ltac:(lia)) as L0. rewrite of_Z_zero in L0.
  pose proof (of_Z_mono z max_list_length ltac:(unfold max_list_length in *; lia)) as L1.
  assert (T : ext (of_Z max_list_length) < overflow_mag) by crunch.
  pose proof overflow_mag_pos as HT.
  assert (P : proper (of_Z z) = true).
  { apply (rounds_proper _ _ _ (of_Z_rounds z ltac:(lia))). lia. }
  split; [exact P|]. split; [exact L0|].
  unfold of_int. destruct (proper_inv _ P) as (s & m & k & -> & _).
  reflexivity.
Qed.

Lemma int_truediv_rounds (a n : Z) :
  0 <= a -> 1 <= n ->
  exists q, int_truediv a n = Ok q
    \/ (int_truediv a n = Raise OverflowError /\ is_finite q = false).
Proof.
  intros Ha Hn. unfold int_truediv.
  destruct (Z.eqb_spec n 0); [lia|].
  destruct (round_scaled _ _ _ _) as [|s|s m k] eqn:E.
  - exists NaN. left. reflexivity.
  - exists (Inf s). right. split; reflexivity.
  - exists (Fin s m k). left. reflexivity.
Qed.

Lemma int_truediv_small (a n : Z) :
  0 <= a <= max_list_length -> 1 <= n ->
  exists q, int_truediv a n = Ok q /\ proper q = true
    /\ 0 <= ext q <= ext (of_Z a).
Proof.
  intros Ha Hn. unfold int_truediv.
  destruct (Z.eqb_spec n 0); [lia|].
  destruct (Z.ltb_spec a 0) as [|_]; [lia|].
  destruct (Z.ltb_spec n 0) as [|_]; [lia|].
  rewrite !Z.abs_eq by lia. cbn [xorb].
  destruct (round_scaled_rnd false a n ulp_exp ltac:(lia) ltac:(lia))
    as (E & Nn & Pf).
  destruct (of_Z_small a Ha) as (Pa & A0 & _).
  destruct (of_Z_rounds a ltac:(lia)) as (Ea & _).
  assert (Hd : den n ulp_exp = n).
  { unfold den. change (Z.max 0 (- ulp_exp)) with 0. change (2 ^ 0) with 1. lia. }
  assert (Hnum : signed false (num a ulp_exp) = a * unit_scale) by reflexivity.
  rewrite Hd, Hnum in E. pose proof unit_scale_pos as HU.
  assert (B : 0 <= ext (round_scaled false a n ulp_exp) <= ext (of_Z a)).
  { rewrite E, Ea. split.
    - rewrite <- (rnd_zero 1) by lia. apply rnd_mono; [lia|lia|].
      rewrite Z.mul_0_l, Z.mul_1_r. apply Z.mul_nonneg_nonneg; lia.
    - apply rnd_mono; [lia|lia|]. rewrite Z.mul_1_r.
      rewrite <- (Z.mul_1_r (a * unit_scale)) at 1.
      apply Z.mul_le_mono_nonneg_l; [apply Z.mul_nonneg_nonneg; lia|lia]. }
  pose proof (proper_ext _ Pa) as Ta.
  destruct (round_scaled false a n ulp_exp) as [|s|s m k] eqn:R.
  - discriminate.
  - exfalso. cbn [ext] in B. pose proof overflow_mag_pos. destruct s; lia.
  - exists (Fin s m k). split; [reflexivity|]. split; [|exact B].
    apply Pf. reflexivity.
Qed.

Lemma enumerate_In {A : Type} (l : list A) (i : Z) (v : A) :
  In (i, v) (enumerate l) ->
  0 <= i < Z.of_nat (List.length l) /\ nth_error l (Z.to_nat i) = Some v.
Proof.
  unfold enumerate. intros H.
  assert (G : forall (s : nat) (l : list A),
            In (i, v) (combine (List.map Z.of_nat (seq s (List.length l))) l) ->
            Z.of_nat s <= i < Z.of_nat (s + List.length l)
            /\ nth_error l (Z.to_nat i - s) = Some v).
  { clear. intros s l. revert s. induction l as [|a l IH]; intros s H; [destruct H|].
    cbn [List.length seq List.map combine] in H. destruct H as [H|H].
    - injection H as <- <-. split; [cbn [List.length]; lia|].
      rewrite Nat2Z.id, Nat.sub_diag. reflexivity.
    - destruct (IH (S s) H) as (B & E). split; [cbn [List.length]; lia|].
      replace (Z.to_nat i - s)%nat with (S (Z.to_nat i - S s)) by lia.
      exact E. }
  destruct (G 0%nat l H) as (B & E). rewrite Nat.sub_0_r in E.
  split; [cbn in B; lia|exact E].
Qed.

Lemma enumerate_length {A : Type} (l : list A) :
  List.length (enumerate l) = List.length l.
Proof.
  unfold enumerate. rewrite length_combine, length_map, length_seq. lia.
Qed.

(** The top of a bar lies in the plot. *)
Lemma bar_y_range (v : float) :
  in_unit v = true ->
  fle (of_Z margin_y) (bar_y v) = true
  /\ fle (bar_y v) (of_Z (SCREEN_HEIGHT - margin_y)) = true.
Proof.
  intros Hv. pose proof (unit_btw v Hv) as B. unfold bar_y.
  mul_step B (of_Z plot_height) Bm.
  assert (By : btw (of_Z margin_y) (of_Z (SCREEN_HEIGHT - margin_y))
                 (fsub (of_Z (SCREEN_HEIGHT - margin_y))
                    (fmul v (of_Z plot_height)))).
  { eapply btw_fsub_l; [exact Bm|crunch..]. }
  destruct By as (P1 & P2 & P3 & L & U).
  destruct (proper_inv _ P1) as (s1 & m1 & k1 & E1 & _).
  destruct (proper_inv _ P2) as (s2 & m2 & k2 & E2 & _).
  destruct (proper_inv _ P3) as (s3 & m3 & k3 & E3 & _).
  unfold fle. rewrite E1, E2, E3 in *. cbn [is_nan negb andb].
  split; apply Z.leb_le; assumption.
Qed.

Lemma margin_x_float :
  exists m k, of_Z margin_x = Fin false m k
              /\ rnd (sval false m k) 1 = sval false m k.
Proof.
  do 2 eexists. split; [vm_compute; reflexivity|]. vm_compute. reflexivity.
Qed.

Lemma widest_offset :
  exists s1 m1 k1 s2 m2 k2,
    of_Z max_list_length = Fin s1 m1 k1 /\ of_Z plot_width = Fin s2 m2 k2
    /\ ext (fmul (Fin s1 m1 k1) (Fin s2 m2 k2)) < overflow_mag.
Proof.
  do 6 eexists. split; [vm_compute; reflexivity|].
  split; [vm_compute; reflexivity|]. vm_compute. reflexivity.
Qed.

(** The left edge of a bar is not left of the plot, and later bars are
    not left of earlier ones. *)
Lemma bar_x_order (bw : float) (i j : Z) :
  proper bw = true -> 0 <= ext bw <= ext (of_Z plot_width) ->
  0 <= i <= j -> j <= max_list_length ->
  fle (of_Z margin_x) (bar_x bw i) = true
  /\ fle (bar_x bw i) (bar_x bw j) = true.
Proof.
  intros Pw W Hij Hj. unfold bar_x.
  destruct (of_Z_small i ltac:(lia)) as (Pi & I0 & _).
  destruct (of_Z_small j ltac:(lia)) as (Pj & J0 & _).
  pose proof (of_Z_mono i j Hij) as Lij.
  pose proof (of_Z_mono j max_list_length ltac:(lia)) as Ljm.
  destruct widest_offset as (s1 & m1 & k1 & s2 & m2 & k2 & E1 & E2 & Tcap).
  destruct (fmul_rounds s1 s2 m1 k1 m2 k2) as (Hcap & _).
  rewrite Hcap in Tcap. rewrite E1 in Ljm. rewrite E2 in W.
  destruct margin_x_float as (m0 & k0 & E0 & R0). rewrite E0.
  clear E0 E1 E2 Hcap.
  destruct (proper_inv _ Pw) as (sw & mw & kw & Ew & _).
  destruct (proper_inv _ Pi) as (si & mi & ki & Ei & _).
  destruct (proper_inv _ Pj) as (sj & mj & kj & Ej & _).
  rewrite Ew in W. rewrite Ei in I0, Lij. rewrite Ej in J0, Lij, Ljm.
  rewrite Ew, Ei, Ej. clear Ew Ei Ej Pw Pi Pj.
  cbn [ext] in W, I0, J0, Lij, Ljm, Tcap.
  destruct (fmul_rounds si sw mi ki mw kw) as (Ea & Na & Pa).
  destruct (fmul_rounds sj sw mj kj mw kw) as (Eb & Nb & Pb).
  set (a := fmul (Fin si mi ki) (Fin sw mw kw)) in *.
  set (b := fmul (Fin sj mj kj) (Fin sw mw kw)) in *.
  set (xi := sval si mi ki) in *. set (xj := sval sj mj kj) in *.
  set (xw := sval sw mw kw) in *.
  set (vmax := sval s1 m1 k1) in *. set (vw := sval s2 m2 k2) in *.
  clearbody a b xi xj xw vmax vw.
  pose proof unit_scale_pos as HU. pose proof overflow_mag_pos as HT.
  assert (A0 : 0 <= ext a).
  { rewrite Ea, <- (rnd_zero 1) by lia. apply rnd_mono; [lia|lia|].
    rewrite Z.mul_0_l, Z.mul_1_r. apply Z.mul_nonneg_nonneg; lia. }
  assert (Lab : ext a <= ext b).
  { rewrite Ea, Eb. apply rnd_mono; [lia|lia|].
    apply Z.mul_le_mono_nonneg_r; [lia|].
    apply Z.mul_le_mono_nonneg_r; lia. }
  assert (Lb : ext b < overflow_mag).
  { apply Z.le_lt_trans with (2 := Tcap). rewrite Eb.
    apply rnd_mono; [lia|lia|].
    apply Z.mul_le_mono_nonneg_r; [lia|].
    apply Z.mul_le_mono_nonneg; lia. }
  assert (Ha : proper a = true).
  { apply (rounds_proper a (xi * xw) unit_scale);
      [repeat split; assumption|lia]. }
  assert (Hb : proper b = true).
  { apply (rounds_proper b (xj * xw) unit_scale);
      [repeat split; assumption|lia]. }
  destruct (proper_inv _ Ha) as (sa & ma & ka & Fa & _).
  destruct (proper_inv _ Hb) as (sb & mb & kb & Fb & _).
  subst a b. cbn [ext] in A0, Lab.
  destruct (fadd_rounds false sa m0 k0 ma ka) as (Ex & Nx & _).
  destruct (fadd_rounds false sb m0 k0 mb kb) as (Ey & Ny & _).
  unfold fle. rewrite Nx, Ny. cbn [is_nan negb andb ext].
  split; apply Z.leb_le.
  - rewrite Ex. rewrite <- R0 at 1. apply rnd_mono; lia.
  - rewrite Ex, Ey. apply rnd_mono; lia.
Qed.

Lemma int_units (z : Z) :
  0 <= z < 2 ^ 53 -> rnd (z * unit_scale) 1 = z * unit_scale.
Proof.
  intros Hz. apply (rnd_exact z 1074); [lia|lia|].
  apply Z.lt_le_trans with (2 ^ 53 * 2 ^ 1074).
  - apply Z.mul_lt_mono_pos_r; lia.
  - unfold overflow_mag. rewrite <- pow2_add by lia. apply pow2_le. lia.
Qed.

Lemma of_Z_units (z : Z) :
  0 <= z < 2 ^ 53 ->
  proper (of_Z z) = true /\ ext (of_Z z) = z * unit_scale.
Proof.
  intros Hz.
  destruct (of_Z_small z ltac:(unfold max_list_length; lia)) as (P & _ & _).
  destruct (of_Z_rounds z ltac:(lia)) as (E & _).
  split; [exact P|]. rewrite E. apply int_units. exact Hz.
Qed.

(** The quotient of two [int]s is their exact quotient, rounded once. *)
Lemma int_truediv_value (a n : Z) :
  0 <= a <= max_list_length -> 1 <= n ->
  exists q, int_truediv a n = Ok q /\ proper q = true
    /\ ext q = rnd (a * unit_scale) n.
Proof.
  intros Ha Hn.
  destruct (int_truediv_small a n Ha Hn) as (q & E & P & _).
  exists q. split; [exact E|]. split; [exact P|].
  unfold int_truediv in E.
  destruct (Z.eqb_spec n 0); [lia|].
  destruct (Z.ltb_spec a 0) as [|_]; [lia|].
  destruct (Z.ltb_spec n 0) as [|_]; [lia|].
  rewrite !Z.abs_eq in E by lia. cbn [xorb] in E.
  destruct (round_scaled_rnd false a n ulp_exp ltac:(lia) ltac:(lia))
    as (R & _).
  assert (Hd : den n ulp_exp = n).
  { unfold den. change (Z.max 0 (- ulp_exp)) with 0. change (2 ^ 0) with 1. lia. }
  assert (Hnum : signed false (num a ulp_exp) = a * unit_scale) by reflexivity.
  rewrite Hd, Hnum in R.
  destruct (round_scaled false a n ulp_exp); try discriminate;
    injection E as <-; exact R.
Qed.

(** The width of a bar: the plot's width over the number of readings,
    rounded once. *)
Lemma bar_width_value (n : Z) :
  1 <= n ->
  exists bw, int_truediv plot_width n = Ok bw /\ proper bw = true
    /\ ext bw = rnd (plot_width * unit_scale) n
    /\ 0 <= ext bw <= plot_width * unit_scale.
Proof.
  intros Hn.
  assert (Hw : 0 <= plot_width <= max_list_length /\ 0 <= plot_width < 2 ^ 53).
  { vm_compute. repeat split; discriminate. }
  destruct Hw as (Hw & Hw').
  destruct (int_truediv_value plot_width n Hw Hn) as (q & E & P & V).
  destruct (int_truediv_small plot_width n Hw Hn) as (q' & E' & _ & B).
  rewrite E in E'. injection E' as <-.
  destruct (of_Z_units plot_width Hw') as (_ & Ew). rewrite Ew in B.
  exists q. auto.
Qed.

(** The left edge of bar [i], for at most [plot_width] bars. *)
Lemma bar_x_value (bw : float) (i : Z) :
  proper bw = true -> 0 <= ext bw <= plot_width * unit_scale ->
  0 <= i <= plot_width ->
  proper (bar_x bw i) = true
  /\ ext (bar_x bw i) = rnd (margin_x * unit_scale + rnd (i * ext bw) 1) 1
  /\ margin_x * unit_scale <= ext (bar_x bw i)
     <= (margin_x + plot_width * plot_width) * unit_scale.
Proof.
  intros Pw W Hi. unfold bar_x.
  assert (S53 : plot_width < 2 ^ 53 /\ 0 <= margin_x < 2 ^ 53
                /\ 0 <= plot_width * plot_width < 2 ^ 53
                /\ 0 <= margin_x + plot_width * plot_width < 2 ^ 53
                /\ 0 < plot_width /\ 0 < margin_x).
  { vm_compute. repeat split; discriminate. }
  destruct S53 as (S1 & S2 & S3 & S4 & S5 & S6).
  destruct (of_Z_units i ltac:(lia)) as (Pi & Ei).
  destruct (of_Z_units margin_x S2) as (Pm & Em).
  destruct (proper_inv _ Pw) as (sw & mw & kw & -> & _).
  destruct (proper_inv _ Pi) as (si & mi & ki & Fi & _).
  destruct (proper_inv _ Pm) as (sm & mm & km & Fm & _).
  rewrite Fi in Ei |- *. rewrite Fm in Em |- *.
  change (ext (Fin sw mw kw)) with (sval sw mw kw) in *.
  change (ext (Fin si mi ki)) with (sval si mi ki) in Ei.
  change (ext (Fin sm mm km)) with (sval sm mm km) in Em.
  destruct (fmul_rounds si sw mi ki mw kw) as (Ea & Na & Pa).
  rewrite Ei in Ea.
  set (a := fmul (Fin si mi ki) (Fin sw mw kw)) in *.
  set (xw := sval sw mw kw) in *. clearbody a xw.
  pose proof unit_scale_pos as HU. pose proof overflow_mag_pos as HT.
  rewrite (rnd_ratio _ _ (i * xw) 1) in Ea by (try lia; ring).
  assert (Iw : 0 <= i * xw <= plot_width * plot_width * unit_scale).
  { split; [apply Z.mul_nonneg_nonneg; lia|].
    rewrite <- Z.mul_assoc. apply Z.mul_le_mono_nonneg; lia. }
  assert (A0 : 0 <= ext a <= plot_width * plot_width * unit_scale).
  { rewrite Ea. split.
    - rewrite <- (rnd_zero 1) by lia. apply rnd_mono; lia.
    - rewrite <- (int_units (plot_width * plot_width)) by lia.
      apply rnd_mono; lia. }
  assert (O : (margin_x + plot_width * plot_width) * unit_scale < overflow_mag).
  { apply Z.lt_le_trans with (2 ^ 53 * 2 ^ 1074).
    - apply Z.mul_lt_mono_pos_r; lia.
    - unfold overflow_mag. rewrite <- pow2_add by lia. apply pow2_le. lia. }
  assert (Ha : proper a = true).
  { apply (rounds_proper a (i * xw) 1); [repeat split; assumption|lia]. }
  destruct (proper_inv _ Ha) as (sa & ma & ka & -> & _).
  cbn [ext] in A0, Ea.
  destruct (fadd_rounds sm sa mm km ma ka) as (Ex & Nx & Px).
  rewrite Em, Ea in Ex.
  set (x := fadd (Fin sm mm km) (Fin sa ma ka)) in *.
  rewrite <- Ea in Ex.
  assert (B : margin_x * unit_scale <= ext x
              <= (margin_x + plot_width * plot_width) * unit_scale).
  { rewrite Ex. split.
    - rewrite <- (int_units margin_x) at 1 by lia. apply rnd_mono; lia.
    - rewrite <- (int_units (margin_x + plot_width * plot_width)) by lia.
      apply rnd_mono; lia. }
  split.
  { apply (rounds_proper x (margin_x * unit_scale + sval sa ma ka) 1);
      [repeat split; assumption|lia]. }
  split; [|exact B]. rewrite Ex, Ea. reflexivity.
Qed.

(** The right edge of a bar, [x + bar_width - 1], against its left edge
    [x]: the two roundings move it by less than [2^-28]. *)
Lemma right_edge (x bw : float) :
  proper x = true -> proper bw = true ->
  0 <= ext x <= (margin_x + plot_width * plot_width) * unit_scale ->
  0 <= ext bw <= plot_width * unit_scale ->
  is_nan (fsub (fadd x bw) (of_Z 1)) = false
  /\ ext (fsub (fadd x bw) (of_Z 1))
     = rnd (rnd (ext x + ext bw) 1 - unit_scale) 1
  /\ - 2 ^ 1046 <= ext (fsub (fadd x bw) (of_Z 1))
                   - (ext x + ext bw - unit_scale) <= 2 ^ 1046.
Proof.
  intros Px Pw Bx Bw.
  assert (S : (margin_x + plot_width * plot_width) * unit_scale
              + plot_width * unit_scale + 2 ^ 1046 + unit_scale < 2 ^ (52 + 1045)
              /\ 2 ^ (52 + 1045) < overflow_mag
              /\ 2 ^ 1045 + 2 ^ 1045 = 2 ^ 1046).
  { vm_compute. repeat split. }
  destruct S as (S1 & S2 & S3).
  pose proof unit_scale_pos as HU.
  assert (G0 : 0 < 2 ^ 1045) by (apply pow2_pos; lia).
  destruct (of_Z_units 1 ltac:(vm_compute; split; [discriminate|reflexivity]))
    as (P1 & E1).
  destruct (proper_inv _ Px) as (sx & mx & kx & -> & _).
  destruct (proper_inv _ Pw) as (sw & mw & kw & -> & _).
  destruct (proper_inv _ P1) as (s1 & m1 & k1 & F1 & _).
  rewrite F1 in E1 |- *. cbn [ext] in Bx, Bw, E1 |- *.
  destruct (fadd_rounds sx sw mx kx mw kw) as (Ey & Ny & Py).
  set (y := fadd (Fin sx mx kx) (Fin sw mw kw)) in *.
  set (vx := sval sx mx kx) in *. set (vw := sval sw mw kw) in *.
  clearbody y vx vw.
  pose proof (rnd_err (vx + vw) 1 1045 ltac:(lia) ltac:(lia) ltac:(lia)
                ltac:(lia)) as Er.
  rewrite <- Ey in Er.
  assert (Hy : proper y = true).
  { apply (rounds_proper y (vx + vw) 1); [repeat split; assumption|lia]. }
  destruct (proper_inv _ Hy) as (sy & my & ky & -> & _).
  cbn [ext] in Er, Ey.
  destruct (fsub_rounds sy s1 my ky m1 k1) as (Ez & Nz & Pz).
  rewrite E1 in Ez.
  split; [exact Nz|].
  split; [rewrite Ez, <- Ey; f_equal; lia|].
  pose proof (rnd_err (sval sy my ky - 1 * unit_scale) 1 1045
                ltac:(lia) ltac:(lia) ltac:(lia) ltac:(lia)) as Er2.
  rewrite <- Ez in Er2. lia.
Qed.

(** Up to [plot_width] bars, each at least one pixel wide: the right
    edge of a bar is not left of its left edge. *)
Lemma bar_box_wide (n i : Z) (bw : float) :
  1 <= n <= plot_width -> int_truediv plot_width n = Ok bw -> 0 <= i < n ->
  flt (fsub (fadd (bar_x bw i) bw) (of_Z 1)) (bar_x bw i) = false.
Proof.
  intros Hn Ew Hi.
  destruct (bar_width_value n ltac:(lia)) as (bw' & Ew' & Pw & Vw & Bw).
  rewrite Ew in Ew'. injection Ew' as <-.
  assert (W : plot_width = 1720) by reflexivity.
  assert (M : margin_x = 100) by reflexivity.
  pose proof unit_scale_pos as HU.
  destruct (bar_x_value bw i Pw Bw ltac:(lia)) as (Px & Vx & Bx).
  destruct (right_edge (bar_x bw i) bw Px Pw ltac:(lia) Bw) as (Nz & Vz & Ez).
  unfold flt. rewrite Nz. cbn [negb andb].
  destruct (proper_inv _ Px) as (sx & mx & kx & Fx & _).
  rewrite Fx in *. cbn [is_nan negb andb]. apply Z.ltb_ge.
  set (z := ext (fsub (fadd (Fin sx mx kx) bw) (of_Z 1))) in *.
  change (ext (Fin sx mx kx)) with (sval sx mx kx) in *.
  set (x := sval sx mx kx) in *. clearbody z x.
  destruct (Z.eq_dec n plot_width) as [->|Hne].
  - (* one pixel exactly: every step is exact *)
    assert (Eb : ext bw = unit_scale).
    { rewrite Vw, (rnd_ratio _ _ (1 * unit_scale) 1) by lia.
      apply int_units. lia. }
    rewrite Eb in Vx, Vz.
    rewrite int_units in Vx by lia.
    replace (margin_x * unit_scale + i * unit_scale)
      with ((margin_x + i) * unit_scale) in Vx by ring.
    rewrite int_units in Vx by lia.
    rewrite Vx in Vz.
    replace ((margin_x + i) * unit_scale + unit_scale)
      with ((margin_x + i + 1) * unit_scale) in Vz by ring.
    rewrite int_units in Vz by lia.
    replace ((margin_x + i + 1) * unit_scale - unit_scale)
      with ((margin_x + i) * unit_scale) in Vz by ring.
    rewrite int_units in Vz by lia.
    lia.
  - assert (C : (unit_scale + 2 ^ 1063) * 1719 <= 1720 * unit_scale
                /\ 0 <= unit_scale + 2 ^ 1063
                /\ (2 ^ 11 + 1) * 2 ^ 1063 = unit_scale + 2 ^ 1063
                /\ 2 ^ 1046 < 2 ^ 1063).
    { vm_compute. repeat split; discriminate. }
    destruct C as (C1 & C2 & C3 & C4).
    assert (L : unit_scale + 2 ^ 1063 <= ext bw).
    { rewrite Vw, <- C3.
      rewrite <- (rnd_exact (2 ^ 11 + 1) 1063) at 1
        by (vm_compute; repeat split; discriminate).
      apply rnd_mono; [lia|lia|].
      rewrite C3, W, Z.mul_1_r.
      apply Z.le_trans with (2 := C1).
      apply Z.mul_le_mono_nonneg_l; lia. }
    lia.
Qed.

(** More than [plot_width] bars, each narrower than a pixel: the right
    edge of the first bar is left of its left edge. *)
Lemma bar_box_narrow (n : Z) (bw : float) :
  plot_width < n -> int_truediv plot_width n = Ok bw ->
  flt (fsub (fadd (bar_x bw 0) bw) (of_Z 1)) (bar_x bw 0) = true.
Proof.
  intros Hn Ew.
  assert (W : plot_width = 1720) by reflexivity.
  assert (M : margin_x = 100) by reflexivity.
  pose proof unit_scale_pos as HU.
  destruct (bar_width_value n ltac:(lia)) as (bw' & Ew' & Pw & Vw & Bw).
  rewrite Ew in Ew'. injection Ew' as <-.
  destruct (bar_x_value bw 0 Pw Bw ltac:(lia)) as (Px & Vx & Bx).
  destruct (right_edge (bar_x bw 0) bw Px Pw ltac:(lia) Bw) as (Nz & Vz & Ez).
  unfold flt. rewrite Nz. cbn [negb andb].
  destruct (proper_inv _ Px) as (sx & mx & kx & Fx & _).
  rewrite Fx in *. cbn [is_nan negb andb]. apply Z.ltb_lt.
  set (z := ext (fsub (fadd (Fin sx mx kx) bw) (of_Z 1))) in *.
  change (ext (Fin sx mx kx)) with (sval sx mx kx) in *.
  set (x := sval sx mx kx) in *. clearbody z x.
  assert (C : 1720 * unit_scale <= (unit_scale - 2 ^ 1063) * 1721
              /\ 0 <= unit_scale - 2 ^ 1063
              /\ (2 ^ 11 - 1) * 2 ^ 1063 = unit_scale - 2 ^ 1063
              /\ 2 ^ 1046 < 2 ^ 1063).
  { vm_compute. repeat split; discriminate. }
  destruct C as (C1 & C2 & C3 & C4).
  assert (L : ext bw <= unit_scale - 2 ^ 1063).
  { rewrite Vw, <- C3.
    rewrite <- (rnd_exact (2 ^ 11 - 1) 1063) at 1
      by (vm_compute; repeat split; discriminate).
    apply rnd_mono; [lia|lia|].
    rewrite C3, W, Z.mul_1_r.
    apply Z.le_trans with (1 := C1).
    apply Z.mul_le_mono_nonneg_l; lia. }
  rewrite Z.mul_0_l, rnd_zero, Z.add_0_r in Vx by lia.
  rewrite int_units in Vx by lia.
  lia.
Qed.

Lemma fle_not_flt (a b : float) : fle a b = true -> flt b a = false.
Proof.
  intros H. apply fle_true in H as (Na & Nb & H).
  unfold flt. rewrite Na, Nb. cbn [negb andb]. apply Z.ltb_ge. exact H.
Qed.

(** One bar, in the bar style: drawn unless its right edge is left of
    its left edge. *)
Lemma draw_bar_rectangle (env : environment) (bw : float) (i : Z)
    (v : float) :
  0 <= i <= max_list_length -> in_unit v = true ->
  exists r g b,
    spectrum_color_gradient v = Ok (r, g, b)
    /\ channel r /\ channel g /\ channel b
    /\ draw_bar true env bw (i, v)
       = if flt (fsub (fadd (bar_x bw i) bw) (of_Z 1)) (bar_x bw i)
         then Raise ValueError
         else Ok [Rectangle (F (bar_x bw i)) (F (bar_y v))
                    (F (fsub (fadd (bar_x bw i) bw) (of_Z 1)))
                    (I (SCREEN_HEIGHT - margin_y)) (r, g, b)].
Proof.
  intros Hi Hv.
  destruct (gradient_in_unit v Hv) as (r & g & b & E & Cr & Cg & Cb & _).
  exists r, g, b. split; [exact E|]. do 3 (split; [assumption|]).
  unfold draw_bar. destruct (of_Z_small i Hi) as (_ & _ & ->).
  cbn [bind]. rewrite E. cbn [bind]. unfold draw_rectangle. cbn [num_float].
  change (fadd (of_Z margin_x) (fmul (of_Z i) bw)) with (bar_x bw i).
  change (fsub (of_Z (SCREEN_HEIGHT - margin_y)) (fmul v (of_Z plot_height)))
    with (bar_y v).
  destruct (flt (fsub (fadd (bar_x bw i) bw) (of_Z 1)) (bar_x bw i));
    [reflexivity|].
  destruct (bar_y_range v Hv) as (_ & Y).
  rewrite (fle_not_flt _ _ Y). reflexivity.
Qed.

Lemma char_index_range (v : float) :
  in_unit v = true ->
  exists k ch, char_index v = Ok k /\ 0 <= k <= 4
    /\ py_index ASCII_CHARS k = Ok ch /\ In ch ASCII_CHARS.
Proof.
  intros Hv. pose proof (unit_btw v Hv) as B. unfold char_index.
  mul_step B (of_Z (Z.of_nat (List.length ASCII_CHARS) - 1)) Bm.
  int_step Bm k Ek Hk.
  assert (C : k = 0 \/ k = 1 \/ k = 2 \/ k = 3 \/ k = 4) by lia.
  exists k.
  destruct C as [->|[->|[->|[->| ->]]]]; eexists;
    (split; [exact Ek|]); (split; [lia|]);
    (split; [reflexivity|]); cbn; tauto.
Qed.

(** A float below 0.25 is at most the float just below 0.25. *)
Lemma below_quarter_spec (v : float) :
  canonical v = true -> proper v = true -> flt v (dec 25 100) = true ->
  ext v <= ext below_quarter.
Proof.
  intros C P H. apply flt_true in H as (_ & _ & H).
  assert (Q : ext (dec 25 100) = 2 ^ 52 * 2 ^ 1020) by crunch.
  rewrite Q in H. clear Q.
  destruct (proper_inv v P) as (s & m & k & -> & _).
  unfold below_quarter. cbn [ext] in *. unfold sval, mag in *.
  change (Z.of_N 1019) with 1019. change (Z.of_N (2 ^ 53 - 1)) with (2 ^ 53 - 1).
  pose proof (pow2_pos (Z.of_N k) ltac:(lia)) as Pk.
  pose proof (pow2_pos 1019 ltac:(lia)) as P19.
  assert (E20 : 2 ^ 1020 = 2 * 2 ^ 1019).
  { change 1020 with (1 + 1019). rewrite pow2_add by lia. reflexivity. }
  rewrite E20 in H.
  set (p := 2 ^ 1019) in *. set (q := 2 ^ Z.of_N k) in *.
  assert (P52 : 0 < 2 ^ 52) by reflexivity.
  assert (E53 : 2 ^ 53 = 2 * 2 ^ 52) by reflexivity.
  destruct s.
  { assert (0 <= Z.of_N m * q) by (apply Z.mul_nonneg_nonneg; lia).
    assert (0 <= (2 ^ 53 - 1) * p) by (apply Z.mul_nonneg_nonneg; lia). lia. }
  destruct m as [|pm]; [cbn [Z.of_N]; rewrite Z.mul_0_l;
                        apply Z.mul_nonneg_nonneg; lia|].
  cbn [canonical] in C.
  apply andb_prop in C as [C C3]. apply andb_prop in C as [C1 C2].
  apply Z.ltb_lt in C1. apply orb_true_iff in C3.
  destruct (Z_lt_le_dec (Z.of_N k) 1019) as [Hk|Hk].
  - (* a smaller exponent *)
    assert (q * 2 <= p * 1).
    { unfold p, q. rewrite Z.mul_1_r.
      change 2 with (2 ^ 1) at 2. rewrite <- pow2_add by lia.
      apply pow2_le. lia. }
    clearbody p q.
    apply Z.le_trans with ((2 ^ 53 - 1) * q).
    + apply Z.mul_le_mono_nonneg_r; lia.
    + apply Z.mul_le_mono_nonneg_l; lia.
  - destruct (Z.eq_dec (Z.of_N k) 1019) as [E|NE].
    + unfold q. rewrite E. fold p. clearbody p q.
      apply Z.mul_le_mono_nonneg_r; lia.
    + (* a greater exponent needs a full mantissa, which is too much *)
      exfalso. destruct C3 as [C3|C3]; [apply N.eqb_eq in C3; lia|].
      apply Z.leb_le in C3.
      assert (2 * p <= q).
      { unfold p, q. change 2 with (2 ^ 1) at 1. rewrite <- pow2_add by lia.
        apply pow2_le. lia. }
      clearbody p q.
      assert (2 ^ 52 * (2 * p) <= Z.of_N (N.pos pm) * q)
        by (apply Z.mul_le_mono_nonneg; lia).
      lia.
Qed.

(** Below a quarter the character is the blank one. *)
Lemma char_index_blank (v : float) :
  canonical v = true -> in_unit v = true -> flt v (dec 25 100) = true ->
  char_index v = Ok 0.
Proof.
  intros C Hv Hq. pose proof (unit_btw v Hv) as B.
  assert (B' : btw zero below_quarter v).
  { destruct B as (P0 & _ & Pv & L & _).
    split; [exact P0|]. split; [crunch|]. split; [exact Pv|].
    split; [exact L|]. apply below_quarter_spec; assumption. }
  unfold char_index.
  mul_step B' (of_Z (Z.of_nat (List.length ASCII_CHARS) - 1)) Bm.
  int_step Bm k Ek Hk. rewrite Ek. f_equal. lia.
Qed.

Lemma py_range_unit (n : Z) :
  py_range 0 n 1 = List.map Z.of_nat (seq 0 (Z.to_nat n)).
Proof.
  unfold py_range.
  replace ((n - 0 + 1 - 1) / 1) with n by (rewrite Z.div_1_r; lia).
  apply map_ext. intros i. lia.
Qed.

(** One reading, in the ASCII style. *)
Lemma draw_bar_glyphs (env : environment) (bw : float) (i : Z) (v : float) :
  0 <= i <= max_list_length -> in_unit v = true ->
  exists k ch n,
    char_index v = Ok k /\ py_index ASCII_CHARS k = Ok ch
    /\ In ch ASCII_CHARS
    /\ to_int (fmul v (of_Z 30)) = Ok n /\ 0 <= n <= 30
    /\ draw_bar false env bw (i, v) = Ok (glyph_stack env (bar_x bw i) ch n).
Proof.
  intros Hi Hv.
  destruct (char_index_range v Hv) as (k & ch & Ek & Hk & Ec & Ic).
  pose proof (unit_btw v Hv) as B.
  mul_step B (of_Z 30) Bm. int_step Bm n En Hn.
  exists k, ch, n. split; [exact Ek|]. split; [exact Ec|].
  split; [exact Ic|]. split; [exact En|]. split; [lia|].
  unfold draw_bar. destruct (of_Z_small i Hi) as (_ & _ & ->).
  cbn [bind]. rewrite Ek. cbn [bind]. rewrite Ec. cbn [bind].
  rewrite En. cbn [bind]. f_equal.
  rewrite py_range_unit, map_map. reflexivity.
Qed.

(** The frequency labels. *)
Lemma label_anchor (i : Z) :
  In i [0; 1; 2; 3; 4; 5] ->
  exists q, int_truediv (plot_width * i) 5 = Ok q
            /\ to_int q = Ok (plot_width * i / 5).
Proof.
  intros [<-|[<-|[<-|[<-|[<-|[<-|[]]]]]]]; eexists;
    (split; [vm_compute; reflexivity|]); vm_compute; reflexivity.
Qed.

Lemma frequency_label_at (f : font) (lo hi : float) (i : Z) :
  In i [0; 1; 2; 3; 4; 5] ->
  exists mhz,
    frequency_label f lo hi i
    = Ok (Text (I (margin_x + plot_width * i / 5 - 30))
            (I (SCREEN_HEIGHT - margin_y + 10)) (FreqLabel mhz) TEXT_COLOR f).
Proof.
  intros Hi. unfold frequency_label.
  assert (Z6 : is_zero (dec 1000000 1) = false) by crunch.
  assert (Z5 : is_zero (of_Z 5) = false) by crunch.
  destruct (fdiv_total lo _ Z6) as (a & ->). cbn [bind].
  destruct (fdiv_total (fsub hi lo) _ Z6) as (b & ->). cbn [bind].
  destruct (of_Z_small i) as (_ & _ & ->).
  { unfold max_list_length.
    destruct Hi as [<-|[<-|[<-|[<-|[<-|[<-|[]]]]]]]; lia. }
  cbn [bind].
  destruct (fdiv_total (fmul b (of_Z i)) _ Z5) as (c & ->). cbn [bind].
  destruct (label_anchor i Hi) as (q & Eq & Et).
  rewrite Eq. cbn [bind]. rewrite Et. cbn [bind].
  eexists. reflexivity.
Qed.

(** The normalised values of finite readings. *)
Lemma normalize_unit (l : list float) :
  finite_readings l ->
  exists normalized,
    normalize_db_values l = Ok normalized
    /\ List.length normalized = List.length l
    /\ forall r, In r normalized ->
         in_unit r = true /\ canonical r = true.
Proof.
  destruct l as [|d rest]; [intros []|]. intros (Hfin & Hspread & _).
  destruct (feq (py_max d rest) (py_min d rest)) eqn:E.
  - exists (repeat (dec 5 10) (List.length (d :: rest))).
    split; [unfold normalize_db_values; rewrite E; reflexivity|].
    split; [apply repeat_length|].
    intros r Hr. apply repeat_spec in Hr. subst r. split; crunch.
  - destruct (mapM_total
                (fun db => fdiv (fsub db (py_min d rest))
                             (fsub (py_max d rest) (py_min d rest)))
                (d :: rest)) as (l & El).
    { intros a _. apply fdiv_total, fsub_nonzero, E. }
    assert (Hl : normalize_db_values (d :: rest) = Ok l)
      by (unfold normalize_db_values; rewrite E; exact El).
    exists l. split; [exact Hl|]. split; [apply (mapM_length _ _ _ El)|].
    destruct (normalize_results d rest l Hfin E Hspread Hl) as (G & _).
    intros r Hr. destruct (G r Hr) as (_ & C & U). split; assumption.
Qed.

Lemma bars_total (b : bool) (env : environment) (bw : float)
    (normalized : list float) :
  Z.of_nat (List.length normalized) <= max_list_length ->
  (forall r, In r normalized -> in_unit r = true) ->
  b = false
  \/ (Z.of_nat (List.length normalized) <= plot_width
      /\ int_truediv plot_width (Z.of_nat (List.length normalized)) = Ok bw) ->
  exists bars, mapM (draw_bar b env bw) (enumerate normalized) = Ok bars.
Proof.
  intros Hn Hu Hb. apply mapM_total. intros [i v] Hiv.
  apply enumerate_In in Hiv as (Hi & Hv). apply nth_error_In in Hv.
  destruct b.
  - destruct Hb as [Hb|(Hw & Ew)]; [discriminate|].
    destruct (draw_bar_rectangle env bw i v) as (r & g & c & _ & _ & _ & _ & E);
      [lia|apply Hu, Hv|].
    rewrite (bar_box_wide (Z.of_nat (List.length normalized)) i bw
               ltac:(lia) Ew Hi) in E. eauto.
  - destruct (draw_bar_glyphs env bw i v)
      as (k & ch & n & _ & _ & _ & _ & _ & E); [lia|apply Hu, Hv|]. eauto.
Qed.

Lemma labels_total (f : font) (lo hi : float) :
  exists labels,
    mapM (frequency_label f lo hi) [0; 1; 2; 3; 4; 5] = Ok labels
    /\ Forall2 (fun i op => exists mhz,
         op = Text (I (margin_x + plot_width * i / 5 - 30))
                (I (SCREEN_HEIGHT - margin_y + 10)) (FreqLabel mhz)
                TEXT_COLOR f)
         [0; 1; 2; 3; 4; 5] labels.
Proof.
  apply mapM_Forall2. intros i Hi.
  destruct (frequency_label_at f lo hi i Hi) as (mhz & E). eauto.
Qed.

(** The frame of a sweep of finite readings. *)
Lemma frame_of_sweep (b : bool) (env : environment) (sw : sweep) :
  finite_readings (db_values sw) ->
  b = false \/ Z.of_nat (List.length (db_values sw)) <= plot_width ->
  exists normalized bw bars low high labels,
    normalize_db_values (db_values sw) = Ok normalized
    /\ List.length normalized = List.length (db_values sw)
    /\ (forall r, In r normalized -> in_unit r = true /\ canonical r = true)
    /\ int_truediv plot_width (Z.of_nat (List.length normalized)) = Ok bw
    /\ proper bw = true /\ 0 <= ext bw <= ext (of_Z plot_width)
    /\ mapM (draw_bar b env bw) (enumerate normalized) = Ok bars
    /\ fdiv (freq_low sw) (dec 1000000 1) = Ok low
    /\ fdiv (freq_high sw) (dec 1000000 1) = Ok high
    /\ mapM (frequency_label (load_font env 18) (freq_low sw) (freq_high sw))
         [0; 1; 2; 3; 4; 5] = Ok labels
    /\ create_spectrum_image b env (Some sw)
       = Ok (blank (grid ++ List.concat bars
                      ++ [title_text env low high] ++ labels
                      ++ [timestamp_text env])).
Proof.
  intros Hfin Hb.
  destruct (normalize_unit _ Hfin) as (normalized & En & Ln & Hu).
  assert (Hlen : 1 <= Z.of_nat (List.length normalized) <= max_list_length).
  { rewrite Ln. destruct (db_values sw) as [|d rest]; [destruct Hfin|].
    destruct Hfin as (_ & _ & H). cbn [List.length] in *. lia. }
  destruct (int_truediv_small plot_width (Z.of_nat (List.length normalized)))
    as (bw & Ew & Pw & Bw); [unfold max_list_length; cbn; lia|lia|].
  destruct (bars_total b env bw normalized) as (bars & Eb);
    [lia|intros r Hr; apply Hu, Hr| |].
  { destruct Hb as [Hb|Hb]; [left; exact Hb|right].
    split; [rewrite Ln; exact Hb|exact Ew]. }
  assert (Z6 : is_zero (dec 1000000 1) = false) by crunch.
  destruct (fdiv_total (freq_low sw) _ Z6) as (low & El).
  destruct (fdiv_total (freq_high sw) _ Z6) as (high & Eh).
  destruct (labels_total (load_font env 18) (freq_low sw) (freq_high sw))
    as (labels & Elab & _).
  exists normalized, bw, bars, low, high, labels.
  do 3 (split; [assumption|]). do 3 (split; [assumption|]).
  do 4 (split; [assumption|]).
  unfold create_spectrum_image.
  destruct (db_values sw) as [|d rest] eqn:Ed; [destruct Hfin|].
  rewrite En. cbn [bind].
  destruct grid_lines_computed as (Gh & Gv).
  rewrite Gh. cbn [bind]. rewrite Gv. cbn [bind].
  rewrite Ew. cbn [bind]. rewrite Eb. cbn [bind].
  rewrite El. cbn [bind]. rewrite Eh. cbn [bind].
  change (py_range 0 6 1) with [0; 1; 2; 3; 4; 5].
  rewrite Elab. cbn [bind]. unfold grid, title_text, timestamp_text.
  rewrite <- app_assoc. reflexivity.
Qed.

Lemma Forall2_impl_In_l {A B : Type} (R Q : A -> B -> Prop) (l : list A)
    (l' : list B) :
  Forall2 R l l' -> (forall a b, In a l -> R a b -> Q a b) ->
  Forall2 Q l l'.
Proof.
  intros H. induction H as [|a b l l' Hab H IH]; intros HQ; constructor.
  - apply HQ; [left; reflexivity|exact Hab].
  - apply IH. intros x y Hx. apply HQ. right. exact Hx.
Qed.

Lemma concat_singletons {A B : Type} (P : A -> list B -> Prop)
    (Q : A -> B -> Prop) (l : list A) (bars : list (list B)) :
  Forall2 P l bars ->
  (forall a ops, P a ops -> exists op, ops = [op] /\ Q a op) ->
  Forall2 Q l (List.concat bars).
Proof.
  intros H HP. induction H as [|a ops l bars Ha H IH]; [constructor|].
  destruct (HP a ops Ha) as (op & -> & Hq).
  cbn [List.concat app]. constructor; assumption.
Qed.

Lemma filter_all {A : Type} (p : A -> bool) (l : list A) :
  Forall (fun a => p a = true) l -> filter p l = l.
Proof.
  induction 1 as [|a l Ha _ IH]; [reflexivity|]. cbn. rewrite Ha, IH.
  reflexivity.
Qed.

Lemma Forall2_Forall_r {A B : Type} (R : A -> B -> Prop) (P : B -> Prop)
    (l : list A) (l' : list B) :
  Forall2 R l l' -> (forall a b, R a b -> P b) -> Forall P l'.
Proof.
  intros H HP. induction H; constructor; eauto.
Qed.

(** What the bars of a frame are, in the bar style. *)
Lemma bars_of_frame (env : environment) (bw : float)
    (normalized : list float) (bars : list (list draw_op)) :
  Z.of_nat (List.length normalized) <= max_list_length ->
  (forall r, In r normalized -> in_unit r = true) ->
  mapM (draw_bar true env bw) (enumerate normalized) = Ok bars ->
  Forall2 (fun iv op =>
       exists r g b,
         spectrum_color_gradient (snd iv) = Ok (r, g, b)
         /\ channel r /\ channel g /\ channel b
         /\ op = Rectangle (F (bar_x bw (fst iv))) (F (bar_y (snd iv)))
                   (F (fsub (fadd (bar_x bw (fst iv)) bw) (of_Z 1)))
                   (I (SCREEN_HEIGHT - margin_y)) (r, g, b)
         /\ flt (fsub (fadd (bar_x bw (fst iv)) bw) (of_Z 1))
              (bar_x bw (fst iv)) = false)
    (enumerate normalized) (List.concat bars).
Proof.
  intros Hn Hu Eb. apply ReaderFacts.mapM_Forall2_iff in Eb.
  eapply concat_singletons; [|intros a ops H; exact H].
  eapply Forall2_impl_In_l; [exact Eb|].
  intros [i v] ops Hiv E.
  apply enumerate_In in Hiv as (Hi & Hv). apply nth_error_In in Hv.
  destruct (draw_bar_rectangle env bw i v) as (r & g & b & Eg & Cr & Cg & Cb & E');
    [lia|apply Hu, Hv|].
  rewrite E in E'. cbn [fst snd].
  destruct (flt (fsub (fadd (bar_x bw i) bw) (of_Z 1)) (bar_x bw i)) eqn:Fx;
    [discriminate|].
  injection E' as ->.
  eexists. split; [reflexivity|]. exists r, g, b. auto 10.
Qed.

(** More readings than the plot has pixels across: the first bar is
    refused. *)
Lemma narrow_bars_refused (env : environment) (sw : sweep) :
  finite_readings (db_values sw) ->
  plot_width < Z.of_nat (List.length (db_values sw)) ->
  create_spectrum_image true env (Some sw) = Raise ValueError.
Proof.
  intros Hfin Hw.
  destruct (normalize_unit _ Hfin) as (normalized & En & Ln & Hu).
  assert (Hlen : 1 <= Z.of_nat (List.length normalized) <= max_list_length).
  { rewrite Ln. destruct (db_values sw) as [|d rest]; [destruct Hfin|].
    destruct Hfin as (_ & _ & H). cbn [List.length] in *. lia. }
  destruct (int_truediv_small plot_width (Z.of_nat (List.length normalized)))
    as (bw & Ew & Pw & Bw); [unfold max_list_length; cbn; lia|lia|].
  unfold create_spectrum_image.
  destruct (db_values sw) as [|d rest] eqn:Ed; [destruct Hfin|].
  rewrite En. cbn [bind].
  destruct grid_lines_computed as (Gh & Gv).
  rewrite Gh. cbn [bind]. rewrite Gv. cbn [bind].
  rewrite Ew. cbn [bind].
  destruct normalized as [|a l]; [discriminate Ln|].
  assert (Ee : exists rest', enumerate (a :: l) = (0, a) :: rest').
  { unfold enumerate. cbn [List.length seq List.map combine]. eauto. }
  destruct Ee as (rest' & ->). cbn [mapM].
  destruct (draw_bar_rectangle env bw 0 a) as (r & g & b & _ & _ & _ & _ & E);
    [unfold max_list_length; lia|apply Hu; left; reflexivity|].
  rewrite E, (bar_box_narrow (Z.of_nat (List.length (a :: l))) bw
                ltac:(rewrite Ln; exact Hw) Ew).
  reflexivity.
Qed.

(** What is drawn for the readings, in the ASCII style. *)
Lemma glyphs_of_frame (env : environment) (bw : float)
    (normalized : list float) (bars : list (list draw_op)) :
  Z.of_nat (List.length normalized) <= max_list_length ->
  (forall r, In r normalized -> in_unit r = true /\ canonical r = true) ->
  mapM (draw_bar false env bw) (enumerate normalized) = Ok bars ->
  Forall2 (fun iv ops =>
       exists k ch n,
         char_index (snd iv) = Ok k /\ py_index ASCII_CHARS k = Ok ch
         /\ to_int (fmul (snd iv) (of_Z 30)) = Ok n /\ 0 <= n <= 30
         /\ ops = glyph_stack env (bar_x bw (fst iv)) ch n
         /\ (flt (snd iv) (dec 25 100) = true -> ch = " "%string))
    (enumerate normalized) bars.
Proof.
  intros Hn Hu Eb. apply ReaderFacts.mapM_Forall2_iff in Eb.
  eapply Forall2_impl_In_l; [exact Eb|].
  intros [i v] ops Hiv E.
  apply enumerate_In in Hiv as (Hi & Hv). apply nth_error_In in Hv.
  destruct (Hu v Hv) as (Uv & Cv).
  destruct (draw_bar_glyphs env bw i v)
    as (k & ch & n & Ek & Ec & _ & En & Hn' & E'); [lia|exact Uv|].
  rewrite E in E'. injection E' as ->.
  exists k, ch, n. cbn [fst snd]. do 5 (split; [assumption || reflexivity|]).
  intros Hq. rewrite (char_index_blank v Cv Uv Hq) in Ek.
  injection Ek as <-. cbn in Ec. injection Ec as <-. reflexivity.
Qed.

Lemma glyph_stack_texts (env : environment) (x : float) (ch : string)
    (n : Z) :
  List.length (glyph_stack env x ch n) = Z.to_nat n
  /\ Forall (fun op => is_rectangle op = false) (glyph_stack env x ch n)
  /\ Forall (fun op => exists y,
               op = Text (F x) (I y) (Plain ch) SPECTRUM_COLOR (load_font env 20)
               /\ SCREEN_HEIGHT - margin_y - 20 * (n - 1) <= y
                  <= SCREEN_HEIGHT - margin_y)
       (glyph_stack env x ch n).
Proof.
  unfold glyph_stack. split; [rewrite length_map, length_seq; reflexivity|].
  split; apply Forall_forall; intros op Hop;
    apply in_map_iff in Hop as (j & <- & Hj); [reflexivity|].
  apply in_seq in Hj. eexists. split; [reflexivity|]. lia.
Qed.

End FrameFacts.

(** ** Reader and renderer together *)

Module PipelineFacts.
Import Float PyStr FloatFacts GradientFacts NormalizeFacts ReaderFacts
  RenderFacts FrameFacts.

Lemma last_line_app (earlier : list string) (l : string) :
  last_line (earlier ++ [l]) = Some l.
Proof.
  unfold last_line. destruct earlier as [|a earlier]; [reflexivity|].
  cbn [app]. f_equal. apply last_last.
Qed.

Lemma read_last_line (lines lines' : list string) :
  last_line lines = last_line lines' ->
  read_spectrum_data (Lines lines) = read_spectrum_data (Lines lines').
Proof.
  intros H. unfold read_spectrum_data, read_spectrum_data_try.
  rewrite H. reflexivity.
Qed.

Lemma strip_all_space (w : string) : all_space w = true -> strip w = EmptyString.
Proof.
  intros H. unfold strip. rewrite (all_space_lstrip w H). reflexivity.
Qed.

Lemma py_min_nan (rest : list float) : py_min NaN rest = NaN.
Proof.
  unfold py_min. induction rest as [|a rest IH]; [reflexivity|].
  cbn [fold_left]. replace (flt a NaN) with false; [exact IH|].
  unfold flt. cbn [is_nan negb]. rewrite andb_false_r. reflexivity.
Qed.

Lemma py_max_nan (rest : list float) : py_max NaN rest = NaN.
Proof.
  unfold py_max. induction rest as [|a rest IH]; [reflexivity|].
  cbn [fold_left]. exact IH.
Qed.

Lemma fsub_nan_r (x : float) : fsub x NaN = NaN.
Proof. destruct x; reflexivity. Qed.

Lemma normalize_nan (rest : list float) :
  exists l, normalize_db_values (NaN :: rest) = Ok (NaN :: l)
            /\ List.length l = List.length rest.
Proof.
  unfold normalize_db_values. rewrite py_min_nan, py_max_nan.
  change (feq NaN NaN) with false. cbv iota.
  assert (G : forall xs, mapM (fun db => fdiv (fsub db NaN) (fsub NaN NaN)) xs
                         = Ok (List.map (fun _ => NaN) xs)).
  { induction xs as [|x xs IH]; [reflexivity|].
    cbn [mapM List.map]. rewrite IH, fsub_nan_r. reflexivity. }
  rewrite G. cbn [List.map]. eexists. split; [reflexivity|].
  apply length_map.
Qed.

Lemma gradient_nan : spectrum_color_gradient NaN = Raise ValueError.
Proof. vm_compute. reflexivity. Qed.

Lemma char_index_nan : char_index NaN = Raise ValueError.
Proof. vm_compute. reflexivity. Qed.

Lemma draw_bar_nan (b : bool) (env : environment) (bw : float) :
  draw_bar b env bw (0, NaN) = Raise ValueError.
Proof.
  unfold draw_bar.
  assert (E : of_int 0 = Ok (of_Z 0)) by reflexivity.
  rewrite E. cbn [bind].
  destruct b; [rewrite gradient_nan|rewrite char_index_nan]; reflexivity.
Qed.

Lemma enumerate_cons {A : Type} (a : A) (l : list A) :
  exists rest, enumerate (a :: l) = (0, a) :: rest.
Proof. unfold enumerate. cbn [List.length seq List.map combine]. eauto. Qed.

End PipelineFacts.

(** * Further properties, stated *)

Import EffectFacts GradientOrder NormalizeOrder FrameFacts PipelineFacts.

(** X1. A value that is not finite makes the gradient raise: [ValueError]
    for a NaN, which [int] rejects, and [OverflowError] for an infinity. *)
Theorem spectrum_color_gradient_non_finite (v : float) :
  is_finite v = false ->
  spectrum_color_gradient v
  = Raise (if is_nan v then ValueError else OverflowError).
Proof.
  destruct v as [|[]|s m k]; intros H; try discriminate;
    vm_compute; reflexivity.
Qed.

Lemma spectrum_color_gradient_non_finite_witness :
  spectrum_color_gradient NaN = Raise ValueError.
Proof. apply (spectrum_color_gradient_non_finite NaN). reflexivity. Defined.

(** X2. On [0,1] the red channel never decreases as the value grows. *)
Theorem spectrum_color_gradient_red_monotone (u v : float) :
  in_unit u = true -> in_unit v = true -> fle u v = true ->
  exists cu cv,
    spectrum_color_gradient u = Ok cu /\ spectrum_color_gradient v = Ok cv
    /\ red cu <= red cv.
Proof.
  intros Hu Hv L.
  destruct (gradient_ordered u v Hu Hv L)
    as (r1 & g1 & b1 & r2 & g2 & b2 & Eu & Ev & Hr & _).
  exists (r1, g1, b1), (r2, g2, b2). auto.
Qed.

Lemma spectrum_color_gradient_red_monotone_witness :
  exists cu cv,
    spectrum_color_gradient (dec 65 100) = Ok cu
    /\ spectrum_color_gradient (dec 7 10) = Ok cv
    /\ red cu <= red cv.
Proof.
  apply (spectrum_color_gradient_red_monotone (dec 65 100) (dec 7 10));
    reflexivity.
Defined.

(** X3. On [0,1] green never decreases while the value stays below 0.8
    and never increases from 0.8 on; blue never decreases while the value
    stays below 0.3 and never increases from 0.3 on. *)
Theorem spectrum_color_gradient_green_blue (u v : float) :
  in_unit u = true -> in_unit v = true -> fle u v = true ->
  exists cu cv,
    spectrum_color_gradient u = Ok cu /\ spectrum_color_gradient v = Ok cv
    /\ (flt v (dec 8 10) = true -> green cu <= green cv)
    /\ (flt u (dec 8 10) = false -> green cv <= green cu)
    /\ (flt v (dec 3 10) = true -> blue cu <= blue cv)
    /\ (flt u (dec 3 10) = false -> blue cv <= blue cu).
Proof.
  intros Hu Hv L.
  destruct (gradient_ordered u v Hu Hv L)
    as (r1 & g1 & b1 & r2 & g2 & b2 & Eu & Ev & _ & H).
  exists (r1, g1, b1), (r2, g2, b2). auto.
Qed.

Lemma spectrum_color_gradient_green_blue_witness :
  exists cu cv,
    spectrum_color_gradient (dec 4 10) = Ok cu
    /\ spectrum_color_gradient (dec 5 10) = Ok cv
    /\ (flt (dec 5 10) (dec 8 10) = true -> green cu <= green cv)
    /\ (flt (dec 4 10) (dec 8 10) = false -> green cv <= green cu)
    /\ (flt (dec 5 10) (dec 3 10) = true -> blue cu <= blue cv)
    /\ (flt (dec 4 10) (dec 3 10) = false -> blue cv <= blue cu).
Proof.
  apply (spectrum_color_gradient_green_blue (dec 4 10) (dec 5 10));
    reflexivity.
Defined.

(** X4. Normalisation keeps the order of finite readings: of two readings
    of one list, the one that is not greater gets a normalised value that
    is not greater. *)
Theorem normalize_db_values_monotone (d : float) (rest l : list float)
    (i j : nat) (x y rx ry : float) :
  Forall (fun x => proper x = true) (d :: rest) ->
  feq (py_max d rest) (py_min d rest) = false ->
  proper (fsub (py_max d rest) (py_min d rest)) = true ->
  normalize_db_values (d :: rest) = Ok l ->
  nth_error (d :: rest) i = Some x -> nth_error l i = Some rx ->
  nth_error (d :: rest) j = Some y -> nth_error l j = Some ry ->
  fle x y = true -> fle rx ry = true.
Proof. apply normalize_ordered. Qed.

Lemma normalize_db_values_monotone_witness :
  fle zero (dec 1 3) = true.
Proof.
  apply (normalize_db_values_monotone (of_Z (-70))
           [of_Z (-60); of_Z (-50); of_Z (-80)]
           [dec 1 3; dec 2 3; one; zero] 3 0
           (of_Z (-80)) (of_Z (-70)) zero (dec 1 3)).
  - repeat constructor.
  - reflexivity.
  - reflexivity.
  - vm_compute. reflexivity.
  - reflexivity.
  - reflexivity.
  - reflexivity.
  - reflexivity.
  - reflexivity.
Defined.

(** X5. Normalising a second time changes no value: for finite readings
    with a finite spread, the normalised list normalises to a list that is
    equal to it, item by item, under [==]. *)
Theorem normalize_db_values_idempotent (d : float) (rest l : list float) :
  Forall (fun x => proper x = true) (d :: rest) ->
  proper (fsub (py_max d rest) (py_min d rest)) = true ->
  normalize_db_values (d :: rest) = Ok l ->
  exists l', normalize_db_values l = Ok l'
    /\ Forall2 (fun a b => feq a b = true) l l'.
Proof.
  intros Hfin Hspread Hl.
  destruct (feq (py_max d rest) (py_min d rest)) eqn:E.
  - unfold normalize_db_values in Hl. rewrite E in Hl. injection Hl as <-.
    exists (repeat (dec 5 10) (List.length (d :: rest))).
    split; [apply normalize_half|].
    assert (R : forall m, Forall2 (fun a b => feq a b = true)
                  (repeat (dec 5 10) m) (repeat (dec 5 10) m)).
    { induction m as [|m IH]; constructor; [vm_compute; reflexivity|exact IH]. }
    exact (R (List.length (d :: rest))).
  - apply (normalize_idempotent d rest l); assumption.
Qed.

Lemma normalize_db_values_idempotent_witness :
  exists l', normalize_db_values [dec 1 3; dec 2 3; one; zero] = Ok l'
    /\ Forall2 (fun a b => feq a b = true) [dec 1 3; dec 2 3; one; zero] l'.
Proof.
  apply (normalize_db_values_idempotent (of_Z (-70))
           [of_Z (-60); of_Z (-50); of_Z (-80)]).
  - repeat constructor.
  - reflexivity.
  - vm_compute. reflexivity.
Defined.

(** X6. Only the last line of the file counts: the lines before it, well
    formed or not, change nothing; and a last line of white space alone
    (an empty line at the end of the file) gives no data whatever the
    earlier lines hold. *)
Theorem read_spectrum_data_last_line :
  (forall earlier l,
      read_spectrum_data (Lines (earlier ++ [l]))
      = read_spectrum_data (Lines [l]))
  /\ (forall earlier w,
        all_space w = true ->
        read_spectrum_data (Lines (earlier ++ [w])) = None).
Proof.
  split.
  - intros earlier l. apply read_last_line.
    rewrite last_line_app. reflexivity.
  - intros earlier w Hw.
    unfold read_spectrum_data, read_spectrum_data_try.
    rewrite last_line_app, (strip_all_space w Hw). reflexivity.
Qed.

Lemma read_spectrum_data_last_line_witness :
  read_spectrum_data
    (Lines ["2024-01-01,12:00:00,88000000,108000000,10000,2000,-70,-60";
            String "010" ""]%string)
  = None.
Proof.
  apply (proj2 read_spectrum_data_last_line
           ["2024-01-01,12:00:00,88000000,108000000,10000,2000,-70,-60"%string]
           (String "010" "")).
  reflexivity.
Defined.

(** X7. Of a last line with at least six fields the reader uses the
    fields at index 2 and 3 and those from index 6 on, and nothing else:
    two files whose last lines agree on these fields are read alike. *)
Theorem read_spectrum_data_fields_used (lines lines' : list string)
    (l l' : string) :
  last_line lines = Some l -> last_line lines' = Some l' ->
  (6 <= List.length (split "," (strip l)))%nat ->
  (6 <= List.length (split "," (strip l')))%nat ->
  nth_error (split "," (strip l)) 2 = nth_error (split "," (strip l')) 2 ->
  nth_error (split "," (strip l)) 3 = nth_error (split "," (strip l')) 3 ->
  skipn 6 (split "," (strip l)) = skipn 6 (split "," (strip l')) ->
  read_spectrum_data (Lines lines) = read_spectrum_data (Lines lines').
Proof.
  intros Hl Hl' Hn Hn' E2 E3 E6. unfold read_spectrum_data.
  rewrite (read_fields lines l Hl Hn), (read_fields lines' l' Hl' Hn').
  destruct (nth_error_total (split "," (strip l)) 2 ltac:(lia)) as (p2 & F2).
  destruct (nth_error_total (split "," (strip l)) 3 ltac:(lia)) as (p3 & F3).
  rewrite (py_index_nth _ 2 p2 F2 : py_index _ 2 = _).
  rewrite (py_index_nth _ 3 p3 F3 : py_index _ 3 = _).
  rewrite E2 in F2. rewrite E3 in F3.
  rewrite (py_index_nth _ 2 p2 F2 : py_index _ 2 = _).
  rewrite (py_index_nth _ 3 p3 F3 : py_index _ 3 = _).
  rewrite E6. reflexivity.
Qed.

Lemma read_spectrum_data_fields_used_witness :
  read_spectrum_data (Lines ["2024-01-01,12:00:00,88e6,108e6,10000,2000,-70"%string])
  = read_spectrum_data (Lines ["junk"; "x,,88e6,108e6,,y,-70"]%string).
Proof.
  apply (read_spectrum_data_fields_used _ _
           "2024-01-01,12:00:00,88e6,108e6,10000,2000,-70"
           "x,,88e6,108e6,,y,-70").
  - reflexivity.
  - reflexivity.
  - vm_compute. lia.
  - vm_compute. lia.
  - reflexivity.
  - reflexivity.
  - reflexivity.
Defined.

(** X8. A sweep of finite readings with a finite spread is rendered
    without an exception whatever its bounds are, in the ASCII style
    always, and in the bar style when it has at most [plot_width]
    readings, a pixel or more for each bar; the frame holds, in drawing
    order, the grid, what is drawn for the readings, the title with the
    two bounds divided by 1e6, the six frequency labels and the
    timestamp. *)
Theorem create_spectrum_image_frame (bars_style : bool) (env : environment)
    (sw : sweep) :
  finite_readings (db_values sw) ->
  bars_style = false \/ Z.of_nat (List.length (db_values sw)) <= plot_width ->
  exists normalized bar_width bars low_mhz high_mhz labels,
    normalize_db_values (db_values sw) = Ok normalized
    /\ int_truediv plot_width (Z.of_nat (List.length (db_values sw)))
       = Ok bar_width
    /\ mapM (draw_bar bars_style env bar_width) (enumerate normalized) = Ok bars
    /\ fdiv (freq_low sw) (dec 1000000 1) = Ok low_mhz
    /\ fdiv (freq_high sw) (dec 1000000 1) = Ok high_mhz
    /\ List.length labels = 6%nat
    /\ create_spectrum_image bars_style env (Some sw)
       = Ok (blank (grid ++ List.concat bars
                      ++ [title_text env low_mhz high_mhz] ++ labels
                      ++ [timestamp_text env])).
Proof.
  intros Hfin Hb.
  destruct (frame_of_sweep bars_style env sw Hfin Hb)
    as (normalized & bw & bars & low & high & labels
        & En & Ln & _ & Ew & _ & _ & Eb & El & Eh & Elab & E).
  exists normalized, bw, bars, low, high, labels.
  rewrite <- Ln. repeat split; try assumption.
  apply (mapM_length _ _ _ Elab).
Qed.

Lemma create_spectrum_image_frame_witness :
  exists normalized bar_width bars low_mhz high_mhz labels,
    normalize_db_values (db_values scenario_sweep) = Ok normalized
    /\ int_truediv plot_width (Z.of_nat (List.length (db_values scenario_sweep)))
       = Ok bar_width
    /\ mapM (draw_bar true (Env true "12:00:00") bar_width)
         (enumerate normalized) = Ok bars
    /\ fdiv (freq_low scenario_sweep) (dec 1000000 1) = Ok low_mhz
    /\ fdiv (freq_high scenario_sweep) (dec 1000000 1) = Ok high_mhz
    /\ List.length labels = 6%nat
    /\ create_spectrum_image true (Env true "12:00:00") (Some scenario_sweep)
       = Ok (blank (grid ++ List.concat bars
                      ++ [title_text (Env true "12:00:00") low_mhz high_mhz]
                      ++ labels ++ [timestamp_text (Env true "12:00:00")])).
Proof.
  apply (create_spectrum_image_frame true (Env true "12:00:00") scenario_sweep).
  - split; [repeat constructor|]. split; [reflexivity|].
    vm_compute. discriminate.
  - right. vm_compute. discriminate.
Defined.





(** X11. A rendered sweep with at least one reading carries six frequency
    labels, drawn after the title and before the timestamp, 10 pixels
    below the plot; label [i] is anchored 30 pixels left of the vertical
    grid line number [i]. *)
Theorem create_spectrum_image_labels (bars_style : bool) (env : environment)
    (sw : sweep) (img : image) :
  db_values sw <> [] ->
  create_spectrum_image bars_style env (Some sw) = Ok img ->
  exists before title labels,
    img_ops img = before ++ [title] ++ labels ++ [timestamp_text env]
    /\ Forall2 (fun i op =>
         exists x mhz,
           op = Text (I (x - 30)) (I (SCREEN_HEIGHT - margin_y + 10))
                  (FreqLabel mhz) TEXT_COLOR (load_font env 18)
           /\ vertical_at i 5
              = Line x margin_y x (SCREEN_HEIGHT - margin_y) GRID_COLOR 1
           /\ In (vertical_at i 5) (img_ops img))
         [0; 1; 2; 3; 4; 5] labels.
Proof.
  intros Hne H. pose proof H as H0. unfold create_spectrum_image in H.
  destruct (db_values sw) as [|d rest] eqn:Ed; [congruence|].
  destruct grid_lines_computed as (Eh & Ev).
  apply bind_ok in H as (normalized & _ & H).
  rewrite Eh in H. cbn [bind] in H. rewrite Ev in H. cbn [bind] in H.
  apply bind_ok in H as (bw & _ & H).
  apply bind_ok in H as (bars & _ & H).
  apply bind_ok in H as (low & _ & H). apply bind_ok in H as (high & _ & H).
  apply bind_ok in H as (labels & Hlabels & H).
  change (py_range 0 6 1) with [0; 1; 2; 3; 4; 5] in Hlabels.
  destruct (labels_total (load_font env 18) (freq_low sw) (freq_high sw))
    as (labels' & Elab' & Hlab).
  rewrite Hlabels in Elab'. injection Elab' as <-.
  injection H as <-. unfold blank. cbn [img_ops].
  exists (List.map (fun i => horizontal_at i 5) [0; 1; 2; 3; 4; 5]
          ++ List.map (fun i => vertical_at i 5) [0; 1; 2; 3; 4; 5]
          ++ List.concat bars),
    (Text (I margin_x) (I 30) (Title low high) TEXT_COLOR (load_font env 24)),
    labels.
  split.
  - rewrite <- !app_assoc. reflexivity.
  - eapply Forall2_impl_In_l; [exact Hlab|].
    intros i op Hi (mhz & ->).
    exists (margin_x + plot_width * i / 5), mhz.
    split; [reflexivity|]. split; [reflexivity|].
    assert (G : forall rest,
              In (vertical_at i 5)
                (List.map (fun i => horizontal_at i 5) [0; 1; 2; 3; 4; 5]
                 ++ List.map (fun i => vertical_at i 5) [0; 1; 2; 3; 4; 5]
                 ++ rest)).
    { intros rest'. apply in_or_app. right. apply in_or_app. left.
      apply (in_map (fun i => vertical_at i 5)). exact Hi. }
    apply G.
Qed.

Lemma create_spectrum_image_labels_witness :
  exists img before title labels,
    create_spectrum_image true (Env true "now") (Some scenario_sweep) = Ok img
    /\ img_ops img
       = before ++ [title] ++ labels ++ [timestamp_text (Env true "now")]
    /\ Forall2 (fun i op =>
         exists x mhz,
           op = Text (I (x - 30)) (I (SCREEN_HEIGHT - margin_y + 10))
                  (FreqLabel mhz) TEXT_COLOR (load_font (Env true "now") 18)
           /\ vertical_at i 5
              = Line x margin_y x (SCREEN_HEIGHT - margin_y) GRID_COLOR 1
           /\ In (vertical_at i 5) (img_ops img))
         [0; 1; 2; 3; 4; 5] labels.
Proof.
  eexists. 
  assert (E : create_spectrum_image true (Env true "now") (Some scenario_sweep)
              = Ok ?[img]) by (vm_compute; reflexivity).
  destruct (create_spectrum_image_labels true (Env true "now") scenario_sweep
              _ ltac:(discriminate) E) as (before & title & labels & H).
  exists before, title, labels. split; [exact E|exact H].
Defined.

(** X12. Of the clock a rendered sweep shows only the timestamp: two
    renders of one sweep with at least one reading at different times,
    with the same font available, end alike, in the same exception or in
    two frames that differ in the timestamp text at most. *)
Theorem create_spectrum_image_clock (bars_style : bool)
    (e1 e2 : environment) (sw : sweep) :
  dejavu_font e1 = dejavu_font e2 -> db_values sw <> [] ->
  match create_spectrum_image bars_style e1 (Some sw),
        create_spectrum_image bars_style e2 (Some sw) with
  | Ok img1, Ok img2 =>
      exists ops, img1 = blank (ops ++ [timestamp_text e1])
                  /\ img2 = blank (ops ++ [timestamp_text e2])
  | Raise x1, Raise x2 => x1 = x2
  | _, _ => False
  end.
Proof.
  destruct e1 as [f c1], e2 as [f2 c2]. cbn [dejavu_font]. intros <- Hne.
  unfold create_spectrum_image.
  destruct (db_values sw) as [|d rest]; [congruence|].
  destruct (normalize_db_values (d :: rest)) as [normalized|e];
    cbn [bind]; [|reflexivity].
  destruct grid_lines_computed as (Eh & Ev).
  rewrite Eh. cbn [bind]. rewrite Ev. cbn [bind].
  destruct (int_truediv plot_width (Z.of_nat (List.length normalized)))
    as [bw|e]; cbn [bind]; [|reflexivity].
  change (draw_bar bars_style (Env f c2) bw)
    with (draw_bar bars_style (Env f c1) bw).
  destruct (mapM (draw_bar bars_style (Env f c1) bw) (enumerate normalized))
    as [bars|e]; cbn [bind]; [|reflexivity].
  destruct (fdiv (freq_low sw) (dec 1000000 1)) as [low|e];
    cbn [bind]; [|reflexivity].
  destruct (fdiv (freq_high sw) (dec 1000000 1)) as [high|e];
    cbn [bind]; [|reflexivity].
  change (load_font (Env f c2) 18) with (load_font (Env f c1) 18).
  destruct (mapM (frequency_label (load_font (Env f c1) 18) (freq_low sw)
                    (freq_high sw)) (py_range 0 6 1))
    as [labels|e]; cbn [bind]; [|reflexivity].
  exists (List.map (fun i => horizontal_at i 5) [0; 1; 2; 3; 4; 5]
          ++ List.map (fun i => vertical_at i 5) [0; 1; 2; 3; 4; 5]
          ++ List.concat bars
          ++ [Text (I margin_x) (I 30) (Title low high) TEXT_COLOR
                (load_font (Env f c1) 24)]
          ++ labels).
  split; rewrite <- !app_assoc; reflexivity.
Qed.

Lemma create_spectrum_image_clock_witness :
  match create_spectrum_image true (Env true "12:00:00") (Some scenario_sweep),
        create_spectrum_image true (Env true "12:00:05") (Some scenario_sweep)
  with
  | Ok img1, Ok img2 =>
      exists ops, img1 = blank (ops ++ [timestamp_text (Env true "12:00:00")])
                  /\ img2 = blank (ops ++ [timestamp_text (Env true "12:00:05")])
  | Raise x1, Raise x2 => x1 = x2
  | _, _ => False
  end.
Proof.
  apply (create_spectrum_image_clock true (Env true "12:00:00")
           (Env true "12:00:05") scenario_sweep).
  - reflexivity.
  - discriminate.
Defined.

(** X13. A sweep whose first reading is a NaN is not rendered: every
    normalised value is then a NaN, and the first bar raises [ValueError],
    in either style. *)
Theorem create_spectrum_image_nan (bars_style : bool) (env : environment)
    (lo hi : float) (rest : list float) :
  Z.of_nat (List.length (NaN :: rest)) <= max_list_length ->
  create_spectrum_image bars_style env (Some (Sweep lo hi (NaN :: rest)))
  = Raise ValueError.
Proof.
  intros Hn. unfold create_spectrum_image. cbn [db_values].
  destruct (normalize_nan rest) as (l & E & L). rewrite E. cbn [bind].
  destruct grid_lines_computed as (Eh & Ev).
  rewrite Eh. cbn [bind]. rewrite Ev. cbn [bind].
  destruct (int_truediv_small plot_width (Z.of_nat (List.length (NaN :: l))))
    as (bw & Ew & _).
  { unfold max_list_length. cbn. lia. }
  { cbn [List.length]. lia. }
  rewrite Ew. cbn [bind].
  destruct (enumerate_cons NaN l) as (items & ->).
  cbn [mapM]. rewrite draw_bar_nan. reflexivity.
Qed.

Lemma create_spectrum_image_nan_witness :
  create_spectrum_image true (Env true "12:00:00")
    (Some (Sweep (of_Z 88000000) (of_Z 108000000) [NaN; of_Z (-60)]))
  = Raise ValueError.
Proof.
  apply (create_spectrum_image_nan true (Env true "12:00:00")
           (of_Z 88000000) (of_Z 108000000) [of_Z (-60)]).
  vm_compute. discriminate.
Defined.

(** X14. A last line of exactly six fields, the two bounds numeric, is
    read as a sweep without readings, and that sweep is rendered as the
    bare background: no grid, no title, no message. *)
Theorem six_field_row_frame (bars_style : bool) (env : environment)
    (lines : list string) (l p2 p3 : string) (lo hi : float) :
  last_line lines = Some l ->
  List.length (split "," (strip l)) = 6%nat ->
  nth_error (split "," (strip l)) 2 = Some p2 -> py_float p2 = Ok lo ->
  nth_error (split "," (strip l)) 3 = Some p3 -> py_float p3 = Ok hi ->
  read_spectrum_data (Lines lines) = Some (Sweep lo hi [])
  /\ create_spectrum_image bars_style env (read_spectrum_data (Lines lines))
     = Ok (blank []).
Proof.
  intros Hl Hn E2 F2 E3 F3.
  assert (R : read_spectrum_data (Lines lines) = Some (Sweep lo hi [])).
  { apply (read_spectrum_data_fields lines l p2 p3); try assumption; [lia|].
    rewrite skipn_all2 by lia. constructor. }
  split; [exact R|]. rewrite R. reflexivity.
Qed.

Lemma six_field_row_frame_witness :
  read_spectrum_data (Lines ["d,t,88e6,108e6,10000,2000"%string])
  = Some (Sweep (dec 88000000 1) (dec 108000000 1) [])
  /\ create_spectrum_image true (Env true "12:00:00")
       (read_spectrum_data (Lines ["d,t,88e6,108e6,10000,2000"%string]))
     = Ok (blank []).
Proof.
  apply (six_field_row_frame true (Env true "12:00:00") _
           "d,t,88e6,108e6,10000,2000" "88e6" "108e6").
  - reflexivity.
  - reflexivity.
  - reflexivity.
  - vm_compute. reflexivity.
  - reflexivity.
  - vm_compute. reflexivity.
Defined.

(** X15. The publisher returns [True] exactly when the absolute path is
    found and both [gsettings] runs succeed, and [False] otherwise, never
    an exception. The only commands it runs set [picture-uri] and then
    [picture-uri-dark], both to the [file://] URI of the absolute path;
    when the first run fails the second is not made. *)
Theorem set_gnome_wallpaper_outcome (d : desktop) (image_path : string) :
  let ev := fst (set_gnome_wallpaper d image_path) in
  let ok := snd (set_gnome_wallpaper d image_path) in
  (ok = true <->
     (exists p, abspath d image_path = Ok p)
     /\ run_picture_uri d = Ok tt /\ run_picture_uri_dark d = Ok tt)
  /\ (ok = true ->
      exists p, abspath d image_path = Ok p
        /\ filter is_run ev
           = [Ran (gsettings_set "picture-uri" ("file://" ++ p));
              Ran (gsettings_set "picture-uri-dark" ("file://" ++ p))])
  /\ (forall cmd, In (Ran cmd) ev ->
        exists p, abspath d image_path = Ok p
          /\ (cmd = gsettings_set "picture-uri" ("file://" ++ p)
              \/ cmd = gsettings_set "picture-uri-dark" ("file://" ++ p)))
  /\ (forall e uri, run_picture_uri d = Raise e ->
        ~ In (Ran (gsettings_set "picture-uri-dark" uri)) ev).
Proof.
  cbv zeta.
  pose proof (set_gnome_wallpaper_cases d image_path) as H.
  destruct (abspath d image_path) as [p|e].
  - cbv zeta in H.
    destruct (run_picture_uri d) as [[]|e1].
    + destruct (run_picture_uri_dark d) as [[]|e2]; rewrite H; cbn [fst snd].
      * split; [split; [intros _; eauto|reflexivity]|].
        split; [intros _; exists p; split; reflexivity|].
        split; [|intros e uri X; discriminate].
        intros cmd [X|[X|[X|[]]]]; try discriminate;
          injection X as <-; exists p; auto.
      * split; [split; [discriminate|intros (_ & _ & X); discriminate]|].
        split; [discriminate|].
        split; [|intros e uri X; discriminate].
        intros cmd [X|[X|[X|[]]]]; try discriminate;
          injection X as <-; exists p; auto.
    + rewrite H. cbn [fst snd].
      split; [split; [discriminate|intros (_ & X & _); discriminate]|].
      split; [discriminate|].
      split.
      * intros cmd [X|[X|[]]]; try discriminate.
        injection X as <-. exists p. auto.
      * intros e uri _ [X|[X|[]]]; discriminate.
  - rewrite H. cbn [fst snd].
    split; [split; [discriminate|intros ((p & X) & _); discriminate]|].
    split; [discriminate|].
    split; [intros cmd [X|[]]; discriminate|].
    intros e' uri _ [X|[]]. discriminate.
Qed.

Lemma set_gnome_wallpaper_outcome_witness :
  let d := Desktop (fun p => Ok p) (Ok tt) (Ok tt) in
  exists p, abspath d "/home/u/.rtl_spectrum_wallpaper.png" = Ok p
    /\ filter is_run
         (fst (set_gnome_wallpaper d "/home/u/.rtl_spectrum_wallpaper.png"))
       = [Ran (gsettings_set "picture-uri" ("file://" ++ p));
          Ran (gsettings_set "picture-uri-dark" ("file://" ++ p))].
Proof.
  intros d.
  apply (proj1 (proj2 (set_gnome_wallpaper_outcome d
                         "/home/u/.rtl_spectrum_wallpaper.png"))).
  reflexivity.
Defined.

(** X16. Every iteration of the main loop, whatever fails in it, sleeps
    exactly once, for [UPDATE_INTERVAL] seconds, and that is the last thing
    it does. *)
Theorem loop_iteration_sleeps_once (WALLPAPER_PATH : string) (w : tick_world) :
  exists evs,
    loop_iteration WALLPAPER_PATH w = evs ++ [Slept UPDATE_INTERVAL]
    /\ filter is_sleep evs = [].
Proof. apply loop_iteration_one_sleep. Qed.

(** X17. In one iteration the frame rendered from the data just read is
    saved at most once, to [WALLPAPER_PATH] as PNG, and [gsettings] runs
    only after that save succeeded: when rendering raises nothing is saved
    and nothing is run, and when saving raises nothing is run. *)
Theorem loop_iteration_publishes (WALLPAPER_PATH : string) (w : tick_world) :
  let evs := loop_iteration WALLPAPER_PATH w in
  match create_spectrum_image BARS_STYLE (tick_env w)
          (read_spectrum_data (tick_csv w)) with
  | Raise e => filter is_publish evs = []
  | Ok img =>
      match tick_save w with
      | Raise e => filter is_publish evs = [Saved img WALLPAPER_PATH "PNG"]
      | Ok _ =>
          filter is_publish evs
          = Saved img WALLPAPER_PATH "PNG"
            :: filter is_run
                 (fst (set_gnome_wallpaper (tick_desktop w) WALLPAPER_PATH))
      end
  end.
Proof.
  cbv zeta.
  pose proof (loop_iteration_cases WALLPAPER_PATH w) as H. cbv zeta in H.
  rewrite read_spectrum_data_io_value in H.
  assert (Hr : filter is_publish (fst (read_spectrum_data_io (tick_csv w))) = [])
    by (apply read_spectrum_data_io_quiet; reflexivity).
  destruct (create_spectrum_image BARS_STYLE (tick_env w)
              (read_spectrum_data (tick_csv w))) as [img|e].
  - destruct (tick_save w) as [[]|e]; rewrite H.
    + rewrite !filter_app, Hr. cbn [app filter is_publish is_save is_run orb].
      f_equal. rewrite app_nil_r.
      apply publish_without_save, set_gnome_wallpaper_saves.
    + rewrite filter_app, Hr. reflexivity.
  - rewrite H, filter_app, Hr. reflexivity.
Qed.

(** X18. While there is no data (no file, an empty one, a last line that
    cannot be read) rendering does not fail: the iteration saves the
    waiting frame and, the save succeeding, goes on to publish it and
    sleeps. *)
Theorem loop_iteration_no_data (WALLPAPER_PATH : string) (w : tick_world) :
  read_spectrum_data (tick_csv w) = None -> tick_save w = Ok tt ->
  loop_iteration WALLPAPER_PATH w
  = fst (read_spectrum_data_io (tick_csv w))
    ++ [Saved (waiting_frame (tick_env w)) WALLPAPER_PATH "PNG"]
    ++ fst (set_gnome_wallpaper (tick_desktop w) WALLPAPER_PATH)
    ++ [Slept UPDATE_INTERVAL].
Proof.
  intros Hn Hs.
  pose proof (loop_iteration_cases WALLPAPER_PATH w) as H. cbv zeta in H.
  rewrite read_spectrum_data_io_value, Hn, Hs in H.
  exact H.
Qed.

Lemma loop_iteration_no_data_witness :
  let w := Tick Missing (Env true "12:00:00") (Ok tt)
             (Desktop (fun p => Ok p) (Ok tt) (Ok tt)) in
  loop_iteration "/home/u/w.png" w
  = fst (read_spectrum_data_io (tick_csv w))
    ++ [Saved (waiting_frame (tick_env w)) "/home/u/w.png" "PNG"]
    ++ fst (set_gnome_wallpaper (tick_desktop w) "/home/u/w.png")
    ++ [Slept UPDATE_INTERVAL].
Proof.
  intros w. apply (loop_iteration_no_data "/home/u/w.png" w); reflexivity.
Defined.

(** X19. When launching the capture raises, because the old CSV file
    cannot be removed or the tool cannot be spawned, [main] ends with that
    exception before its loop: nothing is ever rendered, saved or
    published and [main] never sleeps; the tool is not spawned when the
    removal failed. *)
Theorem main_launch_failure (WALLPAPER_PATH : string) (lw : launch_world)
    (ticks : list tick_world) (e : exn) :
  (csv_exists lw = true /\ remove_csv lw = Raise e)
  \/ ((csv_exists lw = false \/ remove_csv lw = Ok tt) /\ popen lw = Raise e) ->
  let r := main WALLPAPER_PATH lw ticks in
  run_uncaught r = Some e
  /\ rtl_power_process r = None
  /\ filter (fun ev => is_publish ev || is_sleep ev) (run_events r) = []
  /\ (remove_csv lw = Raise e -> csv_exists lw = true ->
      forall cmd, ~ In (Spawned cmd) (run_events r)).
Proof.
  intros H. cbv zeta. unfold main.
  pose proof (start_rtl_power_cases lw) as C. cbv zeta in C.
  destruct H as [(Hx & Hr)|(Hx & Hp)].
  - rewrite Hx, Hr in C. rewrite C. cbn [run_uncaught rtl_power_process run_events].
    split; [reflexivity|]. split; [reflexivity|]. split; [reflexivity|].
    intros _ _ cmd Hin. apply in_app_or in Hin as [Hin|[Hin|[]]].
    + unfold banner in Hin. cbn in Hin.
      repeat (destruct Hin as [Hin|Hin]; [discriminate|]). exact Hin.
    + discriminate.
  - assert (E : (if csv_exists lw then remove_csv lw else Ok tt) = Ok tt).
    { destruct Hx as [->| ->]; [reflexivity|]. destruct (csv_exists lw); reflexivity. }
    rewrite E, Hp in C. rewrite C.
    cbn [run_uncaught rtl_power_process run_events].
    split; [reflexivity|]. split; [reflexivity|].
    split; [destruct (csv_exists lw); reflexivity|].
    intros Hr Hc. exfalso. destruct Hx as [Hx|Hx]; congruence.
Qed.

Lemma main_launch_failure_witness :
  let r := main "/home/u/w.png" (Launch false (Ok tt) (Raise OSError))
             [Tick Missing (Env true "12:00:00") (Ok tt)
                (Desktop (fun p => Ok p) (Ok tt) (Ok tt))] in
  run_uncaught r = Some OSError
  /\ rtl_power_process r = None
  /\ filter (fun ev => is_publish ev || is_sleep ev) (run_events r) = [].
Proof.
  intros r.
  destruct (main_launch_failure "/home/u/w.png"
              (Launch false (Ok tt) (Raise OSError))
              [Tick Missing (Env true "12:00:00") (Ok tt)
                 (Desktop (fun p => Ok p) (Ok tt) (Ok tt))] OSError)
    as (H1 & H2 & H3 & _).
  - right. split; [left; reflexivity|reflexivity].
  - split; [exact H1|]. split; [exact H2|exact H3].
Defined.

(** X20. Once the capture is launched [main] does not end by itself:
    however many iterations are watched and whatever fails in them, no
    exception leaves the loop, the run has slept once per iteration after
    the initial wait, an old CSV file was removed before the tool was
    spawned, and a signal then terminates the spawned process, waits for
    it and exits with status 0. *)
Theorem main_keeps_running (WALLPAPER_PATH : string) (lw : launch_world)
    (ticks : list tick_world) (p : process) :
  (csv_exists lw = false \/ remove_csv lw = Ok tt) -> popen lw = Ok p ->
  let r := main WALLPAPER_PATH lw ticks in
  run_uncaught r = None
  /\ rtl_power_process r = Some p
  /\ filter is_sleep (run_events r)
     = Slept 5 :: repeat (Slept UPDATE_INTERVAL) (List.length ticks)
  /\ (exists before after,
        run_events r
        = before ++ [Spawned (rtl_power_cmd "/tmp/rtl_spectrum.csv")] ++ after
        /\ (csv_exists lw = true ->
            In (Removed "/tmp/rtl_spectrum.csv") before)
        /\ forall path, ~ In (Removed path) after)
  /\ signal_handler (rtl_power_process r)
     = [Printed (String "010" "[*] Shutting down gracefully...");
        Terminated p; Waited p; Exited 0].
Proof.
  intros Hx Hp. cbv zeta. unfold main.
  pose proof (start_rtl_power_cases lw) as C. cbv zeta in C.
  assert (E : (if csv_exists lw then remove_csv lw else Ok tt) = Ok tt).
  { destruct Hx as [->| ->]; [reflexivity|]. destruct (csv_exists lw); reflexivity. }
  rewrite E, Hp in C. rewrite C.
  cbn [run_uncaught rtl_power_process run_events].
  split; [reflexivity|]. split; [reflexivity|].
  assert (Hs : forall ts,
             filter is_sleep (List.concat (List.map (loop_iteration WALLPAPER_PATH) ts))
             = repeat (Slept UPDATE_INTERVAL) (List.length ts)).
  { induction ts as [|t ts IH]; [reflexivity|].
    cbn [List.map List.concat List.length repeat]. rewrite filter_app, IH.
    destruct (loop_iteration_one_sleep WALLPAPER_PATH t) as (evs & -> & Hq).
    rewrite filter_app, Hq. reflexivity. }
  assert (Hrm : forall ts path,
             ~ In (Removed path)
                 (List.concat (List.map (loop_iteration WALLPAPER_PATH) ts))).
  { intros ts path Hin. apply in_concat in Hin as (evs & Hevs & Hin).
    apply in_map_iff in Hevs as (t & <- & _).
    pose proof (loop_iteration_cases WALLPAPER_PATH t) as Ht. cbv zeta in Ht.
    assert (Hrd : ~ In (Removed path) (fst (read_spectrum_data_io (tick_csv t)))).
    { unfold read_spectrum_data_io.
      destruct (read_spectrum_data_try (tick_csv t));
        [intros []|intros [X|[]]; discriminate]. }
    assert (Hsg : ~ In (Removed path)
                      (fst (set_gnome_wallpaper (tick_desktop t) WALLPAPER_PATH))).
    { pose proof (set_gnome_wallpaper_cases (tick_desktop t) WALLPAPER_PATH) as Hg.
      destruct (abspath (tick_desktop t) WALLPAPER_PATH) as [q|e'];
        [cbv zeta in Hg|rewrite Hg; intros [X|[]]; discriminate].
      destruct (run_picture_uri (tick_desktop t)) as [[]|e1];
        [|rewrite Hg; intros [X|[X|[]]]; discriminate].
      destruct (run_picture_uri_dark (tick_desktop t)) as [[]|e2];
        rewrite Hg; intros [X|[X|[X|[]]]]; discriminate. }
    destruct (create_spectrum_image BARS_STYLE (tick_env t)
                (snd (read_spectrum_data_io (tick_csv t)))) as [img|e'].
    - destruct (tick_save t) as [[]|e'']; rewrite Ht in Hin.
      + apply in_app_or in Hin as [Hin|Hin]; [tauto|].
        apply in_app_or in Hin as [[X|[]]|Hin]; [discriminate|].
        apply in_app_or in Hin as [Hin|[X|[]]]; [tauto|discriminate].
      + apply in_app_or in Hin as [Hin|[X|[X|[X|[]]]]];
          [tauto|discriminate..].
    - rewrite Ht in Hin.
      apply in_app_or in Hin as [Hin|[X|[X|[]]]]; [tauto|discriminate..]. }
  split; [|split].
  - rewrite !filter_app, Hs.
    destruct (csv_exists lw); reflexivity.
  - exists (banner WALLPAPER_PATH
            ++ (if csv_exists lw then [Removed "/tmp/rtl_spectrum.csv"] else [])
            ++ [Printed ("[*] Starting rtl_power: "
                         ++ join " " (rtl_power_cmd "/tmp/rtl_spectrum.csv"))]),
      ([Printed "[*] Waiting for initial spectrum data..."; Slept 5]
       ++ List.concat (List.map (loop_iteration WALLPAPER_PATH) ticks)).
    split; [rewrite <- !app_assoc; destruct (csv_exists lw); reflexivity|].
    split.
    + intros ->. apply in_or_app. right. left. reflexivity.
    + intros path Hin. apply in_app_or in Hin as [[X|[X|[]]]|Hin];
        [discriminate..|]. exact (Hrm ticks path Hin).
  - reflexivity.
Qed.

Lemma main_keeps_running_witness :
  let r := main "/home/u/w.png" (Launch true (Ok tt) (Ok (Process 4242)))
             [Tick Missing (Env true "12:00:00") (Ok tt)
                (Desktop (fun p => Ok p) (Ok tt) (Ok tt));
              Tick Unreadable (Env true "12:00:05") (Raise OSError)
                (Desktop (fun p => Ok p) (Ok tt) (Ok tt))] in
  run_uncaught r = None
  /\ rtl_power_process r = Some (Process 4242)
  /\ filter is_sleep (run_events r)
     = [Slept 5; Slept UPDATE_INTERVAL; Slept UPDATE_INTERVAL].
Proof.
  intros r.
  destruct (main_keeps_running "/home/u/w.png"
              (Launch true (Ok tt) (Ok (Process 4242)))
              [Tick Missing (Env true "12:00:00") (Ok tt)
                 (Desktop (fun p => Ok p) (Ok tt) (Ok tt));
               Tick Unreadable (Env true "12:00:05") (Raise OSError)
                 (Desktop (fun p => Ok p) (Ok tt) (Ok tt))]
              (Process 4242))
    as (H1 & H2 & H3 & _).
  - right. reflexivity.
  - reflexivity.
  - split; [exact H1|]. split; [exact H2|exact H3].
Defined.
